(** * Compliance engine: scoring rules, collectors and risk aggregation

    A shallow embedding of [src/compliance.py] (class
    [GitHubComplianceEngine]) and the properties its specification states.

    - Provider records are JSON values ([Py.json]); the Python operations the
      source applies to them ([x[k]], [x.get(k, d)], [len], truth value,
      iteration, [str.lower], [in]) are given their dynamic semantics,
      exceptions included, in module [Py].
    - Python [float] is IEEE 754 binary64, and so is Rocq's primitive [float]:
      scores are computed with the very same roundings as in the source.
    - The percentages of the risk report are also read as real numbers
      ([real_value]); their rounding errors are bounded from the IEEE 754
      specification of the operations ([SpecFloat]).
    - The remote provider, the clock and the library functions whose
      algorithm is not part of the repository are fields of the records
      [World] and [Lib]. *)

From Stdlib Require Import ZArith List String Ascii Bool Lia Floats QArith.
From Stdlib Require Import Sorting.Permutation Sorting.Sorted.
From Stdlib Require Import Reals Qreals Lra Psatz.
From Stdlib Require Uint63.
Import ListNotations.

Set Warnings "-inexact-float,-register-all".

Local Open Scope string_scope.
Local Open Scope list_scope.
Local Open Scope Z_scope.

(* ===================================================================== *)
(** ** Python values and their dynamic semantics *)
(* ===================================================================== *)

Module Py.

(** What [response.json()] returns.  Numbers are integers: every numeric
    field the engine reads from the provider is an integer count.  Strings
    are sequences of code points below 256.  A [JDict] lists the items of
    the dict in insertion order; a lookup takes the first binding of a
    key. *)
Inductive json : Type :=
| JNull
| JBool (b : bool)
| JInt (n : Z)
| JStr (s : string)
| JList (items : list json)
| JDict (fields : list (string * json)).

(** Exceptions the modelled code can raise.  [RequestException] stands for
    the whole [requests.exceptions.RequestException] hierarchy. *)
Inductive exn : Type :=
| KeyError (key : string)
| TypeError
| AttributeError
| RequestException
| OSError.

Inductive result (A : Type) : Type :=
| Ok (a : A)
| Raise (e : exn).
Arguments Ok {A} a.
Arguments Raise {A} e.

Definition bind {A B} (m : result A) (k : A -> result B) : result B :=
  match m with
  | Ok a => k a
  | Raise e => Raise e
  end.

Definition is_ok {A} (m : result A) : bool :=
  match m with Ok _ => true | Raise _ => false end.

(** [for x in l: ys.append(f(x))], stopping at the first exception. *)
Fixpoint mapM {A B} (f : A -> result B) (l : list A) : result (list B) :=
  match l with
  | [] => Ok []
  | x :: xs =>
      bind (f x) (fun y => bind (mapM f xs) (fun ys => Ok (y :: ys)))
  end.

Fixpoint assoc (k : string) (kvs : list (string * json)) : option json :=
  match kvs with
  | [] => None
  | (k', v) :: rest => if String.eqb k k' then Some v else assoc k rest
  end.

(** The keys of a dict, each once, in insertion order. *)
Fixpoint dict_keys (kvs : list (string * json)) (seen : list string)
  : list string :=
  match kvs with
  | [] => []
  | (k, _) :: rest =>
      if existsb (String.eqb k) seen then dict_keys rest seen
      else k :: dict_keys rest (k :: seen)
  end.

(** [x[k]] for a string key. *)
Definition getitem (x : json) (k : string) : result json :=
  match x with
  | JDict kvs =>
      match assoc k kvs with
      | Some v => Ok v
      | None => Raise (KeyError k)
      end
  | _ => Raise TypeError
  end.

(** [x.get(k, default)]; only dicts have the method. *)
Definition get (x : json) (k : string) (default : json) : result json :=
  match x with
  | JDict kvs =>
      Ok (match assoc k kvs with Some v => v | None => default end)
  | _ => Raise AttributeError
  end.

(** [len(x)]. *)
Definition len (x : json) : result Z :=
  match x with
  | JStr s => Ok (Z.of_nat (String.length s))
  | JList l => Ok (Z.of_nat (List.length l))
  | JDict kvs => Ok (Z.of_nat (List.length (dict_keys kvs [])))
  | _ => Raise TypeError
  end.

(** Truth value of [x], as tested by [if x] and [not x]. *)
Definition truthy (x : json) : bool :=
  match x with
  | JNull => false
  | JBool b => b
  | JInt n => negb (n =? 0)
  | JStr s => negb (String.eqb s "")
  | JList l => match l with [] => false | _ => true end
  | JDict kvs => match kvs with [] => false | _ => true end
  end.

Fixpoint chars (s : string) : list json :=
  match s with
  | EmptyString => []
  | String c rest => JStr (String c EmptyString) :: chars rest
  end.

(** The elements [for v in x] visits. *)
Definition iter (x : json) : result (list json) :=
  match x with
  | JList l => Ok l
  | JDict kvs => Ok (map JStr (dict_keys kvs []))
  | JStr s => Ok (chars s)
  | _ => Raise TypeError
  end.

(** [x == 0]. *)
Definition eq_zero (x : json) : bool :=
  match x with
  | JInt n => n =? 0
  | JBool b => negb b
  | _ => false
  end.

(** [x == s] for a string literal [s]. *)
Definition eq_str (x : json) (s : string) : bool :=
  match x with
  | JStr t => String.eqb t s
  | _ => false
  end.

(** The integer a value counts as in arithmetic ([bool] is a subclass of
    [int]). *)
Definition as_int (x : json) : option Z :=
  match x with
  | JInt n => Some n
  | JBool b => Some (if b then 1 else 0)
  | _ => None
  end.

(** [a + b > bound]: integers add and compare; two strings or two lists add
    but do not compare with an integer; anything else does not add. *)
Definition add_gt (a b : json) (bound : Z) : result bool :=
  match as_int a, as_int b with
  | Some m, Some n => Ok (m + n >? bound)
  | _, _ => Raise TypeError
  end.

(** [0 + v] inside [sum(...)]. *)
Definition add_int (acc : Z) (v : json) : result Z :=
  match as_int v with
  | Some n => Ok (acc + n)
  | None => Raise TypeError
  end.

(** [str.lower] on one character.  A string is a sequence of code points
    below 256: the capitals are A-Z and, in the Latin-1 block, U+00C0 to
    U+00DE except the multiplication sign U+00D7. *)
Definition lower_ascii (c : ascii) : ascii :=
  let n := N_of_ascii c in
  if ((65 <=? n) && (n <=? 90)
      || (192 <=? n) && (n <=? 222) && negb (n =? 215))%N
  then ascii_of_N (n + 32)
  else c.

Fixpoint lower_string (s : string) : string :=
  match s with
  | EmptyString => EmptyString
  | String c rest => String (lower_ascii c) (lower_string rest)
  end.

(** [x.lower()]; only strings have the method. *)
Definition lower (x : json) : result string :=
  match x with
  | JStr s => Ok (lower_string s)
  | _ => Raise AttributeError
  end.

Fixpoint starts_with (p s : string) : bool :=
  match p, s with
  | EmptyString, _ => true
  | String a p', String b s' => Ascii.eqb a b && starts_with p' s'
  | String _ _, EmptyString => false
  end.

(** [p in s] for two strings: [p] occurs in [s] as a substring. *)
Fixpoint str_in (p s : string) : bool :=
  starts_with p s
  || match s with
     | EmptyString => false
     | String _ s' => str_in p s'
     end.

(** [max(a, b)] on floats: the first argument unless the second is
    strictly greater. *)
Definition max (a b : float) : float :=
  if (a <? b)%float then b else a.

End Py.

Import Py.

Declare Scope py_scope.
Delimit Scope py_scope with py.
Notation "x <- m ;; k" := (bind m (fun x => k))
  (at level 61, m at next level, right associativity) : py_scope.
Notation "' p <- m ;; k" := (bind m (fun p => k))
  (at level 61, p pattern, m at next level, right associativity) : py_scope.
Local Open Scope py_scope.

(* ===================================================================== *)
(** ** Scoring rules *)
(* ===================================================================== *)

Definition conventional_prefixes : list string :=
  ["feat:"; "fix:"; "docs:"; "style:"; "refactor:"; "test:"; "chore:"].

(** [_calculate_commit_compliance_score] *)
Definition _calculate_commit_compliance_score (commit : json) : result float :=
  let score := 1.0%float in
  c <- getitem commit "commit" ;;
  m <- getitem c "message" ;;
  message <- lower m ;;
  n <- len m ;;
  let score := if n <? 10 then (score - 0.3)%float else score in
  let score :=
    if negb (existsb (fun prefix => str_in prefix message)
                     conventional_prefixes)
    then (score - 0.2)%float else score in
  files <- get commit "files" (JList []) ;;
  files_changed <- len files ;;
  let score := if files_changed >? 20 then (score - 0.2)%float else score in
  Ok (Py.max 0.0 score).

(** [_calculate_pr_compliance_score] *)
Definition _calculate_pr_compliance_score (pr : json) : result float :=
  let score := 1.0%float in
  body <- get pr "body" JNull ;;
  short <- (if negb (truthy body) then Ok true
            else b <- getitem pr "body" ;; n <- len b ;; Ok (n <? 20)) ;;
  let score := if short : bool then (score - 0.3)%float else score in
  rc <- get pr "review_comments" (JInt 0) ;;
  let score := if eq_zero rc then (score - 0.2)%float else score in
  additions <- get pr "additions" (JInt 0) ;;
  deletions <- get pr "deletions" (JInt 0) ;;
  large <- add_gt additions deletions 1000 ;;
  let score := if large : bool then (score - 0.1)%float else score in
  Ok (Py.max 0.0 score).

(** [_calculate_file_operation_compliance_score] *)
Definition _calculate_file_operation_compliance_score (event : json)
  : result float :=
  let score := 1.0%float in
  ty <- getitem event "type" ;;
  score <-
    (if eq_str ty "PushEvent" then
       payload <- get event "payload" (JDict []) ;;
       commits <- get payload "commits" (JList []) ;;
       commits_count <- len commits ;;
       Ok (if commits_count >? 10 then (score - 0.2)%float else score)
     else if eq_str ty "DeleteEvent" then Ok 0.8%float
     else Ok score) ;;
  Ok (Py.max 0.0 score).

(* ===================================================================== *)
(** ** Events, the provider and the engine *)
(* ===================================================================== *)

(** [ComplianceEvent].  A dataclass checks no field type: [timestamp],
    [repository] and [user] hold whatever the provider record held. *)
Record ComplianceEvent : Type := mkEvent {
  timestamp : json;
  event_type : string;
  repository : json;
  user : json;
  details : list (string * json);
  compliance_score : float
}.

(** What [requests.get] does: raise a connection error or return a response.
    The body of a response is the value of [response.json()]. *)
Inductive response : Type :=
| ConnectionError
| Response (status_code : Z) (body : json).

(** The world outside the process: the provider, the clock and the disk.
    [now_isoformat n] is [datetime.datetime.now().isoformat()] at the [n]-th
    reading of the clock, [since_isoformat n d] is
    [(datetime.datetime.now() - datetime.timedelta(days=d)).isoformat()]. *)
Record World : Type := mkWorld {
  requests_get :
    string -> list (string * string) -> list (string * string) -> response;
  now_isoformat : nat -> string;
  since_isoformat : nat -> Z -> string;
  writable : string -> bool
}.

(** A calendar date, as [datetime.date]. *)
Record date : Type := mkDate { year : Z; month : Z; day : Z }.

Definition date_eqb (a b : date) : bool :=
  (year a =? year b) && (month a =? month b) && (day a =? day b).

(** Library functions whose algorithm is not the repository's:
    [format v] is the text of [v] inside an f-string;
    [fromisoformat_date s] is [datetime.datetime.fromisoformat(s).date()],
    [None] when it raises;
    [sorted_by_timestamp_desc] is
    [sorted(events, key=lambda x: x.timestamp, reverse=True)]. *)
Record Lib : Type := mkLib {
  format : json -> string;
  fromisoformat_date : string -> option date;
  sorted_by_timestamp_desc :
    list ComplianceEvent -> result (list ComplianceEvent)
}.

(** [GitHubComplianceEngine]: the attributes [__init__] sets; [headers] and
    [base_url] are functions of them. *)
Record Engine : Type := mkEngine {
  token : string;
  repositories : list string;
  organization : option string;
  events : list ComplianceEvent
}.

Definition __init__ (github_token : string) (repositories : list string)
  (organization : option string) : Engine :=
  mkEngine github_token repositories organization [].

Definition headers (self : Engine) : list (string * string) :=
  [("Authorization", ("token " ++ token self)%string);
   ("Accept", "application/vnd.github.v3+json")].

Definition base_url : string := "https://api.github.com".

Definition set_events (self : Engine) (evs : list ComplianceEvent) : Engine :=
  mkEngine (token self) (repositories self) (organization self) evs.

(** [response.raise_for_status()] followed by [response.json()]. *)
Definition raise_for_status (r : response) : result json :=
  match r with
  | ConnectionError => Raise RequestException
  | Response status body =>
      if (400 <=? status) && (status <? 600) then Raise RequestException
      else Ok body
  end.

Definition fetch (w : World) (self : Engine) (url : string)
  (params : list (string * string)) : result json :=
  raise_for_status (requests_get w url (headers self) params).

(** [events = []; try: <body> except RequestException: print(...);
    return events].  The body appends to [events] only after its single
    request has succeeded, and nothing after the request raises a
    [RequestException]: when the handler runs, [events] is still empty. *)
Definition except_request {A} (body : result (list A)) : result (list A) :=
  match body with
  | Raise RequestException => Ok []
  | r => r
  end.

Definition repo_url (L : Lib) (repo_full_name : json) (suffix : string)
  : string :=
  (base_url ++ "/repos/" ++ format L repo_full_name ++ suffix)%string.

(* ===================================================================== *)
(** ** Collectors *)
(* ===================================================================== *)

(** [sum(f.get(field, 0) for f in files)] *)
Definition sum_field (field : string) (files : json) : result Z :=
  fs <- iter files ;;
  fold_left
    (fun acc f => a <- acc ;; v <- get f field (JInt 0) ;; add_int a v)
    fs (Ok 0).

(** The body of the loop of [monitor_commits]: the event of one record,
    its fields evaluated in the order of the source. *)
Definition commit_event (repo_full_name commit : json)
  : result ComplianceEvent :=
  c <- getitem commit "commit" ;;
  committer <- getitem c "committer" ;;
  date <- getitem committer "date" ;;
  c <- getitem commit "commit" ;;
  author <- getitem c "author" ;;
  name <- getitem author "name" ;;
  sha <- getitem commit "sha" ;;
  c <- getitem commit "commit" ;;
  message <- getitem c "message" ;;
  files <- get commit "files" (JList []) ;;
  files_changed <- len files ;;
  files <- get commit "files" (JList []) ;;
  additions <- sum_field "additions" files ;;
  files <- get commit "files" (JList []) ;;
  deletions <- sum_field "deletions" files ;;
  score <- _calculate_commit_compliance_score commit ;;
  Ok {| timestamp := date;
        event_type := "commit";
        repository := repo_full_name;
        user := name;
        details := [("sha", sha); ("message", message);
                    ("files_changed", JInt files_changed);
                    ("additions", JInt additions);
                    ("deletions", JInt deletions)];
        compliance_score := score |}.

(** [monitor_commits]; [tick] is the number of clock readings so far. *)
Definition monitor_commits (w : World) (L : Lib) (self : Engine)
  (repo_full_name : json) (days_back : Z) (tick : nat)
  : result (list ComplianceEvent) :=
  let since_date := since_isoformat w tick days_back in
  let url := repo_url L repo_full_name "/commits" in
  except_request
    (commits <- fetch w self url
                  [("since", since_date); ("per_page", "100")] ;;
     cs <- iter commits ;;
     mapM (commit_event repo_full_name) cs).

Definition pr_event (repo_full_name pr : json) : result ComplianceEvent :=
  created_at <- getitem pr "created_at" ;;
  u <- getitem pr "user" ;;
  login <- getitem u "login" ;;
  number <- getitem pr "number" ;;
  title <- getitem pr "title" ;;
  state <- getitem pr "state" ;;
  merged <- get pr "merged" (JBool false) ;;
  mergeable <- get pr "mergeable" JNull ;;
  review_comments <- get pr "review_comments" (JInt 0) ;;
  score <- _calculate_pr_compliance_score pr ;;
  Ok {| timestamp := created_at;
        event_type := "pull_request";
        repository := repo_full_name;
        user := login;
        details := [("number", number); ("title", title); ("state", state);
                    ("merged", merged); ("mergeable", mergeable);
                    ("review_comments", review_comments)];
        compliance_score := score |}.

(** [monitor_pull_requests] *)
Definition monitor_pull_requests (w : World) (L : Lib) (self : Engine)
  (repo_full_name : json) (state : string)
  : result (list ComplianceEvent) :=
  let url := repo_url L repo_full_name "/pulls" in
  except_request
    (pulls <- fetch w self url [("state", state); ("per_page", "100")] ;;
     ps <- iter pulls ;;
     mapM (pr_event repo_full_name) ps).

Definition file_operation_types : list string :=
  ["PushEvent"; "CreateEvent"; "DeleteEvent"].

(** The body of the loop of [monitor_file_operations]: [None] for a record
    of another type, which appends nothing. *)
Definition file_operation_event (repo_full_name event : json)
  : result (option ComplianceEvent) :=
  ty <- getitem event "type" ;;
  if existsb (eq_str ty) file_operation_types then
    created_at <- getitem event "created_at" ;;
    ty <- getitem event "type" ;;
    ty_lower <- lower ty ;;
    actor <- getitem event "actor" ;;
    login <- getitem actor "login" ;;
    id <- getitem event "id" ;;
    payload <- get event "payload" (JDict []) ;;
    p <- get event "payload" (JDict []) ;;
    ref <- get p "ref" (JStr "") ;;
    p <- get event "payload" (JDict []) ;;
    commits <- get p "commits" (JList []) ;;
    commits_count <- len commits ;;
    score <- _calculate_file_operation_compliance_score event ;;
    Ok (Some {| timestamp := created_at;
                event_type := ("file_" ++ ty_lower)%string;
                repository := repo_full_name;
                user := login;
                details := [("event_id", id); ("payload", payload);
                            ("ref", ref);
                            ("commits_count", JInt commits_count)];
                compliance_score := score |})
  else Ok None.

Fixpoint somes {A} (l : list (option A)) : list A :=
  match l with
  | [] => []
  | Some x :: rest => x :: somes rest
  | None :: rest => somes rest
  end.

(** [monitor_file_operations] *)
Definition monitor_file_operations (w : World) (L : Lib) (self : Engine)
  (repo_full_name : json) : result (list ComplianceEvent) :=
  let url := repo_url L repo_full_name "/events" in
  except_request
    (repo_events <- fetch w self url [("per_page", "100")] ;;
     es <- iter repo_events ;;
     evs <- mapM (file_operation_event repo_full_name) es ;;
     Ok (somes evs)).

(** The loops of [monitor_branches_and_tags] read the clock once per record:
    [mapM_from f i l] runs [f (i + j)] on the [j]-th element. *)
Fixpoint mapM_from {A B} (f : nat -> A -> result B) (i : nat) (l : list A)
  : result (list B) :=
  match l with
  | [] => Ok []
  | x :: xs =>
      y <- f i x ;; ys <- mapM_from f (S i) xs ;; Ok (y :: ys)
  end.

Definition branch_event (w : World) (repo_full_name : json) (tick : nat)
  (branch : json) : result ComplianceEvent :=
  let now := now_isoformat w tick in
  name <- getitem branch "name" ;;
  protected <- get branch "protected" (JBool false) ;;
  c <- getitem branch "commit" ;;
  sha <- getitem c "sha" ;;
  p <- get branch "protected" JNull ;;
  Ok {| timestamp := JStr now;
        event_type := "branch_status";
        repository := repo_full_name;
        user := JStr "system";
        details := [("name", name); ("protected", protected);
                    ("commit_sha", sha)];
        compliance_score := if truthy p then 1.0%float else 0.7%float |}.

Definition tag_event (w : World) (repo_full_name : json) (tick : nat)
  (tag : json) : result ComplianceEvent :=
  let now := now_isoformat w tick in
  name <- getitem tag "name" ;;
  c <- getitem tag "commit" ;;
  sha <- getitem c "sha" ;;
  Ok {| timestamp := JStr now;
        event_type := "tag_status";
        repository := repo_full_name;
        user := JStr "system";
        details := [("name", name); ("commit_sha", sha)];
        compliance_score := 0.9%float |}.

(** [monitor_branches_and_tags] *)
Definition monitor_branches_and_tags (w : World) (L : Lib) (self : Engine)
  (repo_full_name : json) (tick : nat) : result (list ComplianceEvent) :=
  branch_events <-
    except_request
      (branches <- fetch w self (repo_url L repo_full_name "/branches")
                     [("per_page", "100")] ;;
       bs <- iter branches ;;
       mapM_from (branch_event w repo_full_name) tick bs) ;;
  tag_events <-
    except_request
      (tags <- fetch w self (repo_url L repo_full_name "/tags")
                 [("per_page", "50")] ;;
       ts <- iter tags ;;
       mapM_from (tag_event w repo_full_name)
         (tick + List.length branch_events)%nat ts) ;;
  Ok (branch_events ++ tag_events).

(* ===================================================================== *)
(** ** The scan *)
(* ===================================================================== *)

(** [if self.organization]: neither [None] nor the empty string. *)
Definition organization_set (self : Engine) : option string :=
  match organization self with
  | Some o => if String.eqb o "" then None else Some o
  | None => None
  end.

(** The full name [get_repositories] builds for a configured name. *)
Definition resolve_full_name (w : World) (L : Lib) (self : Engine)
  (repo_name : string) : result string :=
  match organization_set self with
  | Some o => Ok (o ++ "/" ++ repo_name)%string
  | None =>
      match requests_get w (base_url ++ "/user")%string (headers self) [] with
      | ConnectionError => Raise RequestException
      | Response status body =>
          if status =? 200 then
            login <- getitem body "login" ;;
            Ok (format L login ++ "/" ++ repo_name)%string
          else Ok repo_name
      end
  end.

Definition fetch_repository (w : World) (L : Lib) (self : Engine)
  (repo_name : string) : result (list json) :=
  full <- resolve_full_name w L self repo_name ;;
  except_request
    (r <- fetch w self (base_url ++ "/repos/" ++ full)%string [] ;; Ok [r]).

(** [get_repositories] *)
Definition get_repositories (w : World) (L : Lib) (self : Engine)
  (repo_name : option string) : result (list json) :=
  match repo_name with
  | Some name =>
      if negb (String.eqb name "")
         && existsb (String.eqb name) (repositories self)
      then fetch_repository w L self name
      else rs <- mapM (fetch_repository w L self) (repositories self) ;;
           Ok (List.concat rs)
  | None =>
      rs <- mapM (fetch_repository w L self) (repositories self) ;;
      Ok (List.concat rs)
  end.

(** The loop of [run_comprehensive_scan] over the repositories. *)
Fixpoint scan_repositories (w : World) (L : Lib) (self : Engine)
  (days_back : Z) (repos : list json) (tick : nat)
  : result (list ComplianceEvent) :=
  match repos with
  | [] => Ok []
  | repo :: rest =>
      repo_full_name <- getitem repo "full_name" ;;
      commits <- monitor_commits w L self repo_full_name days_back tick ;;
      pulls <- monitor_pull_requests w L self repo_full_name "all" ;;
      files <- monitor_file_operations w L self repo_full_name ;;
      refs <- monitor_branches_and_tags w L self repo_full_name (S tick) ;;
      others <- scan_repositories w L self days_back rest
                  (S tick + List.length refs)%nat ;;
      Ok (commits ++ pulls ++ files ++ refs ++ others)
  end.

(** [run_comprehensive_scan]: the events, and the engine holding them. *)
Definition run_comprehensive_scan (w : World) (L : Lib) (self : Engine)
  (days_back : Z) (tick : nat) : result (list ComplianceEvent * Engine) :=
  repos <- get_repositories w L self None ;;
  all_events <- scan_repositories w L self days_back repos tick ;;
  Ok (all_events, set_events self all_events).

(* ===================================================================== *)
(** ** Aggregation and report *)
(* ===================================================================== *)

(** What the report functions build: JSON values, floats, lists and dicts
    (keys are hashable JSON values, strings most of the time). *)
Inductive value : Type :=
| VJson (j : json)
| VFloat (f : float)
| VList (items : list value)
| VDict (items : list (json * value)).

Definition VInt (n : Z) : value := VJson (JInt n).
Definition VStr (s : string) : value := VJson (JStr s).
Definition VLen {A} (l : list A) : value := VInt (Z.of_nat (List.length l)).

(** [float(n)] for a count (below [2^63]). *)
Definition float_of_nat (n : nat) : float :=
  PrimFloat.of_uint63 (Uint63.of_Z (Z.of_nat n)).

(** [sum(scores)], added from the left as CPython does before 3.12 (later
    versions also carry a compensation of the rounding errors). *)
Definition sum_floats (scores : list float) : float :=
  fold_left PrimFloat.add scores 0%float.

Definition hashable (k : json) : bool :=
  match k with
  | JList _ | JDict _ => false
  | _ => true
  end.

(** [a == b] between hashable values. *)
Definition key_eqb (a b : json) : bool :=
  match a, b with
  | JNull, JNull => true
  | JStr s, JStr t => String.eqb s t
  | _, _ =>
      match as_int a, as_int b with
      | Some m, Some n => m =? n
      | _, _ => false
      end
  end.

(** [d[k] += 1] on a [defaultdict(int)]. *)
Fixpoint incr (k : json) (d : list (json * Z)) : list (json * Z) :=
  match d with
  | [] => [(k, 1)]
  | (k', n) :: rest =>
      if key_eqb k k' then (k', n + 1) :: rest else (k', n) :: incr k rest
  end.

(** [d[k] += 1] with the hash of the key taken first. *)
Definition incr_key (k : json) (d : list (json * Z))
  : result (list (json * Z)) :=
  if hashable k then Ok (incr k d) else Raise TypeError.

(** [sorted(items, key=lambda x: x[1], reverse=True)]: by count, largest
    first, equal counts in their original order. *)
Fixpoint insert_desc (x : json * Z) (l : list (json * Z)) : list (json * Z) :=
  match l with
  | [] => [x]
  | y :: rest =>
      if snd y >=? snd x then y :: insert_desc x rest else x :: y :: rest
  end.

Definition sorted_by_count_desc (l : list (json * Z)) : list (json * Z) :=
  fold_left (fun acc x => insert_desc x acc) l [].

Definition counts (d : list (json * Z)) : value :=
  VDict (map (fun kv => (fst kv, VInt (snd kv))) d).

(** The loop of [_generate_summary]: the three tallies after one more
    event. *)
Definition count_event
  (acc : result (list (json * Z) * list (json * Z) * list (json * Z)))
  (event : ComplianceEvent)
  : result (list (json * Z) * list (json * Z) * list (json * Z)) :=
  ' (events_by_type, events_by_repo, events_by_user) <- acc ;;
  events_by_type <- incr_key (JStr (event_type event)) events_by_type ;;
  events_by_repo <- incr_key (repository event) events_by_repo ;;
  events_by_user <- incr_key (user event) events_by_user ;;
  Ok (events_by_type, events_by_repo, events_by_user).

(** [_generate_summary] *)
Definition _generate_summary (self : Engine) : result value :=
  ' (events_by_type, events_by_repo, events_by_user) <-
    fold_left count_event (events self) (Ok ([], [], [])) ;;
  Ok (VDict
        [(JStr "events_by_type", counts events_by_type);
         (JStr "events_by_repository", counts events_by_repo);
         (JStr "top_contributors",
           counts (firstn 10 (sorted_by_count_desc events_by_user)));
         (JStr "average_compliance_score",
           match events self with
           | [] => VInt 0
           | _ => VFloat (sum_floats (map compliance_score (events self))
                          / float_of_nat (List.length (events self)))
           end)]).

(** The three tiers of [_generate_compliance_metrics]. *)
Definition is_high_risk (e : ComplianceEvent) : bool :=
  (compliance_score e <? 0.5)%float.

Definition is_medium_risk (e : ComplianceEvent) : bool :=
  (0.5 <=? compliance_score e)%float && (compliance_score e <? 0.8)%float.

Definition is_low_risk (e : ComplianceEvent) : bool :=
  (0.8 <=? compliance_score e)%float.

Definition high_risk_events (self : Engine) : list ComplianceEvent :=
  filter is_high_risk (events self).

Definition medium_risk_events (self : Engine) : list ComplianceEvent :=
  filter is_medium_risk (events self).

Definition low_risk_events (self : Engine) : list ComplianceEvent :=
  filter is_low_risk (events self).

(** [(count / total_events) * 100] *)
Definition percentage (count total_events : nat) : float :=
  (float_of_nat count / float_of_nat total_events * 100)%float.

(** [s.replace('Z', '+00:00')] *)
Fixpoint replace_Z (s : string) : string :=
  match s with
  | EmptyString => EmptyString
  | String c rest =>
      if Ascii.eqb c "Z"%char then ("+00:00" ++ replace_Z rest)%string
      else String c (replace_Z rest)
  end.

(** The day an event falls on: [None] when the [try] block raises (a
    timestamp that is no string has no [replace], a string may not parse). *)
Definition event_date (L : Lib) (e : ComplianceEvent) : option date :=
  match timestamp e with
  | JStr ts => fromisoformat_date L (replace_Z ts)
  | _ => None
  end.

(** [daily_scores[date].append(score)] on a [defaultdict(list)]. *)
Fixpoint append_score (d : date) (s : float) (daily : list (date * list float))
  : list (date * list float) :=
  match daily with
  | [] => [(d, [s])]
  | (d', l) :: rest =>
      if date_eqb d d' then (d', l ++ [s]) :: rest
      else (d', l) :: append_score d s rest
  end.

Definition daily_scores (L : Lib) (self : Engine)
  : list (date * list float) :=
  fold_left
    (fun daily e =>
       match event_date L e with
       | Some d => append_score d (compliance_score e) daily
       | None => daily
       end)
    (events self) [].

Definition digit (n : Z) : ascii := ascii_of_N (48 + Z.to_N (n mod 10)).

(** [date.isoformat()]: [YYYY-MM-DD]. *)
Definition date_isoformat (d : date) : string :=
  String (digit (year d / 1000)) (String (digit (year d / 100))
    (String (digit (year d / 10)) (String (digit (year d))
      (String "-" (String (digit (month d / 10)) (String (digit (month d))
        (String "-" (String (digit (day d / 10)) (String (digit (day d))
          EmptyString))))))))).

(** [d[k] = v] on a dict with string keys. *)
Fixpoint dict_set (k : string) (v : float) (d : list (string * float))
  : list (string * float) :=
  match d with
  | [] => [(k, v)]
  | (k', v') :: rest =>
      if String.eqb k k' then (k', v) :: rest else (k', v') :: dict_set k v rest
  end.

(** The dict comprehension of [_analyze_compliance_trends]. *)
Definition daily_averages (L : Lib) (self : Engine) : list (string * float) :=
  fold_left
    (fun d ds =>
       dict_set (date_isoformat (fst ds))
         (sum_floats (snd ds) / float_of_nat (List.length (snd ds)))%float d)
    (daily_scores L self) [].

(** [list(daily_averages.values())[-1] > list(daily_averages.values())[0]],
    read only when the dict has more than one item. *)
Definition last_exceeds_first (d : list (string * float)) : bool :=
  match d, rev d with
  | (_, first) :: _, (_, last) :: _ => (first <? last)%float
  | _, _ => false
  end.

Definition trend_label (d : list (string * float)) : string :=
  if (1 <? List.length d)%nat && last_exceeds_first d
  then "improving" else "stable".

(** [_analyze_compliance_trends] *)
Definition _analyze_compliance_trends (L : Lib) (self : Engine) : value :=
  let daily_averages := daily_averages L self in
  VDict
    [(JStr "daily_compliance_scores",
       VDict (map (fun kv => (JStr (fst kv), VFloat (snd kv))) daily_averages));
     (JStr "trend", VStr (trend_label daily_averages))].

(** [_generate_recommendations] *)
Definition _generate_recommendations
  (high_risk_events : list ComplianceEvent) : list string :=
  let recommendations := [] in
  let commit_issues :=
    filter (fun e => String.eqb (event_type e) "commit") high_risk_events in
  let pr_issues :=
    filter (fun e => String.eqb (event_type e) "pull_request")
      high_risk_events in
  let recommendations :=
    match commit_issues with
    | [] => recommendations
    | _ =>
        recommendations ++
        ["Improve commit message quality and follow conventional commit format";
         "Consider breaking down large commits into smaller, focused changes"]
    end in
  let recommendations :=
    match pr_issues with
    | [] => recommendations
    | _ =>
        recommendations ++
        ["Ensure all pull requests have detailed descriptions";
         "Implement mandatory code reviews for all pull requests"]
    end in
  match recommendations with
  | [] => ["Overall compliance is good. Continue current practices."]
  | _ => recommendations
  end.

(** [_generate_compliance_metrics] *)
Definition _generate_compliance_metrics (L : Lib) (self : Engine) : value :=
  let total_events := List.length (events self) in
  if (total_events =? 0)%nat then VDict []
  else
    let high_risk_events := high_risk_events self in
    let medium_risk_events := medium_risk_events self in
    let low_risk_events := low_risk_events self in
    VDict
      [(JStr "risk_distribution",
         VDict [(JStr "high_risk", VLen high_risk_events);
                (JStr "medium_risk", VLen medium_risk_events);
                (JStr "low_risk", VLen low_risk_events)]);
       (JStr "risk_percentages",
         VDict
           [(JStr "high_risk",
              VFloat (percentage (List.length high_risk_events) total_events));
            (JStr "medium_risk",
              VFloat (percentage (List.length medium_risk_events) total_events));
            (JStr "low_risk",
              VFloat (percentage (List.length low_risk_events) total_events))]);
       (JStr "compliance_trends", _analyze_compliance_trends L self);
       (JStr "recommendations",
         VList (map VStr (_generate_recommendations high_risk_events)))].

(** [len(set(keys))] *)
Definition count_distinct (keys : list json) : result Z :=
  d <- fold_left (fun acc k => d <- acc ;; incr_key k d) keys (Ok []) ;;
  Ok (Z.of_nat (List.length d)).

Definition detailed_event (e : ComplianceEvent) : value :=
  VDict [(JStr "timestamp", VJson (timestamp e));
         (JStr "type", VStr (event_type e));
         (JStr "repository", VJson (repository e));
         (JStr "user", VJson (user e));
         (JStr "compliance_score", VFloat (compliance_score e));
         (JStr "details", VJson (JDict (details e)))].

(** The files on disk: the report each path holds. *)
Definition disk : Type := list (string * value).

(** [generate_progress_report]: the report and the disk after the call. *)
Definition generate_progress_report (w : World) (L : Lib) (self : Engine)
  (output_file : string) (tick : nat) (files : disk)
  : result (value * disk) :=
  match events self with
  | [] => Ok (VDict [], files)
  | _ =>
      let generated_at := now_isoformat w tick in
      repositories_scanned <- count_distinct (map repository (events self)) ;;
      summary <- _generate_summary self ;;
      let compliance_metrics := _generate_compliance_metrics L self in
      sorted_events <- sorted_by_timestamp_desc L (events self) ;;
      let report :=
        VDict [(JStr "generated_at", VStr generated_at);
               (JStr "scan_period", VStr "Last 30 days");
               (JStr "total_events", VLen (events self));
               (JStr "repositories_scanned", VInt repositories_scanned);
               (JStr "summary", summary);
               (JStr "compliance_metrics", compliance_metrics);
               (JStr "detailed_events",
                 VList (map detailed_event sorted_events))] in
      if writable w output_file then Ok (report, (output_file, report) :: files)
      else Raise OSError
  end.

(* ===================================================================== *)
(** ** An instance of the library, for the examples *)
(* ===================================================================== *)

Module Example.

Definition digit_value (c : ascii) : option Z :=
  let n := N_of_ascii c in
  if ((48 <=? n) && (n <=? 57))%N then Some (Z.of_N n - 48) else None.

Fixpoint number (n : nat) (acc : Z) (s : string) : option (Z * string) :=
  match n with
  | O => Some (acc, s)
  | S n' =>
      match s with
      | String c rest =>
          match digit_value c with
          | Some d => number n' (10 * acc + d) rest
          | None => None
          end
      | EmptyString => None
      end
  end.

Definition expect (c : ascii) (s : string) : option string :=
  match s with
  | String c' rest => if Ascii.eqb c c' then Some rest else None
  | EmptyString => None
  end.

Definition leap (y : Z) : bool :=
  ((y mod 4 =? 0) && negb (y mod 100 =? 0)) || (y mod 400 =? 0).

Definition days_in_month (y m : Z) : Z :=
  if m =? 2 then (if leap y then 29 else 28)
  else if (m =? 4) || (m =? 6) || (m =? 9) || (m =? 11) then 30
  else 31.

Definition opt_bind {A B} (m : option A) (k : A -> option B) : option B :=
  match m with Some a => k a | None => None end.

(** [HH:MM] or [HH:MM:SS], returning what follows. *)
Definition clock_time (seconds : bool) (s : string) : option string :=
  opt_bind (number 2 0 s) (fun '(h, s) =>
  opt_bind (expect ":" s) (fun s =>
  opt_bind (number 2 0 s) (fun '(mi, s) =>
  if negb ((h <? 24) && (mi <? 60)) then None
  else if seconds then
    opt_bind (expect ":" s) (fun s =>
    opt_bind (number 2 0 s) (fun '(sec, s) =>
    if sec <? 60 then Some s else None))
  else Some s))).

(** A fraction of a second: a dot and three or six digits. *)
Definition fraction (s : string) : option string :=
  match expect "." s with
  | Some rest =>
      match number 6 0 rest with
      | Some (_, s) => Some s
      | None => opt_bind (number 3 0 rest) (fun '(_, s) => Some s)
      end
  | None => Some s
  end.

(** The timestamps of the provider and of the clock, [YYYY-MM-DD] and
    [YYYY-MM-DDTHH:MM:SS[.ffffff]] with an optional offset [+HH:MM] or
    [-HH:MM]: a part of what [datetime.fromisoformat] accepts, read as it
    reads it. *)
Definition iso_date (s : string) : option date :=
  opt_bind (number 4 0 s) (fun '(y, s) =>
  opt_bind (expect "-" s) (fun s =>
  opt_bind (number 2 0 s) (fun '(m, s) =>
  opt_bind (expect "-" s) (fun s =>
  opt_bind (number 2 0 s) (fun '(d, s) =>
  if negb ((1 <=? y) && (1 <=? m) && (m <=? 12)
           && (1 <=? d) && (d <=? days_in_month y m))
  then None
  else
    match s with
    | EmptyString => Some (mkDate y m d)
    | String _ s =>
        opt_bind (clock_time true s) (fun s =>
        opt_bind (fraction s) (fun s =>
        match s with
        | EmptyString => Some (mkDate y m d)
        | String sign s =>
            if Ascii.eqb sign "+" || Ascii.eqb sign "-" then
              opt_bind (clock_time false s) (fun s =>
              match s with
              | EmptyString => Some (mkDate y m d)
              | _ => None
              end)
            else None
        end))
    end))))).

Definition timestamp_text (e : ComplianceEvent) : option string :=
  match timestamp e with JStr s => Some s | _ => None end.

(** Largest timestamp first, equal timestamps in their original order. *)
Fixpoint insert_by_timestamp (x : string * ComplianceEvent)
  (l : list (string * ComplianceEvent)) : list (string * ComplianceEvent) :=
  match l with
  | [] => [x]
  | y :: rest =>
      if String.leb (fst x) (fst y) then y :: insert_by_timestamp x rest
      else x :: y :: rest
  end.

(** [sorted(..., reverse=True)] on events whose timestamps are all strings;
    a timestamp of another type is refused. *)
Definition sort_events (evs : list ComplianceEvent)
  : result (list ComplianceEvent) :=
  keyed <- mapM (fun e => match timestamp_text e with
                          | Some s => Ok (s, e)
                          | None => Raise TypeError
                          end) evs ;;
  Ok (map snd (fold_left (fun acc x => insert_by_timestamp x acc) keyed [])).

(** The text of a string inside an f-string is the string. *)
Definition format_text (v : json) : string :=
  match v with
  | JStr s => s
  | JNull => "None"
  | JBool true => "True"
  | JBool false => "False"
  | _ => ""
  end.

Definition lib : Lib := mkLib format_text iso_date sort_events.

Definition engine : Engine := __init__ "t0ken" ["krivisio"] (Some "acme").

(** Provider records of the examples. *)
Definition commit_record (sha message date author : string) (files : nat)
  : json :=
  JDict [("sha", JStr sha);
         ("commit",
           JDict [("message", JStr message);
                  ("committer", JDict [("date", JStr date)]);
                  ("author", JDict [("name", JStr author)])]);
         ("files", JList (repeat (JDict [("additions", JInt 2)]) files))].

Definition commit_fix_25 : json :=
  commit_record "a1" "fix" "2024-01-01T09:30:00Z" "ann" 25.

Definition commit_feat_3 : json :=
  commit_record "b2" "feat: add widget support for dashboard"
    "2024-01-02T10:00:00Z" "bob" 3.

Definition pr_no_body : json :=
  JDict [("created_at", JStr "2024-01-02T11:00:00Z");
         ("user", JDict [("login", JStr "ann")]);
         ("number", JInt 7); ("title", JStr "Rework"); ("state", JStr "open");
         ("body", JNull); ("review_comments", JInt 0);
         ("additions", JInt 1000); ("deletions", JInt 500)].

Definition push_event : json :=
  JDict [("type", JStr "PushEvent");
         ("created_at", JStr "2024-01-02T12:00:00Z");
         ("actor", JDict [("login", JStr "bob")]); ("id", JStr "41");
         ("payload", JDict [("ref", JStr "refs/heads/main");
                            ("commits", JList (repeat (JDict []) 11))])].

Definition delete_event : json :=
  JDict [("type", JStr "DeleteEvent");
         ("created_at", JStr "2024-01-02T12:30:00Z");
         ("actor", JDict [("login", JStr "bob")]); ("id", JStr "42");
         ("payload", JDict [("ref", JStr "old-branch");
                            ("commits", JList (repeat (JDict []) 11))])].

Definition watch_event : json :=
  JDict [("type", JStr "WatchEvent");
         ("created_at", JStr "2024-01-02T13:00:00Z")].

Definition branch_main : json :=
  JDict [("name", JStr "main"); ("protected", JBool true);
         ("commit", JDict [("sha", JStr "b2")])].

Definition branch_dev : json :=
  JDict [("name", JStr "dev"); ("commit", JDict [("sha", JStr "a1")])].

Definition repo : json := JStr "acme/krivisio".

(** A provider with one repository, whose commits are [commits]; it has no
    tags endpoint. *)
Definition provider_of (commits : list json) (url : string)
  (headers params : list (string * string)) : response :=
  if String.eqb url "https://api.github.com/repos/acme/krivisio" then
    Response 200 (JDict [("full_name", repo)])
  else if String.eqb url "https://api.github.com/repos/acme/krivisio/commits"
  then Response 200 (JList commits)
  else if String.eqb url "https://api.github.com/repos/acme/krivisio/pulls"
  then Response 200 (JList [pr_no_body])
  else if String.eqb url "https://api.github.com/repos/acme/krivisio/events"
  then Response 200 (JList [push_event; watch_event; delete_event])
  else if String.eqb url "https://api.github.com/repos/acme/krivisio/branches"
  then Response 200 (JList [branch_main; branch_dev])
  else Response 404 (JDict [("message", JStr "Not Found")]).

Definition world_of (commits : list json) : World :=
  mkWorld (provider_of commits) (fun _ => "2024-01-03T08:00:00.000000")
    (fun _ _ => "2023-12-04T08:00:00.000000") (fun _ => true).

(** The provider lists commits newest first. *)
Definition world : World := world_of [commit_feat_3; commit_fix_25].

(** A commit record without its [sha], between two complete ones. *)
Definition commit_without_sha : json :=
  JDict [("commit",
           JDict [("message", JStr "docs: describe the scan");
                  ("committer", JDict [("date", JStr "2024-01-01T17:00:00Z")]);
                  ("author", JDict [("name", JStr "ann")])])].

(** A commit record whose author is a plain string, and without [sha]. *)
Definition commit_text_author : json :=
  JDict [("commit",
           JDict [("message", JStr "docs: describe the scan");
                  ("committer", JDict [("date", JStr "2024-01-01T17:00:00Z")]);
                  ("author", JStr "ann")])].

Definition world_malformed : World :=
  world_of [commit_feat_3; commit_without_sha; commit_fix_25].

(** The engine after a scan of [world]. *)
Definition scanned : Engine :=
  match run_comprehensive_scan world lib engine 30 0 with
  | Ok (_, self) => self
  | Raise _ => engine
  end.

(** The event of [commit_fix_25]. *)
Definition fix_event : ComplianceEvent :=
  {| timestamp := JStr "2024-01-01T09:30:00Z";
     event_type := "commit";
     repository := repo;
     user := JStr "ann";
     details := [("sha", JStr "a1"); ("message", JStr "fix");
                 ("files_changed", JInt 25); ("additions", JInt 50);
                 ("deletions", JInt 0)];
     compliance_score := 0.29999999999999993%float |}.

End Example.

(* ===================================================================== *)
(** ** Vocabulary of the properties *)
(* ===================================================================== *)

(** [s] is a number: not a NaN. *)
Definition is_number (s : float) : Prop := (s =? s)%float = true.

(** [0.0 <= s <= 1.0] *)
Definition in_unit_interval (s : float) : Prop :=
  (0 <=? s)%float = true /\ (s <=? 1)%float = true.

(** [if cond: score -= amount] *)
Definition penalize (cond : bool) (amount score : float) : float :=
  if cond then (score - amount)%float else score.

(** The lower-cased message contains a conventional-commit prefix. *)
Definition has_conventional_prefix (message : string) : bool :=
  existsb (fun prefix => str_in prefix (lower_string message))
    conventional_prefixes.

(** The events the engine can produce: one constructor per loop body. *)
Inductive produced : ComplianceEvent -> Prop :=
| produced_commit repo commit e :
    commit_event repo commit = Ok e -> produced e
| produced_pull_request repo pr e :
    pr_event repo pr = Ok e -> produced e
| produced_file_operation repo event e :
    file_operation_event repo event = Ok (Some e) -> produced e
| produced_branch w repo tick branch e :
    branch_event w repo tick branch = Ok e -> produced e
| produced_tag w repo tick tag e :
    tag_event w repo tick tag = Ok e -> produced e.

(** The number of tiers an event falls in. *)
Definition tiers_of (e : ComplianceEvent) : nat :=
  (Nat.b2n (is_high_risk e) + Nat.b2n (is_medium_risk e)
   + Nat.b2n (is_low_risk e))%nat.

(** [count / total_events * 100] as a rational number, without rounding. *)
Definition exact_percentage (count total_events : nat) : Q :=
  (Z.of_nat count # Pos.of_nat total_events) * 100.

(** The three binary64 percentages of a split of [h + m + l] events, added
    from the left, are within [2^-45] of 100.0. *)
Definition percentages_close (h m l : nat) : bool :=
  let total := (h + m + l)%nat in
  (PrimFloat.abs (percentage h total + percentage m total
                  + percentage l total - 100) <=? 0x1p-45)%float.

(** All the splits of at most [n] events. *)
Definition splits_close (n : nat) : bool :=
  forallb (fun h =>
    forallb (fun m =>
      forallb (fun l => (h + m + l =? 0)%nat || percentages_close h m l)
        (seq 0 (S (n - h - m))))
      (seq 0 (S (n - h))))
    (seq 0 (S n)).

(** [2^e], for an exponent of either sign. *)
Definition pow2 (e : Z) : R := powerRZ 2 e.

(** The real number a binary64 datum stands for (0 for the infinities and
    NaN, which [finite] rules out). *)
Definition SF2R (x : spec_float) : R :=
  match x with
  | S754_finite s m e =>
      ((if s then -1 else 1) * IZR (Zpos m) * pow2 e)%R
  | _ => 0%R
  end.

(** The real number a float stands for. *)
Definition real_value (x : float) : R := SF2R (Prim2SF x).

(** A float that is neither an infinity nor NaN. *)
Definition finite (x : float) : bool :=
  match Prim2SF x with
  | S754_zero _ | S754_finite _ _ _ => true
  | _ => false
  end.

(** A positive normal binary64 number of value [v] whose exponent is
    within [B]. *)
Definition normal (B : Z) (x : spec_float) (v : R) : Prop :=
  exists m e,
    x = S754_finite false m e /\ Zpos (digits2_pos m) = 53
    /\ - B <= e <= B /\ v = (IZR (Zpos m) * pow2 e)%R.

(** Zero, or a positive normal number. *)
Definition repr (B : Z) (x : spec_float) (v : R) : Prop :=
  (x = S754_zero false /\ v = 0%R) \/ normal B x v.

Definition is_commit (e : ComplianceEvent) : bool :=
  String.eqb (event_type e) "commit".

Definition is_pull_request (e : ComplianceEvent) : bool :=
  String.eqb (event_type e) "pull_request".

Definition commit_recommendations : list string :=
  ["Improve commit message quality and follow conventional commit format";
   "Consider breaking down large commits into smaller, focused changes"].

Definition pull_request_recommendations : list string :=
  ["Ensure all pull requests have detailed descriptions";
   "Implement mandatory code reviews for all pull requests"].

Definition good_compliance_recommendation : string :=
  "Overall compliance is good. Continue current practices.".

(** The value at the end of a path of keys. *)
Fixpoint lookup_path (x : json) (path : list string) : result json :=
  match path with
  | [] => Ok x
  | k :: rest => v <- getitem x k ;; lookup_path v rest
  end.

(** A record misses a field: on the way, a dict lacks its key. *)
Definition missing (x : json) (path : list string) : Prop :=
  exists k, lookup_path x path = Raise (KeyError k).

(** The fields the collectors subscript. *)
Definition commit_required_fields : list (list string) :=
  [["commit"; "committer"; "date"]; ["commit"; "author"; "name"]; ["sha"];
   ["commit"; "message"]].

Definition pr_required_fields : list (list string) :=
  [["created_at"]; ["user"; "login"]; ["number"]; ["title"]; ["state"]].

(** The first of the fields, in the order the source evaluates them, that
    cannot be read from a record, with the exception reading it raises. *)
Definition first_failing (fields : list (list string)) (r : json)
  (path : list string) (e : exn) : Prop :=
  exists earlier later,
    fields = earlier ++ path :: later
    /\ Forall (fun p => is_ok (lookup_path r p) = true) earlier
    /\ lookup_path r path = Raise e.

(** A computation that does not raise a [RequestException]: it returns, or
    raises one of Python's own exceptions. *)
Definition no_request_exception {A} (m : result A) : Prop :=
  m <> Raise RequestException.

Module Trend.

Definition date_ltb (a b : date) : bool :=
  (year a <? year b)
  || (year a =? year b)
     && ((month a <? month b) || (month a =? month b) && (day a <? day b)).

(** [sum(scores) / len(scores)] *)
Definition average (scores : list float) : float :=
  (sum_floats scores / float_of_nat (List.length scores))%float.

Definition earliest (first : date * list float)
  (others : list (date * list float)) : date * list float :=
  fold_left (fun m d => if date_ltb (fst d) (fst m) then d else m)
    others first.

Definition most_recent (first : date * list float)
  (others : list (date * list float)) : date * list float :=
  fold_left (fun m d => if date_ltb (fst m) (fst d) then d else m)
    others first.

(** The label as the specification words it: "improving" when at least two
    distinct days have parseable events and the average of the most recent
    day exceeds the average of the earliest day, "stable" otherwise. *)
Definition spec_trend_label (L : Lib) (self : Engine) : string :=
  match daily_scores L self with
  | [] => "stable"
  | first :: others =>
      if (1 <? List.length (first :: others))%nat
         && (average (snd (earliest first others))
             <? average (snd (most_recent first others)))%float
      then "improving" else "stable"
  end.

(** The label the engine reports. *)
Definition code_trend_label (L : Lib) (self : Engine) : string :=
  trend_label (daily_averages L self).

(** The events of the commits of [Example.world], as collected: the provider
    lists the newest commit first. *)
Definition feat_event : ComplianceEvent :=
  {| timestamp := JStr "2024-01-02T10:00:00Z";
     event_type := "commit";
     repository := Example.repo;
     user := JStr "bob";
     details := [("sha", JStr "b2");
                 ("message", JStr "feat: add widget support for dashboard");
                 ("files_changed", JInt 3); ("additions", JInt 6);
                 ("deletions", JInt 0)];
     compliance_score := 1%float |}.

Definition improving_engine : Engine :=
  set_events Example.engine [feat_event; Example.fix_event].

(** The same two commits made in the other order: the careless one last. *)
Definition careful_first : list json :=
  [Example.commit_record "c3" "fix" "2024-01-02T09:30:00Z" "ann" 25;
   Example.commit_record "b2" "feat: add widget support for dashboard"
     "2024-01-01T10:00:00Z" "bob" 3].

Definition declining_engine : Engine :=
  set_events Example.engine
    match monitor_commits (Example.world_of careful_first) Example.lib
            Example.engine Example.repo 30 0 with
    | Ok evs => evs
    | Raise _ => []
    end.

End Trend.

(** A record the file-operation collector keeps: its type is one of the
    three it lists. *)
Definition is_file_operation (record : json) : bool :=
  match getitem record "type" with
  | Ok ty => existsb (eq_str ty) file_operation_types
  | Raise _ => false
  end.

(** The event types the collectors write. *)
Definition event_types : list string :=
  ["commit"; "pull_request"; "file_pushevent"; "file_createevent";
   "file_deleteevent"; "branch_status"; "tag_status"].

(** Every value a score can take. *)
Definition score_table : list float :=
  [1; 0.9; 0.8; 0.70000000000000007; 0.7; 0.60000000000000009; 0.6;
   0.49999999999999994; 0.39999999999999991; 0.29999999999999993]%float.

(** The body of a repository under an organization, when its request
    succeeds. *)
Definition fetched_repository (w : World) (self : Engine)
  (organization name : string) : list json :=
  match fetch w self (base_url ++ "/repos/" ++ organization ++ "/" ++ name)
          [] with
  | Ok r => [r]
  | Raise _ => []
  end.

Module Outage.

(** No network: every request raises a connection error. *)
Definition offline : World :=
  mkWorld (fun _ _ _ => ConnectionError) (fun _ => "2024-01-03T08:00:00")
    (fun _ _ => "2023-12-04T08:00:00") (fun _ => true).

(** A provider that answers 404 to every request. *)
Definition not_found : World :=
  mkWorld (fun _ _ _ => Response 404 (JDict [("message", JStr "Not Found")]))
    (fun _ => "2024-01-03T08:00:00") (fun _ _ => "2023-12-04T08:00:00")
    (fun _ => true).

(** The engine [main] builds: no token, one repository, no organization. *)
Definition main_engine : Engine := __init__ "" ["krivisio"] (Some "").

End Outage.

(** The three tallies [_generate_summary] builds in its loop. *)
Definition summary_tallies (self : Engine)
  : result (list (json * Z) * list (json * Z) * list (json * Z)) :=
  fold_left count_event (events self) (Ok ([], [], [])).

(** The entries [_generate_summary] keeps as top contributors. *)
Definition top_contributors (events_by_user : list (json * Z))
  : list (json * Z) :=
  firstn 10 (sorted_by_count_desc events_by_user).

(** The sum of the counts of a tally. *)
Definition total (d : list (json * Z)) : Z :=
  fold_right (fun kv acc => snd kv + acc) 0 d.

(** No two keys of a tally are equal for Python. *)
Definition distinct_keys (d : list (json * Z)) : Prop :=
  ForallOrdPairs (fun a b => key_eqb (fst b) (fst a) = false) d.

(** Every key of an event that goes into a dict can be hashed. *)
Definition hashable_keys (e : ComplianceEvent) : bool :=
  hashable (repository e) && hashable (user e).

(** The timestamp of an event gives a day. *)
Definition parseable (L : Lib) (e : ComplianceEvent) : bool :=
  match event_date L e with Some _ => true | None => false end.

(** The event falls on day [d]. *)
Definition on_day (L : Lib) (d : date) (e : ComplianceEvent) : bool :=
  match event_date L e with Some d' => date_eqb d' d | None => false end.

(** One step of the loop of [_analyze_compliance_trends]. *)
Definition add_event (L : Lib) (daily : list (date * list float))
  (e : ComplianceEvent) : list (date * list float) :=
  match event_date L e with
  | Some d => append_score d (compliance_score e) daily
  | None => daily
  end.

(** What the loop of [_analyze_compliance_trends] maintains, [seen] being the
    events gone through: one bucket per day met, holding the scores of the
    events of that day in their order. *)
Definition grouped_by_day (L : Lib) (seen : list ComplianceEvent)
  (daily : list (date * list float)) : Prop :=
  NoDup (map fst daily)
  /\ Forall (fun b => snd b = map compliance_score
                               (filter (on_day L (fst b)) seen)
                      /\ snd b <> []) daily
  /\ (forall e d, In e seen -> event_date L e = Some d ->
        In d (map fst daily)).

(** A date of the calendar's range, as every [datetime.date] is. *)
Definition valid_date (d : date) : bool :=
  (1 <=? year d) && (year d <=? 9999) && (1 <=? month d) && (month d <=? 12)
  && (1 <=? day d) && (day d <=? 31).

(** Each day is later than the one before. *)
Fixpoint increasing (days : list date) : bool :=
  match days with
  | a :: (b :: _) as rest => Trend.date_ltb a b && increasing rest
  | _ => true
  end.

(** [v[k]] on a value of a report. *)
Definition vgetitem (v : value) (k : string) : result value :=
  match v with
  | VDict items =>
      match find (fun kv => key_eqb (JStr k) (fst kv)) items with
      | Some kv => Ok (snd kv)
      | None => Raise (KeyError k)
      end
  | VJson j => x <- getitem j k ;; Ok (VJson x)
  | VFloat _ | VList _ => Raise TypeError
  end.

(** How [main] ends: it returns, leaving the files on disk, or raises.  A
    string under a fixed-point format raises a ValueError, which is none of
    the exceptions of the engine. *)
Inductive main_outcome : Type :=
| Completes (files : disk)
| Fails (e : exn)
| FailsValueError.

(** [f"{v:.2f}"] and [f"{v:.1f}"]: a number has the format, a string has
    not (ValueError), nor has anything else (TypeError). *)
Definition format_fixed (v : value) (k : main_outcome) : main_outcome :=
  match v with
  | VFloat _ | VJson (JInt _) | VJson (JBool _) => k
  | VJson (JStr _) => FailsValueError
  | _ => Fails TypeError
  end.

(** [for rec in v]: what can be iterated. *)
Definition viterable (v : value) : result unit :=
  match v with
  | VList _ | VDict _ => Ok tt
  | VJson j => _ <- iter j ;; Ok tt
  | VFloat _ => Raise TypeError
  end.

Definition and_then {A} (m : result A) (k : A -> main_outcome)
  : main_outcome :=
  match m with
  | Ok a => k a
  | Raise e => Fails e
  end.

(** One line of the risk distribution: the count, then the percentage with
    one decimal. *)
Definition print_risk (metrics : value) (tier : string) (k : main_outcome)
  : main_outcome :=
  and_then (vgetitem metrics "risk_distribution") (fun distribution =>
  and_then (vgetitem distribution tier) (fun _ =>
  and_then (vgetitem metrics "risk_percentages") (fun percentages =>
  and_then (vgetitem percentages tier) (fun p =>
  format_fixed p k)))).

(** [main], without what it prints; [tick] and [report_tick] are the numbers
    of clock readings before the scan and before the report. *)
Definition main (w : World) (L : Lib) (tick report_tick : nat)
  (files : disk) : main_outcome :=
  let engine := __init__ "" ["krivisio"] (Some "") in
  and_then (run_comprehensive_scan w L engine 30 tick) (fun '(_, engine) =>
  and_then (generate_progress_report w L engine "compliance_report.json"
              report_tick files) (fun '(report, files) =>
  and_then (vgetitem report "total_events") (fun _ =>
  and_then (vgetitem report "repositories_scanned") (fun _ =>
  and_then (vgetitem report "summary") (fun summary =>
  and_then (vgetitem summary "average_compliance_score") (fun average =>
  format_fixed average (
  and_then (vgetitem report "compliance_metrics") (fun metrics =>
  print_risk metrics "high_risk" (
  print_risk metrics "medium_risk" (
  print_risk metrics "low_risk" (
  and_then (vgetitem metrics "recommendations") (fun recommendations =>
  and_then (viterable recommendations) (fun _ =>
  Completes files))))))))))))).

(** The provider of the examples, which also answers the request for the
    authenticated user. *)
Definition main_world : World :=
  mkWorld
    (fun url headers params =>
       if String.eqb url "https://api.github.com/user"
       then Response 200 (JDict [("login", JStr "acme")])
       else Example.provider_of [Example.commit_feat_3; Example.commit_fix_25]
              url headers params)
    (fun _ => "2024-01-03T08:00:00.000000")
    (fun _ _ => "2023-12-04T08:00:00.000000") (fun _ => true).

(** The integer a file record holds under [field], 0 when it has none. *)
Definition field_or_zero (field : string) (file : json) : Z :=
  match get file field (JInt 0) with
  | Ok v => match as_int v with Some n => n | None => 0 end
  | Raise _ => 0
  end.

(** A file record whose [field] is absent or an integer. *)
Definition countable (field : string) (file : json) : bool :=
  match get file field (JInt 0) with
  | Ok v => match as_int v with Some _ => true | None => false end
  | Raise _ => false
  end.

(* ===================================================================== *)
(** ** Facts on binary64 comparisons *)
(* ===================================================================== *)

Lemma SFcompare_antisym (x y : SpecFloat.spec_float) :
  SpecFloat.SFcompare y x = option_map CompOpp (SpecFloat.SFcompare x y).
Proof.
  destruct x as [sx|sx| |sx mx ex], y as [sy|sy| |sy my ey]; simpl;
    try reflexivity;
    try (destruct sx; reflexivity); try (destruct sy; reflexivity);
    try (destruct sx, sy; reflexivity).
  destruct sx, sy; simpl; try reflexivity;
    rewrite (Z.compare_antisym ex ey);
    destruct (ex ?= ey) eqn:E; simpl; try reflexivity;
    change (Pos.compare_cont Eq my mx) with (Pos.compare my mx);
    change (Pos.compare_cont Eq mx my) with (Pos.compare mx my);
    rewrite (Pos.compare_antisym mx my);
    destruct (mx ?= my)%positive; reflexivity.
Qed.

Lemma SFcompare_number (x y : float) :
  is_number x -> is_number y ->
  exists c, SpecFloat.SFcompare (Prim2SF x) (Prim2SF y) = Some c.
Proof.
  unfold is_number. rewrite !FloatAxioms.eqb_spec. unfold SpecFloat.SFeqb.
  intros Hx Hy.
  destruct (Prim2SF x) as [sx|sx| |sx mx ex], (Prim2SF y) as [sy|sy| |sy my ey];
    simpl in *; try discriminate; eauto.
Qed.

Lemma ltb_negb_leb (x y : float) :
  is_number x -> is_number y -> (x <? y)%float = negb (y <=? x)%float.
Proof.
  intros Hx Hy. rewrite FloatAxioms.ltb_spec, FloatAxioms.leb_spec.
  unfold SpecFloat.SFltb, SpecFloat.SFleb.
  rewrite (SFcompare_antisym (Prim2SF x) (Prim2SF y)).
  destruct (SFcompare_number x y Hx Hy) as [c ->].
  destruct c; reflexivity.
Qed.

Lemma leb_number (x y : float) :
  (x <=? y)%float = true -> is_number x /\ is_number y.
Proof.
  unfold is_number. rewrite FloatAxioms.leb_spec, !FloatAxioms.eqb_spec.
  unfold SpecFloat.SFleb, SpecFloat.SFeqb.
  destruct (Prim2SF x) as [sx|sx| |sx mx ex], (Prim2SF y) as [sy|sy| |sy my ey];
    simpl; try discriminate; intros _; split;
    try reflexivity; try (destruct sx; reflexivity);
    try (destruct sy; reflexivity);
    rewrite ?Z.compare_refl, ?Pos.compare_cont_refl;
    try (destruct sx; reflexivity); try (destruct sy; reflexivity).
Qed.

Lemma in_unit_interval_number (s : float) : in_unit_interval s -> is_number s.
Proof. intros [H _]. exact (proj2 (leb_number _ _ H)). Qed.

(** A score of the low tier is above the threshold of the medium tier. *)
Lemma leb_0_8_leb_0_5 (s : float) :
  (0.8 <=? s)%float = true -> (0.5 <=? s)%float = true.
Proof.
  rewrite !FloatAxioms.leb_spec. unfold SpecFloat.SFleb.
  let c := eval vm_compute in (Prim2SF 0.8) in change (Prim2SF 0.8) with c.
  let c := eval vm_compute in (Prim2SF 0.5) in change (Prim2SF 0.5) with c.
  destruct (Prim2SF s) as [sg|sg| |sg m e]; cbn [SpecFloat.SFcompare];
    try (intros; assumption).
  destruct sg; [intros; assumption|].
  destruct (Z.compare_spec (-53) e); try (intros; assumption).
  change (Pos.compare_cont Eq 7205759403792794 m)
    with (Pos.compare 7205759403792794 m).
  change (Pos.compare_cont Eq 4503599627370496 m)
    with (Pos.compare 4503599627370496 m).
  destruct (Pos.compare_spec 7205759403792794 m) as [H0|H0|H0];
    destruct (Pos.compare_spec 4503599627370496 m) as [H1|H1|H1];
    try reflexivity; try discriminate; intros _; exfalso.
  - rewrite <- H0 in H1. vm_compute in H1. discriminate.
  - pose proof (Pos.lt_trans _ _ _ H0 H1) as H2.
    vm_compute in H2. discriminate.
Qed.

(* ===================================================================== *)
(** ** The scoring rules *)
(* ===================================================================== *)

(** Peel the first [bind] of a computation that returned. *)
Ltac inv_bind H :=
  match type of H with
  | bind ?m _ = Ok _ =>
      let E := fresh "E" in
      destruct m eqn:E; cbn [bind] in H; [|discriminate H]
  end.

Ltac inv_binds H := repeat inv_bind H.

(** The commit rule on a record with a message and a list of files. *)
Lemma commit_score_formula (commit c : json) (m : string) (fs : list json) :
  getitem commit "commit" = Ok c ->
  getitem c "message" = Ok (JStr m) ->
  get commit "files" (JList []) = Ok (JList fs) ->
  _calculate_commit_compliance_score commit =
    Ok (Py.max 0
          (penalize (Z.of_nat (List.length fs) >? 20) 0.2
             (penalize (negb (has_conventional_prefix m)) 0.2
                (penalize (Z.of_nat (String.length m) <? 10) 0.3 1)))).
Proof.
  intros Hc Hm Hf. unfold _calculate_commit_compliance_score.
  rewrite Hc; cbn [bind]. rewrite Hm; cbn [bind lower len].
  rewrite Hf; cbn [bind len]. reflexivity.
Qed.

(** The scores the commit rule can return. *)
Lemma commit_score_shape (commit : json) (s : float) :
  _calculate_commit_compliance_score commit = Ok s ->
  exists short unconventional large : bool,
    s = Py.max 0 (penalize large 0.2
                    (penalize unconventional 0.2 (penalize short 0.3 1))).
Proof.
  unfold _calculate_commit_compliance_score. intros H. inv_binds H.
  injection H as <-. do 3 eexists. reflexivity.
Qed.

Lemma pr_score_shape (pr : json) (s : float) :
  _calculate_pr_compliance_score pr = Ok s ->
  exists short unreviewed large : bool,
    s = Py.max 0 (penalize large 0.1
                    (penalize unreviewed 0.2 (penalize short 0.3 1))).
Proof.
  unfold _calculate_pr_compliance_score. intros H. inv_binds H.
  injection H as <-. do 3 eexists. reflexivity.
Qed.

Lemma file_operation_score_shape (event : json) (s : float) :
  _calculate_file_operation_compliance_score event = Ok s ->
  s = 1%float \/ s = (1 - 0.2)%float \/ s = 0.8%float.
Proof.
  unfold _calculate_file_operation_compliance_score. intros H.
  inv_bind H. inv_bind H. injection H as <-.
  destruct (eq_str a "PushEvent").
  - inv_binds E0. injection E0 as <-.
    match goal with
    | |- context [if ?c then _ else _] => destruct c
    end; [right; left|left]; reflexivity.
  - destruct (eq_str a "DeleteEvent"); injection E0 as <-;
      [right; right|left]; reflexivity.
Qed.

(** Rounding decides a tier: a short, unconventional commit loses 0.3 and
    0.2 and is left with 0.49999999999999994, below the threshold 0.5 of
    the high-risk tier. *)
Lemma short_unconventional_commit_below_half :
  Py.max 0 (penalize false 0.2 (penalize true 0.2 (penalize true 0.3 1)))
  = 0.49999999999999994%float
  /\ (0.49999999999999994 <? 0.5)%float = true.
Proof. split; reflexivity. Qed.

(* ===================================================================== *)
(** ** What the collectors emit *)
(* ===================================================================== *)

Lemma mapM_Forall2 {A B} (f : A -> result B) (l : list A) (ys : list B) :
  mapM f l = Ok ys -> Forall2 (fun x y => f x = Ok y) l ys.
Proof.
  revert ys. induction l as [|x xs IH]; intros ys H; cbn [mapM] in H.
  - injection H as <-. constructor.
  - inv_binds H. injection H as <-. constructor; auto.
Qed.

Lemma mapM_from_Forall2 {A B} (f : nat -> A -> result B) (l : list A) :
  forall i ys, mapM_from f i l = Ok ys ->
    Forall2 (fun x y => exists j, f j x = Ok y) l ys.
Proof.
  induction l as [|x xs IH]; intros i ys H; cbn [mapM_from] in H.
  - injection H as <-. constructor.
  - inv_binds H. injection H as <-. constructor; eauto.
Qed.

Lemma mapM_raises {A B} (f : A -> result B) (l : list A) (x : A) :
  In x l -> is_ok (f x) = false -> is_ok (mapM f l) = false.
Proof.
  induction l as [|y ys IH]; intros Hin Hx; [destruct Hin|].
  cbn [mapM]. destruct (f y) eqn:Ey; cbn [bind]; [|reflexivity].
  destruct Hin as [->|Hin].
  - rewrite Ey in Hx. discriminate.
  - specialize (IH Hin Hx). destruct (mapM f ys); [discriminate|reflexivity].
Qed.

Lemma Forall2_Forall_r {A B} (R : A -> B -> Prop) (P : B -> Prop)
  (l : list A) (ys : list B) :
  Forall2 R l ys -> (forall x y, R x y -> P y) -> Forall P ys.
Proof. induction 1; intros HP; constructor; eauto. Qed.

Lemma except_request_ok {A} (body : result (list A)) (evs : list A) :
  except_request body = Ok evs -> body = Ok evs \/ evs = [].
Proof.
  destruct body as [l|e]; cbn.
  - intros H; left; exact H.
  - destruct e; intros H; try discriminate. injection H as <-. now right.
Qed.

Lemma somes_In {A} (l : list (option A)) (x : A) :
  In x (somes l) -> In (Some x) l.
Proof.
  induction l as [|[y|] l IH]; cbn; intros H; auto.
  destruct H as [->|H]; auto.
Qed.

Lemma monitor_commits_produced w L self repo days tick evs :
  monitor_commits w L self repo days tick = Ok evs -> Forall produced evs.
Proof.
  unfold monitor_commits. intros H.
  apply except_request_ok in H as [H| ->]; [|constructor].
  inv_binds H.
  apply mapM_Forall2 in H.
  eapply Forall2_Forall_r; [exact H|].
  intros x y Hxy. cbv beta in Hxy. eapply produced_commit; eassumption.
Qed.

Lemma monitor_pull_requests_produced w L self repo state evs :
  monitor_pull_requests w L self repo state = Ok evs -> Forall produced evs.
Proof.
  unfold monitor_pull_requests. intros H.
  apply except_request_ok in H as [H| ->]; [|constructor].
  inv_binds H.
  apply mapM_Forall2 in H.
  eapply Forall2_Forall_r; [exact H|].
  intros x y Hxy. cbv beta in Hxy.
  eapply produced_pull_request; eassumption.
Qed.

Lemma monitor_file_operations_produced w L self repo evs :
  monitor_file_operations w L self repo = Ok evs -> Forall produced evs.
Proof.
  unfold monitor_file_operations. intros H.
  apply except_request_ok in H as [H| ->]; [|constructor].
  inv_binds H. injection H as <-.
  apply Forall_forall. intros e He. apply somes_In in He.
  match goal with
  | E : mapM _ _ = Ok _ |- _ => apply mapM_Forall2 in E; rename E into F
  end.
  clear - F He. induction F as [|x y l l' Hxy F IH]; [destruct He|].
  destruct He as [->|He]; [eapply produced_file_operation; eassumption|auto].
Qed.

Lemma monitor_branches_and_tags_produced w L self repo tick evs :
  monitor_branches_and_tags w L self repo tick = Ok evs -> Forall produced evs.
Proof.
  unfold monitor_branches_and_tags. intros H. inv_binds H.
  injection H as <-. apply Forall_app. split.
  - match goal with
    | E : except_request _ = Ok a |- _ =>
        apply except_request_ok in E as [E| ->]; [|constructor];
        inv_binds E; apply mapM_from_Forall2 in E
    end.
    eapply Forall2_Forall_r; [eassumption|].
    intros x y [j Hj]. eapply produced_branch; eassumption.
  - match goal with
    | E : except_request _ = Ok a0 |- _ =>
        apply except_request_ok in E as [E| ->]; [|constructor];
        inv_binds E; apply mapM_from_Forall2 in E
    end.
    eapply Forall2_Forall_r; [eassumption|].
    intros x y [j Hj]. eapply produced_tag; eassumption.
Qed.

Lemma scan_repositories_produced w L self days repos :
  forall tick evs,
    scan_repositories w L self days repos tick = Ok evs -> Forall produced evs.
Proof.
  induction repos as [|repo rest IH]; intros tick evs H;
    cbn [scan_repositories] in H.
  - injection H as <-. constructor.
  - inv_binds H. injection H as <-.
    repeat (apply Forall_app; split);
      eauto using monitor_commits_produced, monitor_pull_requests_produced,
        monitor_file_operations_produced, monitor_branches_and_tags_produced.
Qed.

(** Every event of a scan comes out of one of the loop bodies, and the
    engine holds exactly the events the scan returned. *)
Lemma run_comprehensive_scan_produced w L self days tick evs self' :
  run_comprehensive_scan w L self days tick = Ok (evs, self') ->
  events self' = evs /\ Forall produced evs.
Proof.
  unfold run_comprehensive_scan. intros H. inv_binds H.
  injection H as <- <-. split; [reflexivity|].
  eapply scan_repositories_produced; eassumption.
Qed.

Lemma commit_event_fields repo commit e :
  commit_event repo commit = Ok e ->
  event_type e = "commit" /\
  _calculate_commit_compliance_score commit = Ok (compliance_score e).
Proof.
  unfold commit_event. intros H. inv_binds H. injection H as <-.
  split; [reflexivity|cbn [compliance_score]; first [assumption|reflexivity]].
Qed.

Lemma pr_event_fields repo pr e :
  pr_event repo pr = Ok e ->
  event_type e = "pull_request" /\
  _calculate_pr_compliance_score pr = Ok (compliance_score e).
Proof.
  unfold pr_event. intros H. inv_binds H. injection H as <-.
  split; [reflexivity|cbn [compliance_score]; first [assumption|reflexivity]].
Qed.

Lemma eq_str_true (x : json) (s : string) : eq_str x s = true -> x = JStr s.
Proof.
  destruct x; cbn; try discriminate. intros H.
  apply String.eqb_eq in H. now subst.
Qed.

Lemma file_operation_event_fields repo event e :
  file_operation_event repo event = Ok (Some e) ->
  In (event_type e) ["file_pushevent"; "file_createevent"; "file_deleteevent"]
  /\ _calculate_file_operation_compliance_score event
     = Ok (compliance_score e).
Proof.
  unfold file_operation_event. intros H. inv_bind H.
  destruct (existsb (eq_str a) file_operation_types) eqn:Hty;
    [|discriminate H].
  inv_binds H. injection H as <-.
  split; [|cbn [compliance_score]; first [assumption|reflexivity]].
  cbn [event_type]. cbn [existsb file_operation_types] in Hty.
  repeat match goal with
  | E1 : getitem event "type" = Ok ?x, E2 : getitem event "type" = Ok ?y |- _ =>
      rewrite E1 in E2; injection E2 as <-
  end.
  destruct (eq_str a "PushEvent") eqn:T1;
    [apply eq_str_true in T1; subst a|];
    [|destruct (eq_str a "CreateEvent") eqn:T2;
      [apply eq_str_true in T2; subst a|];
      [|destruct (eq_str a "DeleteEvent") eqn:T3;
        [apply eq_str_true in T3; subst a|discriminate Hty]]];
    match goal with
    | E : lower (JStr _) = Ok ?l |- _ => cbn in E; injection E as <-
    end; cbn; auto.
Qed.

Lemma branch_event_fields w repo tick branch e :
  branch_event w repo tick branch = Ok e ->
  event_type e = "branch_status" /\
  (compliance_score e = 1%float \/ compliance_score e = 0.7%float).
Proof.
  unfold branch_event. intros H. inv_binds H. injection H as <-.
  split; [reflexivity|]. cbn [compliance_score].
  match goal with |- context [if ?c then _ else _] => destruct c end; auto.
Qed.

Lemma tag_event_fields w repo tick tag e :
  tag_event w repo tick tag = Ok e ->
  event_type e = "tag_status" /\ compliance_score e = 0.9%float.
Proof.
  unfold tag_event. intros H. inv_binds H. injection H as <-.
  split; reflexivity.
Qed.

(** The score of an event that is neither a commit nor a pull request is
    one of four constants. *)
Lemma produced_other_score (e : ComplianceEvent) :
  produced e ->
  event_type e <> "commit" -> event_type e <> "pull_request" ->
  In (compliance_score e) [1; 1 - 0.2; 0.8; 0.7; 0.9]%float.
Proof.
  intros [repo c e' H|repo pr e' H|repo ev e' H|w repo t b e' H|w repo t g e' H]
    Hc Hp.
  - apply commit_event_fields in H as [Ht _]. contradiction.
  - apply pr_event_fields in H as [Ht _]. contradiction.
  - apply file_operation_event_fields in H as [_ Hs].
    apply file_operation_score_shape in Hs as [->|[->| ->]]; cbn; auto.
  - apply branch_event_fields in H as [_ [->| ->]]; cbn; auto.
  - apply tag_event_fields in H as [_ ->]; cbn; auto 6.
Qed.

(** The score of any event: penalties taken off 1.0 for a commit or a pull
    request, a constant otherwise. *)
Lemma produced_score_cases (e : ComplianceEvent) :
  produced e ->
  (exists short unconventional large : bool,
     compliance_score e
     = Py.max 0 (penalize large 0.2
                   (penalize unconventional 0.2 (penalize short 0.3 1))))
  \/ (exists short unreviewed large : bool,
        compliance_score e
        = Py.max 0 (penalize large 0.1
                      (penalize unreviewed 0.2 (penalize short 0.3 1))))
  \/ In (compliance_score e) [1; 1 - 0.2; 0.8; 0.7; 0.9]%float.
Proof.
  intros H.
  destruct (String.eqb_spec (event_type e) "commit") as [Hc|Hc];
    [|destruct (String.eqb_spec (event_type e) "pull_request") as [Hp|Hp]].
  - left. destruct H as [r c e H|r p e H|r v e H|w r t b e H|w r t g e H].
    + apply commit_event_fields in H as [_ Hs].
      exact (commit_score_shape _ _ Hs).
    + apply pr_event_fields in H as [Ht _]. congruence.
    + apply file_operation_event_fields in H as [Ht _]. rewrite Hc in Ht.
      cbn in Ht. intuition discriminate.
    + apply branch_event_fields in H as [Ht _]. congruence.
    + apply tag_event_fields in H as [Ht _]. congruence.
  - right; left.
    destruct H as [r c e H|r p e H|r v e H|w r t b e H|w r t g e H].
    + apply commit_event_fields in H as [Ht _]. congruence.
    + apply pr_event_fields in H as [_ Hs]. exact (pr_score_shape _ _ Hs).
    + apply file_operation_event_fields in H as [Ht _]. rewrite Hp in Ht.
      cbn in Ht. intuition discriminate.
    + apply branch_event_fields in H as [Ht _]. congruence.
    + apply tag_event_fields in H as [Ht _]. congruence.
  - right; right. exact (produced_other_score e H Hc Hp).
Qed.

Lemma produced_number (e : ComplianceEvent) :
  produced e -> is_number (compliance_score e).
Proof.
  intros H. unfold is_number.
  destruct (produced_score_cases e H)
    as [(b1 & b2 & b3 & ->)|[(b1 & b2 & b3 & ->)|Hs]].
  - destruct b1, b2, b3; reflexivity.
  - destruct b1, b2, b3; reflexivity.
  - cbn [In] in Hs. destruct Hs as [<-|[<-|[<-|[<-|[<-|[]]]]]]; reflexivity.
Qed.

(** C1.  Every event produced by a scoring rule (commit, pull request, file
    operation, branch, tag) has a compliance score between 0.0 and 1.0. *)
Theorem compliance_score_in_unit_interval (e : ComplianceEvent) :
  produced e -> in_unit_interval (compliance_score e).
Proof.
  intros H. unfold in_unit_interval.
  destruct (produced_score_cases e H)
    as [(short & unconventional & large & ->)
       |[(short & unreviewed & large & ->)|Hs]].
  - destruct short, unconventional, large; split; reflexivity.
  - destruct short, unreviewed, large; split; reflexivity.
  - cbn [In] in Hs.
    destruct Hs as [<-|[<-|[<-|[<-|[<-|[]]]]]]; split; reflexivity.
Qed.

(** An event the commit collector produces, and its score in the unit
    interval. *)
Lemma compliance_score_in_unit_interval_witness :
  produced Example.fix_event /\
  in_unit_interval (compliance_score Example.fix_event).
Proof.
  refine (let H := produced_commit Example.repo Example.commit_fix_25
                     Example.fix_event eq_refl in
          conj H (compliance_score_in_unit_interval _ H)).
Defined.

(** C3 (as the code has it).  The commit rule starts at 1.0, subtracts 0.3
    for a message shorter than 10 characters, 0.2 when the lower-cased
    message contains no conventional-commit prefix and 0.2 for more than 20
    changed files, each subtraction rounded in binary64, and floors the
    result at 0.0.  A commit with message "fix" and 25 changed files scores
    0.29999999999999993, the float just below 0.3; a commit with message
    "feat: add widget support for dashboard" and 3 changed files scores
    exactly 1.0. *)
Theorem commit_rule (commit c : json) (m : string) (fs : list json) :
  getitem commit "commit" = Ok c ->
  getitem c "message" = Ok (JStr m) ->
  get commit "files" (JList []) = Ok (JList fs) ->
  _calculate_commit_compliance_score commit =
    Ok (Py.max 0
          (penalize (Z.of_nat (List.length fs) >? 20) 0.2
             (penalize (negb (has_conventional_prefix m)) 0.2
                (penalize (Z.of_nat (String.length m) <? 10) 0.3 1))))
  /\ (m = "fix" -> List.length fs = 25%nat ->
      _calculate_commit_compliance_score commit
      = Ok 0.29999999999999993%float)
  /\ (m = "feat: add widget support for dashboard" ->
      List.length fs = 3%nat ->
      _calculate_commit_compliance_score commit = Ok 1%float)
  /\ (0.29999999999999993 <? 0.3)%float = true
  /\ (0.3 - 0.29999999999999993 =? 0x1p-54)%float = true.
Proof.
  intros Hc Hm Hf.
  pose proof (commit_score_formula commit c m fs Hc Hm Hf) as H.
  split; [exact H|]. split; [|split; [|split; reflexivity]].
  - intros -> Hn. rewrite H, Hn. reflexivity.
  - intros -> Hn. rewrite H, Hn. reflexivity.
Qed.

Lemma commit_rule_witness :
  _calculate_commit_compliance_score Example.commit_fix_25
  = Ok 0.29999999999999993%float.
Proof.
  refine (proj1 (proj2
    (commit_rule Example.commit_fix_25
       (JDict [("message", JStr "fix");
               ("committer", JDict [("date", JStr "2024-01-01T09:30:00Z")]);
               ("author", JDict [("name", JStr "ann")])])
       "fix" (repeat (JDict [("additions", JInt 2)]) 25)
       eq_refl eq_refl eq_refl)) eq_refl eq_refl).
Defined.

(** The commit "fix" with 25 changed files does not score the float 0.3:
    Python's [==] tells the two apart, and so does equality. *)
Lemma commit_fix_25_score_is_not_0_3 :
  exists s : float,
    _calculate_commit_compliance_score Example.commit_fix_25 = Ok s
    /\ (s =? 0.3)%float = false
    /\ _calculate_commit_compliance_score Example.commit_fix_25
       <> Ok 0.3%float.
Proof.
  exists 0.29999999999999993%float.
  split; [reflexivity|]. split; [reflexivity|].
  intros H.
  apply (f_equal (fun r => match r with
                           | Ok s => (s =? 0.3)%float
                           | Raise _ => false
                           end)) in H.
  vm_compute in H. discriminate H.
Qed.

(** The pull-request rule on a record whose description is absent, null or
    a string and whose counts are integers. *)
Lemma pr_score_formula (pr : json) (description : option string)
  (rc a d : Z) :
  get pr "body" JNull
  = Ok (match description with Some s => JStr s | None => JNull end) ->
  get pr "review_comments" (JInt 0) = Ok (JInt rc) ->
  get pr "additions" (JInt 0) = Ok (JInt a) ->
  get pr "deletions" (JInt 0) = Ok (JInt d) ->
  _calculate_pr_compliance_score pr =
    Ok (Py.max 0
          (penalize (a + d >? 1000) 0.1
             (penalize (rc =? 0) 0.2
                (penalize
                   match description with
                   | Some s => Z.of_nat (String.length s) <? 20
                   | None => true
                   end 0.3 1)))).
Proof.
  intros Hb Hr Ha Hd. unfold _calculate_pr_compliance_score.
  rewrite Hb, Hr, Ha, Hd; cbn [bind add_gt as_int eq_zero].
  destruct description as [s|]; cbn [truthy negb]; [|reflexivity].
  destruct (String.eqb s "") eqn:Hs; cbn [negb bind].
  - apply String.eqb_eq in Hs. subst s. reflexivity.
  - assert (Hg : getitem pr "body" = Ok (JStr s)).
    { destruct pr; cbn in Hb |- *; try discriminate.
      destruct (assoc "body" fields); [|discriminate].
      injection Hb as ->. reflexivity. }
    rewrite Hg. reflexivity.
Qed.

(** C4 (as the code has it).  The pull-request rule starts at 1.0,
    subtracts 0.3 when the description is absent or shorter than 20
    characters, 0.2 when review_comments is 0 and 0.1 when additions +
    deletions exceeds 1000, each subtraction rounded in binary64, and floors
    the result at 0.0.  A pull request with no body, review_comments = 0 and
    additions + deletions = 1500 scores 0.39999999999999991, two floats
    below 0.4. *)
Theorem pr_rule (pr : json) (description : option string) (rc a d : Z) :
  get pr "body" JNull
  = Ok (match description with Some s => JStr s | None => JNull end) ->
  get pr "review_comments" (JInt 0) = Ok (JInt rc) ->
  get pr "additions" (JInt 0) = Ok (JInt a) ->
  get pr "deletions" (JInt 0) = Ok (JInt d) ->
  _calculate_pr_compliance_score pr =
    Ok (Py.max 0
          (penalize (a + d >? 1000) 0.1
             (penalize (rc =? 0) 0.2
                (penalize
                   match description with
                   | Some s => Z.of_nat (String.length s) <? 20
                   | None => true
                   end 0.3 1))))
  /\ (description = None -> rc = 0 -> a + d = 1500 ->
      _calculate_pr_compliance_score pr = Ok 0.39999999999999991%float)
  /\ (0.39999999999999991 <? 0.4)%float = true
  /\ (0.4 - 0.39999999999999991 =? 0x1p-53)%float = true.
Proof.
  intros Hb Hr Ha Hd.
  pose proof (pr_score_formula pr description rc a d Hb Hr Ha Hd) as H.
  split; [exact H|]. split; [|split; reflexivity].
  intros -> -> Hs. rewrite H, Hs. reflexivity.
Qed.

Lemma pr_rule_witness :
  _calculate_pr_compliance_score Example.pr_no_body
  = Ok 0.39999999999999991%float.
Proof.
  refine (proj1 (proj2
    (pr_rule Example.pr_no_body None 0 1000 500
       eq_refl eq_refl eq_refl eq_refl)) eq_refl eq_refl eq_refl).
Defined.

(** The pull request with no body, no review comment and 1500 changed lines
    does not score the float 0.4. *)
Lemma pr_no_body_score_is_not_0_4 :
  exists s : float,
    _calculate_pr_compliance_score Example.pr_no_body = Ok s
    /\ (s =? 0.4)%float = false
    /\ _calculate_pr_compliance_score Example.pr_no_body <> Ok 0.4%float.
Proof.
  exists 0.39999999999999991%float.
  split; [reflexivity|]. split; [reflexivity|].
  intros H.
  apply (f_equal (fun r => match r with
                           | Ok s => (s =? 0.4)%float
                           | Raise _ => false
                           end)) in H.
  vm_compute in H. discriminate H.
Qed.

(** C5.  A DeleteEvent record scores exactly 0.8, whatever else the record
    holds (its payload and batched commits included). *)
Theorem delete_event_scores_0_8 (event : json) :
  getitem event "type" = Ok (JStr "DeleteEvent") ->
  _calculate_file_operation_compliance_score event = Ok 0.8%float.
Proof.
  intros H. unfold _calculate_file_operation_compliance_score.
  rewrite H. reflexivity.
Qed.

Lemma delete_event_scores_0_8_witness :
  getitem Example.delete_event "type" = Ok (JStr "DeleteEvent")
  /\ _calculate_file_operation_compliance_score Example.delete_event
     = Ok 0.8%float.
Proof.
  refine (conj eq_refl (delete_event_scores_0_8 Example.delete_event eq_refl)).
Defined.

(* ===================================================================== *)
(** ** Risk tiers *)
(* ===================================================================== *)

Lemma one_tier (e : ComplianceEvent) :
  is_number (compliance_score e) -> tiers_of e = 1%nat.
Proof.
  intros Hs. unfold tiers_of, is_high_risk, is_medium_risk, is_low_risk.
  rewrite (ltb_negb_leb (compliance_score e) 0.5 Hs eq_refl).
  rewrite (ltb_negb_leb (compliance_score e) 0.8 Hs eq_refl).
  pose proof (leb_0_8_leb_0_5 (compliance_score e)) as H.
  destruct (0.8 <=? compliance_score e)%float;
    [rewrite (H eq_refl)|destruct (0.5 <=? compliance_score e)%float];
    reflexivity.
Qed.

Lemma tier_lengths (l : list ComplianceEvent) :
  Forall (fun e => tiers_of e = 1%nat) l ->
  (List.length (filter is_high_risk l) + List.length (filter is_medium_risk l)
   + List.length (filter is_low_risk l) = List.length l)%nat.
Proof.
  induction 1 as [|e l He _ IH]; [reflexivity|].
  cbn [filter]. unfold tiers_of in He.
  destruct (is_high_risk e), (is_medium_risk e), (is_low_risk e);
    cbn in He |- *; lia.
Qed.

Lemma exact_percentages_sum (h m l : nat) :
  (0 < h + m + l)%nat ->
  exact_percentage h (h + m + l) + exact_percentage m (h + m + l)
  + exact_percentage l (h + m + l) == 100.
Proof.
  intros Hpos. unfold exact_percentage.
  set (p := Pos.of_nat (h + m + l)).
  assert (Hp : Z.pos p = Z.of_nat h + Z.of_nat m + Z.of_nat l).
  { unfold p. rewrite <- !Nat2Z.inj_add.
    rewrite <- positive_nat_Z, Nat2Pos.id by lia. reflexivity. }
  unfold Qeq, Qplus, Qmult. cbn [Qnum Qden].
  rewrite !Pos2Z.inj_mul, Hp. ring.
Qed.

Lemma splits_close_sound (n h m l : nat) :
  splits_close n = true ->
  (0 < h + m + l <= n)%nat -> percentages_close h m l = true.
Proof.
  unfold splits_close. intros H Hn.
  rewrite forallb_forall in H.
  specialize (H h ltac:(apply in_seq; lia)).
  rewrite forallb_forall in H.
  specialize (H m ltac:(apply in_seq; lia)).
  rewrite forallb_forall in H.
  specialize (H l ltac:(apply in_seq; lia)).
  destruct (h + m + l =? 0)%nat eqn:E0; [apply Nat.eqb_eq in E0; lia|].
  exact H.
Qed.

Lemma splits_close_100 : splits_close 100 = true.
Proof. vm_compute. reflexivity. Qed.

(** The tiers of the events of a scan. *)
Lemma scan_tier_counts w L self days tick evs self' :
  run_comprehensive_scan w L self days tick = Ok (evs, self') ->
  (List.length (high_risk_events self')
   + List.length (medium_risk_events self')
   + List.length (low_risk_events self')
   = List.length (events self'))%nat.
Proof.
  intros H. apply run_comprehensive_scan_produced in H as [<- H].
  apply tier_lengths. eapply Forall_impl; [|exact H].
  intros e He. apply one_tier, produced_number, He.
Qed.

(* ===================================================================== *)
(** ** Rounding errors of the binary64 percentages *)
(* ===================================================================== *)

(** Rounding to binary64, on the integers of the mantissas. *)

Lemma digits2_pos_bounds (p : positive) :
  2 ^ (Zpos (digits2_pos p) - 1) <= Zpos p < 2 ^ Zpos (digits2_pos p).
Proof.
  induction p as [p IH|p IH|]; cbn [digits2_pos].
  - rewrite Pos2Z.inj_succ.
    replace (Z.succ (Zpos (digits2_pos p)) - 1) with (Zpos (digits2_pos p)) by lia.
    rewrite Z.pow_succ_r by lia.
    replace (Zpos (digits2_pos p)) with (Z.succ (Zpos (digits2_pos p) - 1)) at 1 by lia.
    rewrite Z.pow_succ_r by lia. lia.
  - rewrite Pos2Z.inj_succ.
    replace (Z.succ (Zpos (digits2_pos p)) - 1) with (Zpos (digits2_pos p)) by lia.
    rewrite Z.pow_succ_r by lia.
    replace (Zpos (digits2_pos p)) with (Z.succ (Zpos (digits2_pos p) - 1)) at 1 by lia.
    rewrite Z.pow_succ_r by lia. lia.
  - cbn. lia.
Qed.

Lemma digits2_pos_unique (p : positive) (k : Z) :
  2 ^ (k - 1) <= Zpos p < 2 ^ k -> Zpos (digits2_pos p) = k.
Proof.
  intros [Hlo Hhi]. pose proof (digits2_pos_bounds p) as [Hlo' Hhi'].
  assert (0 < k).
  { destruct (Z.ltb_spec 0 k); [assumption|].
    exfalso. destruct (Z.eq_dec k 0) as [->|]; [cbn in Hhi; lia|].
    rewrite Z.pow_neg_r in Hhi by lia. lia. }
  destruct (Z.lt_trichotomy (Zpos (digits2_pos p)) k) as [Hlt|[Heq|Hgt]];
    [exfalso|assumption|exfalso].
  - assert (2 ^ Zpos (digits2_pos p) <= 2 ^ (k - 1))
      by (apply Z.pow_le_mono_r; lia). lia.
  - assert (2 ^ k <= 2 ^ (Zpos (digits2_pos p) - 1))
      by (apply Z.pow_le_mono_r; lia). lia.
Qed.

Lemma shr_1_m (mrs : shr_record) :
  0 <= shr_m mrs -> shr_m (shr_1 mrs) = shr_m mrs / 2.
Proof.
  destruct mrs as [m r s]. cbn [shr_m shr_1]. intros Hm.
  destruct m as [|[p|p|]|p]; cbn [shr_m]; try reflexivity; try lia.
  - apply Z.div_unique with (r := 1); lia.
  - apply Z.div_unique with (r := 0); lia.
Qed.

Lemma iter_pos_shr_1_m (p : positive) :
  forall mrs, 0 <= shr_m mrs ->
    shr_m (SpecFloat.iter_pos shr_1 p mrs) = shr_m mrs / 2 ^ Zpos p.
Proof.
  assert (Hnn : forall m k, 0 <= m -> 0 <= k -> 0 <= m / 2 ^ k)
    by (intros; apply Z.div_pos; [assumption|apply Z.pow_pos_nonneg; lia]).
  induction p as [p IH|p IH|]; intros mrs Hm; cbn [SpecFloat.iter_pos].
  - rewrite IH, IH, shr_1_m by
      (try rewrite IH; try rewrite shr_1_m; auto;
       try apply Hnn; try apply Z.div_pos; lia).
    rewrite !Z.div_div by (try apply Z.pow_pos_nonneg; lia).
    f_equal. replace (Zpos p~1) with (1 + Zpos p + Zpos p) by lia.
    rewrite !Z.pow_add_r by lia. lia.
  - rewrite IH, IH by (try rewrite IH; auto; try apply Hnn; lia).
    rewrite !Z.div_div by (try apply Z.pow_pos_nonneg; lia).
    f_equal. replace (Zpos p~0) with (Zpos p + Zpos p) by lia.
    rewrite !Z.pow_add_r by lia. lia.
  - rewrite shr_1_m by assumption. reflexivity.
Qed.

Lemma shr_spec (m : Z) (l : location) (e n : Z) :
  0 <= m -> 0 <= n ->
  shr_m (fst (shr (shr_record_of_loc m l) e n)) = m / 2 ^ n
  /\ snd (shr (shr_record_of_loc m l) e n) = e + n.
Proof.
  intros Hm Hn.
  assert (Hrec : shr_m (shr_record_of_loc m l) = m)
    by (destruct l as [|[]]; reflexivity).
  destruct n as [|p|p]; cbn [shr fst snd]; [| |lia].
  - rewrite Hrec, Z.pow_0_r, Z.div_1_r. lia.
  - rewrite iter_pos_shr_1_m, Hrec by lia. auto.
Qed.

Lemma round_nearest_even_cases (m : Z) (l : location) :
  round_nearest_even m l = m \/ round_nearest_even m l = m + 1.
Proof.
  destruct l as [|[]]; cbn [round_nearest_even]; auto.
  destruct (Z.even m); auto.
Qed.

(** Rounding a positive mantissa of at least 53 digits, away from the
    subnormal range and from overflow: the result is a normal number, one
    of the two neighbours of the truncated mantissa. *)
Lemma binary_round_aux_normal (s : bool) (p : positive) (ex : Z)
  (lx : location) :
  let d := Zpos (digits2_pos p) in
  53 <= d -> -1074 <= ex + d - 53 -> ex + d <= 1023 ->
  exists m e,
    binary_round_aux prec emax s (Zpos p) ex lx = S754_finite s m e
    /\ Zpos (digits2_pos m) = 53
    /\ ex + d - 53 <= e <= ex + d - 52
    /\ (Zpos m * 2 ^ (e - (ex + d - 53)) = Zpos p / 2 ^ (d - 53)
        \/ Zpos m * 2 ^ (e - (ex + d - 53)) = Zpos p / 2 ^ (d - 53) + 1).
Proof.
  intros d Hd Hlo Hhi.
  pose proof (digits2_pos_bounds p) as [Hplo Hphi]. fold d in Hplo, Hphi.
  set (n := d - 53).
  set (m' := Zpos p / 2 ^ n).
  assert (Hpow : 0 < 2 ^ n) by (apply Z.pow_pos_nonneg; lia).
  assert (Hm' : 2 ^ 52 <= m' < 2 ^ 53).
  { unfold m'. split.
    - apply Z.div_le_lower_bound; [assumption|].
      rewrite <- Z.pow_add_r by lia.
      replace (n + 52) with (d - 1) by lia. assumption.
    - apply Z.div_lt_upper_bound; [assumption|].
      rewrite <- Z.pow_add_r by lia.
      replace (n + 53) with d by lia. assumption. }
  unfold binary_round_aux, shr_fexp.
  cbn [Zdigits2]. fold d.
  assert (Hf1 : fexp prec emax (d + ex) - ex = n)
    by (unfold fexp, SpecFloat.emin, prec, emax, n; lia).
  rewrite Hf1.
  destruct (shr_spec (Zpos p) lx ex n ltac:(lia) ltac:(lia)) as [Hm1 He1].
  destruct (shr (shr_record_of_loc (Zpos p) lx) ex n) as [mrs' e'].
  cbn [fst snd] in Hm1, He1. fold m' in Hm1. subst e'. rewrite Hm1.
  set (r := round_nearest_even m' (loc_of_shr_record mrs')).
  assert (Hr : r = m' \/ r = m' + 1) by apply round_nearest_even_cases.
  assert (Hrpos : exists q, r = Zpos q).
  { destruct r as [|q|q]; [lia|eauto|lia]. }
  destruct Hrpos as [q Hq].
  set (k := if Z.eq_dec r (2 ^ 53) then 1 else 0).
  assert (Hdq : Zdigits2 r = 53 + k).
  { rewrite Hq. cbn [Zdigits2]. apply digits2_pos_unique. rewrite <- Hq.
    unfold k. destruct (Z.eq_dec r (2 ^ 53)) as [->|Hne].
    - replace (53 + 1 - 1) with 53 by lia. split; [lia|].
      apply Z.pow_lt_mono_r; lia.
    - replace (53 + 0 - 1) with 52 by lia. replace (53 + 0) with 53 by lia.
      lia. }
  assert (Hk : 0 <= k <= 1) by (unfold k; destruct (Z.eq_dec r (2 ^ 53)); lia).
  assert (Hf2 : fexp prec emax (Zdigits2 r + (ex + n)) - (ex + n) = k)
    by (rewrite Hdq; unfold fexp, SpecFloat.emin, prec, emax, n; lia).
  rewrite Hf2.
  destruct (shr_spec r loc_Exact (ex + n) k ltac:(lia) ltac:(lia))
    as [Hm2 He2].
  destruct (shr (shr_record_of_loc r loc_Exact) (ex + n) k) as [mrs'' e''].
  cbn [fst snd] in Hm2, He2. subst e''. rewrite Hm2.
  assert (Hfinal : 2 ^ 52 <= r / 2 ^ k < 2 ^ 53 /\ (r / 2 ^ k) * 2 ^ k = r).
  { unfold k. destruct (Z.eq_dec r (2 ^ 53)) as [->|Hne].
    - change (2 ^ 53 / 2 ^ 1) with (2 ^ 52). split; [lia|reflexivity].
    - rewrite Z.pow_0_r, Z.div_1_r. lia. }
  destruct Hfinal as [Hrange Hexact].
  destruct (r / 2 ^ k) as [|m|m] eqn:Em; [lia| |lia].
  assert (Hle : (ex + n + k <=? emax - prec) = true)
    by (apply Z.leb_le; unfold emax, prec, n; lia).
  rewrite Hle. exists m, (ex + n + k).
  split; [reflexivity|]. split.
  - apply digits2_pos_unique. replace (53 - 1) with 52 by lia. assumption.
  - split; [unfold n; lia|].
    replace (ex + n + k - (ex + d - 53)) with k by (unfold n; lia).
    rewrite Hexact. exact Hr.
Qed.

Lemma pow2_pos e : (0 < pow2 e)%R.
Proof. apply powerRZ_lt. lra. Qed.

Lemma pow2_add a b : pow2 (a + b) = (pow2 a * pow2 b)%R.
Proof. apply powerRZ_add. lra. Qed.

Lemma pow2_IZR k : 0 <= k -> IZR (2 ^ k) = pow2 k.
Proof.
  intros Hk. unfold pow2. rewrite <- (Z2Nat.id k Hk) at 2.
  rewrite <- pow_powerRZ, pow_IZR, Z2Nat.id by assumption. reflexivity.
Qed.

Lemma pow2_0 : pow2 0 = 1%R.
Proof. reflexivity. Qed.

Lemma pow2_opp k : (pow2 (- k) * pow2 k = 1)%R.
Proof. rewrite <- pow2_add. replace (- k + k) with 0 by lia. reflexivity. Qed.

(** [value * 2^(e - e0)] read at exponent [e0]. *)
Lemma value_shift (m e e0 : Z) :
  e0 <= e -> (IZR m * pow2 e = IZR (m * 2 ^ (e - e0)) * pow2 e0)%R.
Proof.
  intros He. rewrite mult_IZR, pow2_IZR by lia.
  rewrite Rmult_assoc, <- pow2_add. f_equal. f_equal. lia.
Qed.

Lemma binary_round_aux_value (s : bool) (p : positive) (ex : Z)
  (lx : location) (v : R) :
  let d := Zpos (digits2_pos p) in
  53 <= d -> -1074 <= ex + d - 53 -> ex + d <= 1023 ->
  (IZR (Zpos p) * pow2 ex <= v <= IZR (Zpos p + 1) * pow2 ex)%R ->
  exists m e,
    binary_round_aux prec emax s (Zpos p) ex lx = S754_finite s m e
    /\ Zpos (digits2_pos m) = 53
    /\ ex + d - 53 <= e <= ex + d - 52
    /\ ((1 - pow2 (-52)) * v <= IZR (Zpos m) * pow2 e
        <= (1 + pow2 (-52)) * v)%R.
Proof.
  intros d Hd Hlo Hhi Hv.
  destruct (binary_round_aux_normal s p ex lx Hd Hlo Hhi)
    as (m & e & Hres & Hdm & He & Hr).
  fold d in He, Hr. exists m, e. repeat split; try assumption; try lia.
  all: set (n := d - 53) in *; set (e0 := ex + d - 53) in *;
    set (m' := Zpos p / 2 ^ n) in *.
  all: assert (Hpow : 0 < 2 ^ n) by (apply Z.pow_pos_nonneg; lia).
  all: assert (Hdiv : m' * 2 ^ n <= Zpos p < (m' + 1) * 2 ^ n)
        by (unfold m'; pose proof (Z.mul_div_le (Zpos p) (2 ^ n) Hpow);
            pose proof (Z.mul_succ_div_gt (Zpos p) (2 ^ n) Hpow); lia).
  all: pose proof (digits2_pos_bounds p) as [Hplo Hphi]; fold d in Hplo, Hphi.
  all: assert (Hm' : 2 ^ 52 <= m').
  1,3: (unfold m'; apply Z.div_le_lower_bound; [assumption|];
        rewrite <- Z.pow_add_r by lia;
        replace (n + 52) with (d - 1) by (unfold n; lia); assumption).
  all: rewrite (value_shift (Zpos m) e e0) by lia.
  all: assert (Hlow : (IZR m' * pow2 e0 <= v)%R)
        by (apply Rle_trans with (2 := proj1 Hv);
            rewrite (value_shift m' e0 ex) by (unfold e0; lia);
            apply Rmult_le_compat_r; [left; apply pow2_pos|];
            apply IZR_le; replace (e0 - ex) with n by (unfold e0, n; lia);
            lia).
  all: assert (Hupp : (v <= IZR (m' + 1) * pow2 e0)%R)
        by (apply Rle_trans with (1 := proj2 Hv);
            rewrite (value_shift (m' + 1) e0 ex) by (unfold e0; lia);
            apply Rmult_le_compat_r; [left; apply pow2_pos|];
            apply IZR_le; replace (e0 - ex) with n by (unfold e0, n; lia);
            lia).
  all: assert (Hu : (pow2 e0 <= pow2 (-52) * v)%R)
        by (apply Rle_trans with (pow2 (-52) * (IZR m' * pow2 e0))%R;
            [|apply Rmult_le_compat_l; [left; apply pow2_pos|assumption]];
            rewrite <- Rmult_assoc;
            rewrite <- (Rmult_1_l (pow2 e0)) at 1;
            apply Rmult_le_compat_r; [left; apply pow2_pos|];
            rewrite <- (pow2_opp 52);
            apply Rmult_le_compat_l; [left; apply pow2_pos|];
            rewrite <- pow2_IZR by lia; apply IZR_le; assumption).
  all: pose proof (pow2_pos e0) as Hu0.
  all: rewrite plus_IZR in Hupp.
  all: destruct Hr as [-> | ->]; try rewrite plus_IZR; lra.
Qed.

Lemma pos_iter_xO (m d : positive) :
  Zpos (Pos.iter xO m d) = Zpos m * 2 ^ Zpos d.
Proof.
  induction d as [|d IH] using Pos.peano_ind.
  - cbn [Pos.iter]. lia.
  - rewrite Pos.iter_succ, Pos2Z.inj_succ, Z.pow_succ_r by lia.
    change (Zpos (Pos.iter xO m d)~0) with (2 * Zpos (Pos.iter xO m d)).
    rewrite IH. lia.
Qed.

Lemma digits2_pos_gt (p : positive) (k : Z) :
  2 ^ k <= Zpos p -> k < Zpos (digits2_pos p).
Proof.
  intros H. pose proof (digits2_pos_bounds p) as [_ Hhi].
  destruct (Z.ltb_spec k (Zpos (digits2_pos p))); [assumption|].
  assert (2 ^ Zpos (digits2_pos p) <= 2 ^ k)
    by (apply Z.pow_le_mono_r; lia). lia.
Qed.

Lemma digits2_pos_le (p : positive) (k : Z) :
  0 <= k -> Zpos p < 2 ^ k -> Zpos (digits2_pos p) <= k.
Proof.
  intros Hk H. pose proof (digits2_pos_bounds p) as [Hlo _].
  destruct (Z.leb_spec (Zpos (digits2_pos p)) k); [assumption|].
  assert (2 ^ k <= 2 ^ (Zpos (digits2_pos p) - 1))
    by (apply Z.pow_le_mono_r; lia). lia.
Qed.

Lemma fexp_normal (e : Z) : -1074 <= e - 53 -> fexp prec emax e = e - 53.
Proof. unfold fexp, SpecFloat.emin, prec, emax. lia. Qed.

(** Rounding an exact positive number [p * 2^ex] of the normal range. *)
Lemma binary_round_value (s : bool) (p : positive) (ex : Z) :
  let d := Zpos (digits2_pos p) in
  -1074 <= ex + d - 53 -> ex + d <= 1023 ->
  exists m e,
    binary_round prec emax s p ex = S754_finite s m e
    /\ Zpos (digits2_pos m) = 53
    /\ ex + d - 53 <= e <= ex + d - 52
    /\ ((1 - pow2 (-52)) * (IZR (Zpos p) * pow2 ex)
        <= IZR (Zpos m) * pow2 e
        <= (1 + pow2 (-52)) * (IZR (Zpos p) * pow2 ex))%R.
Proof.
  intros d Hlo Hhi. unfold binary_round, shl_align. fold d.
  rewrite fexp_normal by lia.
  pose proof (pow2_pos ex) as Hex.
  destruct (d + ex - 53 - ex) as [|k|k] eqn:Ek.
  - apply binary_round_aux_value; fold d; try lia.
    rewrite plus_IZR. nra.
  - apply binary_round_aux_value; fold d; try lia.
    rewrite plus_IZR. nra.
  - pose proof (digits2_pos_bounds p) as [Hplo Hphi]. fold d in Hplo, Hphi.
    pose proof (pos_iter_xO p k) as Hp'.
    set (p' := Pos.iter xO p k) in *.
    assert (Hk : Zpos k = 53 - d) by (rewrite <- Pos2Z.opp_pos in Ek; lia).
    assert (Hd' : Zpos (digits2_pos p') = 53).
    { apply digits2_pos_unique. rewrite Hp'. split.
      - replace (53 - 1) with (d - 1 + Zpos k) by lia.
        rewrite Z.pow_add_r by lia.
        apply Z.mul_le_mono_nonneg_r; [apply Z.pow_nonneg; lia|assumption].
      - replace 53 with (d + Zpos k) by lia.
        rewrite Z.pow_add_r by lia.
        apply Z.mul_lt_mono_pos_r; [apply Z.pow_pos_nonneg; lia|assumption]. }
    assert (Hval : (IZR (Zpos p) * pow2 ex
                    = IZR (Zpos p') * pow2 (d + ex - 53))%R).
    { rewrite (value_shift (Zpos p) ex (d + ex - 53)) by lia.
      rewrite Hp'. replace (ex - (d + ex - 53)) with (Zpos k) by lia.
      reflexivity. }
    rewrite Hval.
    destruct (binary_round_aux_value s p' (d + ex - 53) loc_Exact
                (IZR (Zpos p') * pow2 (d + ex - 53))%R)
      as (m & e & Hres & Hdm & He & Hv); rewrite ?Hd'; try lia.
    { pose proof (pow2_pos (d + ex - 53)). rewrite plus_IZR. nra. }
    exists m, e. rewrite Hd' in He. repeat split; try assumption; try lia.
    all: apply Hv.
Qed.

Lemma normal_pos B x v : normal B x v -> (0 < v)%R.
Proof.
  intros (m & e & _ & _ & _ & ->).
  apply Rmult_lt_0_compat; [apply IZR_lt; lia|apply pow2_pos].
Qed.

Lemma normal_mantissa (m : positive) :
  Zpos (digits2_pos m) = 53 -> 2 ^ 52 <= Zpos m < 2 ^ 53.
Proof.
  intros H. pose proof (digits2_pos_bounds m) as Hb. rewrite H in Hb.
  exact Hb.
Qed.

(** Multiplication of two positive normal numbers. *)
Lemma SFmul_normal (B1 B2 : Z) (x y : spec_float) (vx vy : R) :
  normal B1 x vx -> normal B2 y vy -> B1 + B2 <= 900 ->
  exists v, normal (B1 + B2 + 54) (SFmul prec emax x y) v
            /\ ((1 - pow2 (-52)) * (vx * vy) <= v
                <= (1 + pow2 (-52)) * (vx * vy))%R.
Proof.
  intros (mx & ex & -> & Hdx & Hex & ->) (my & ey & -> & Hdy & Hey & ->) HB.
  cbn [SFmul xorb].
  pose proof (normal_mantissa mx Hdx) as Hmx.
  pose proof (normal_mantissa my Hdy) as Hmy.
  assert (Hd : 105 <= Zpos (digits2_pos (mx * my)) <= 106).
  { split.
    - assert (104 < Zpos (digits2_pos (mx * my))); [|lia].
      apply digits2_pos_gt. rewrite Pos2Z.inj_mul.
      change (2 ^ 104) with (2 ^ 52 * 2 ^ 52). nia.
    - apply digits2_pos_le; [lia|]. rewrite Pos2Z.inj_mul.
      change (2 ^ 106) with (2 ^ 53 * 2 ^ 53). nia. }
  destruct (binary_round_aux_value false (mx * my) (ex + ey) loc_Exact
              (IZR (Zpos mx) * pow2 ex * (IZR (Zpos my) * pow2 ey))%R)
    as (m & e & Hres & Hdm & He & Hv); try lia.
  { rewrite plus_IZR, Pos2Z.inj_mul, mult_IZR, pow2_add.
    pose proof (pow2_pos ex). pose proof (pow2_pos ey).
    assert (0 < pow2 ex * pow2 ey)%R by nra. nra. }
  rewrite Hres. exists (IZR (Zpos m) * pow2 e)%R. split; [|exact Hv].
  exists m, e. repeat split; try assumption; lia.
Qed.

Lemma normal_weaken B B' x v : B <= B' -> normal B x v -> normal B' x v.
Proof.
  intros HB (m & e & Hx & Hd & He & Hv). exists m, e.
  repeat split; try assumption; lia.
Qed.

Lemma pow2_52_pos : (0 < pow2 (-52))%R.
Proof. apply pow2_pos. Qed.

Lemma div_bounds (X Y a b : R) :
  (0 < Y -> a * Y <= X -> X <= b * Y -> a <= X / Y <= b)%R.
Proof.
  intros HY Ha Hb.
  assert (HXY : (X / Y * Y = X)%R) by (field; lra).
  split; apply Rmult_le_reg_r with (1 := HY); lra.
Qed.

Lemma SFdiv_core_normal (mx my : positive) (ex ey : Z) :
  Zpos (digits2_pos mx) = 53 -> Zpos (digits2_pos my) = 53 ->
  -1074 <= ex - ey - 53 ->
  SFdiv_core_binary prec emax (Zpos mx) ex (Zpos my) ey
  = (Zpos mx * 2 ^ 53 / Zpos my, ex - ey - 53,
     new_location (Zpos my) (Zpos mx * 2 ^ 53 mod Zpos my)).
Proof.
  intros Hdx Hdy Hlo. unfold SFdiv_core_binary. cbn [Zdigits2].
  rewrite Hdx, Hdy. rewrite fexp_normal by lia.
  rewrite Z.min_l by lia.
  replace (ex - ey - (53 + ex - (53 + ey) - 53)) with 53 by lia.
  cbv beta iota zeta. rewrite Z.shiftl_mul_pow2 by lia.
  unfold Z.div, Z.modulo.
  destruct (Z.div_eucl (Zpos mx * 2 ^ 53) (Zpos my)) as [q r].
  cbn [fst snd]. do 2 f_equal. lia.
Qed.

(** Division of two positive normal numbers. *)
Lemma SFdiv_normal (B1 B2 : Z) (x y : spec_float) (vx vy : R) :
  normal B1 x vx -> normal B2 y vy -> B1 + B2 <= 900 ->
  exists v, normal (B1 + B2 + 53) (SFdiv prec emax x y) v
            /\ ((1 - pow2 (-52)) * (vx / vy) <= v
                <= (1 + pow2 (-52)) * (vx / vy))%R.
Proof.
  intros (mx & ex & -> & Hdx & Hex & ->) (my & ey & -> & Hdy & Hey & ->) HB.
  cbn [SFdiv xorb]. rewrite SFdiv_core_normal by (assumption || lia).
  pose proof (normal_mantissa mx Hdx) as Hmx.
  pose proof (normal_mantissa my Hdy) as Hmy.
  set (q := Zpos mx * 2 ^ 53 / Zpos my).
  assert (Hq : 2 ^ 52 <= q < 2 ^ 54).
  { unfold q. split.
    - apply Z.div_le_lower_bound; [lia|].
      change (2 ^ 53) with (2 * 2 ^ 52) in *. nia.
    - apply Z.div_lt_upper_bound; [lia|].
      change (2 ^ 54) with (2 * 2 ^ 53). change (2 ^ 53) with (2 * 2 ^ 52) in *.
      nia. }
  assert (Hqr : Zpos my * q <= Zpos mx * 2 ^ 53 < Zpos my * (q + 1)).
  { unfold q. split.
    - apply Z.mul_div_le. lia.
    - replace (Zpos my * (Zpos mx * 2 ^ 53 / Zpos my + 1))
        with (Zpos my * Z.succ (Zpos mx * 2 ^ 53 / Zpos my)) by lia.
      apply Z.mul_succ_div_gt. lia. }
  destruct q as [|pq|pq] eqn:Eq; [lia| |lia].
  assert (Hd : 53 <= Zpos (digits2_pos pq) <= 54).
  { split.
    - assert (52 < Zpos (digits2_pos pq)); [|lia].
      apply digits2_pos_gt. lia.
    - apply digits2_pos_le; lia. }
  pose proof (pow2_pos ex) as Hpex. pose proof (pow2_pos ey) as Hpey.
  pose proof (pow2_pos (ex - ey - 53)) as Hpe.
  assert (Hsplit : pow2 ex = (pow2 (ex - ey - 53) * pow2 ey * pow2 53)%R).
  { rewrite <- !pow2_add. f_equal. lia. }
  assert (H1 : (IZR (Zpos my) * IZR (Zpos pq) <= IZR (Zpos mx) * pow2 53)%R).
  { rewrite <- pow2_IZR, <- !mult_IZR by lia. apply IZR_le. lia. }
  assert (H2 : (IZR (Zpos mx) * pow2 53
                <= IZR (Zpos my) * (IZR (Zpos pq) + 1))%R).
  { rewrite <- pow2_IZR, <- plus_IZR, <- !mult_IZR by lia.
    apply IZR_le. lia. }
  assert (HY : (0 < IZR (Zpos my) * pow2 ey)%R).
  { apply Rmult_lt_0_compat; [apply IZR_lt; lia|assumption]. }
  assert (HP : (0 < pow2 (ex - ey - 53) * pow2 ey)%R)
    by (apply Rmult_lt_0_compat; assumption).
  destruct (binary_round_aux_value false pq (ex - ey - 53)
              (new_location (Zpos my) (Zpos mx * 2 ^ 53 mod Zpos my))
              (IZR (Zpos mx) * pow2 ex / (IZR (Zpos my) * pow2 ey))%R)
    as (m & e & Hres & Hdm & He & Hv); try lia.
  { apply div_bounds; [assumption| |].
    - rewrite Hsplit.
      replace (IZR (Zpos pq) * pow2 (ex - ey - 53)
               * (IZR (Zpos my) * pow2 ey))%R
        with (IZR (Zpos my) * IZR (Zpos pq)
              * (pow2 (ex - ey - 53) * pow2 ey))%R by ring.
      replace (IZR (Zpos mx) * (pow2 (ex - ey - 53) * pow2 ey * pow2 53))%R
        with (IZR (Zpos mx) * pow2 53
              * (pow2 (ex - ey - 53) * pow2 ey))%R by ring.
      apply Rmult_le_compat_r; [lra|assumption].
    - rewrite Hsplit, plus_IZR.
      replace ((IZR (Zpos pq) + 1) * pow2 (ex - ey - 53)
               * (IZR (Zpos my) * pow2 ey))%R
        with (IZR (Zpos my) * (IZR (Zpos pq) + 1)
              * (pow2 (ex - ey - 53) * pow2 ey))%R by ring.
      replace (IZR (Zpos mx) * (pow2 (ex - ey - 53) * pow2 ey * pow2 53))%R
        with (IZR (Zpos mx) * pow2 53
              * (pow2 (ex - ey - 53) * pow2 ey))%R by ring.
      apply Rmult_le_compat_r; [lra|assumption]. }
  rewrite Hres. exists (IZR (Zpos m) * pow2 e)%R. split; [|exact Hv].
  exists m, e. repeat split; try assumption; lia.
Qed.

Lemma shl_align_fst (mx : positive) (ex ez : Z) :
  ez <= ex -> Zpos (fst (shl_align mx ex ez)) = Zpos mx * 2 ^ (ex - ez).
Proof.
  intros H. unfold shl_align. destruct (ez - ex) as [|d|d] eqn:E.
  - replace (ex - ez) with 0 by lia. cbn [fst]. lia.
  - lia.
  - cbn [fst]. rewrite pos_iter_xO. f_equal. f_equal.
    rewrite <- Pos2Z.opp_pos in E. lia.
Qed.

(** Addition of two numbers that are zero or positive normal. *)
Lemma SFadd_repr (B1 B2 : Z) (x y : spec_float) (vx vy : R) :
  repr B1 x vx -> repr B2 y vy -> 0 <= B1 <= 900 -> 0 <= B2 <= 900 ->
  exists v, repr (Z.max B1 B2 + 2) (SFadd prec emax x y) v
            /\ ((1 - pow2 (-52)) * (vx + vy) <= v
                <= (1 + pow2 (-52)) * (vx + vy))%R.
Proof.
  pose proof pow2_52_pos as Hu.
  intros [[-> ->]|Hx] [[-> ->]|Hy] HB1 HB2.
  - exists 0%R. split; [left; auto|lra].
  - exists vy. pose proof (normal_pos _ _ _ Hy).
    split; [|nra].
    right. apply normal_weaken with (B := B2); [lia|].
    destruct Hy as (m & e & -> & Hy). exists m, e. tauto.
  - exists vx. pose proof (normal_pos _ _ _ Hx).
    split; [|nra].
    right. apply normal_weaken with (B := B1); [lia|].
    destruct Hx as (m & e & -> & Hx). exists m, e. tauto.
  - destruct Hx as (mx & ex & -> & Hdx & Hex & ->).
    destruct Hy as (my & ey & -> & Hdy & Hey & ->).
    cbn [SFadd cond_Zopp].
    pose proof (normal_mantissa mx Hdx) as Hmx.
    pose proof (normal_mantissa my Hdy) as Hmy.
    pose proof (shl_align_fst mx ex (Z.min ex ey) ltac:(lia)) as Ha.
    pose proof (shl_align_fst my ey (Z.min ex ey) ltac:(lia)) as Hb.
    set (ez := Z.min ex ey) in *.
    set (a := fst (shl_align mx ex ez)) in *.
    set (b := fst (shl_align my ey ez)) in *.
    cbn [Z.add binary_normalize].
    set (D := Z.max ex ey - ez).
    assert (HD : 0 <= D) by (unfold D, ez; lia).
    assert (Hs : 2 ^ (52 + D) <= Zpos (a + b) < 2 ^ (54 + D)).
    { rewrite Pos2Z.inj_add, Ha, Hb, !Z.pow_add_r by lia.
      assert (HP : 1 <= 2 ^ D) by (apply Z.pow_pos_nonneg with (a := 2) in HD; lia).
      destruct (Z.le_ge_cases ex ey) as [Hle|Hge].
      - replace (ex - ez) with 0 by (unfold ez; lia).
        replace (ey - ez) with D by (unfold D, ez; lia).
        change (2 ^ 0) with 1. change (2 ^ 54) with (2 * 2 ^ 53).
        change (2 ^ 53) with (2 * 2 ^ 52) in *. nia.
      - replace (ey - ez) with 0 by (unfold ez; lia).
        replace (ex - ez) with D by (unfold D, ez; lia).
        change (2 ^ 0) with 1. change (2 ^ 54) with (2 * 2 ^ 53).
        change (2 ^ 53) with (2 * 2 ^ 52) in *. nia. }
    assert (Hd : 53 + D <= Zpos (digits2_pos (a + b)) <= 54 + D).
    { split.
      - assert (52 + D < Zpos (digits2_pos (a + b))); [|lia].
        apply digits2_pos_gt. lia.
      - apply digits2_pos_le; lia. }
    destruct (binary_round_value false (a + b) ez)
      as (m & e & Hres & Hdm & He & Hv);
      try (unfold D, ez in *; lia).
    rewrite Hres. exists (IZR (Zpos m) * pow2 e)%R. split.
    + right. exists m, e. repeat split; try assumption;
        unfold D, ez in *; lia.
    + assert (Hval : (IZR (Zpos (a + b)) * pow2 ez
                      = IZR (Zpos mx) * pow2 ex + IZR (Zpos my) * pow2 ey)%R).
      { rewrite Pos2Z.inj_add, plus_IZR, Ha, Hb.
        rewrite (value_shift (Zpos mx) ex ez) by (unfold ez; lia).
        rewrite (value_shift (Zpos my) ey ez) by (unfold ez; lia). ring. }
      rewrite <- Hval. exact Hv.
Qed.

(** Conversion of a count. *)
Lemma of_Z_zero : Prim2SF (of_uint63 (Uint63.of_Z 0)) = S754_zero false.
Proof. reflexivity. Qed.

Lemma of_Z_normal (z : Z) :
  0 < z < 2 ^ 63 ->
  exists v, normal 63 (Prim2SF (of_uint63 (Uint63.of_Z z))) v
            /\ ((1 - pow2 (-52)) * IZR z <= v
                <= (1 + pow2 (-52)) * IZR z)%R.
Proof.
  intros Hz. rewrite of_uint63_spec, Uint63.of_Z_spec.
  rewrite Z.mod_small by (change Uint63.wB with (2 ^ 63); lia).
  destruct z as [|p|p]; [lia| |lia]. cbn [binary_normalize].
  assert (Hd : 1 <= Zpos (digits2_pos p) <= 63).
  { split; [lia|]. apply digits2_pos_le; lia. }
  destruct (binary_round_value false p 0) as (m & e & Hres & Hdm & He & Hv);
    try lia.
  rewrite Hres. exists (IZR (Zpos m) * pow2 e)%R. split.
  - exists m, e. repeat split; try assumption; lia.
  - rewrite pow2_0, Rmult_1_r in Hv. exact Hv.
Qed.

Lemma repr_value B x v :
  repr B (Prim2SF x) v -> finite x = true /\ real_value x = v.
Proof.
  unfold finite, real_value.
  intros [[-> ->]|(m & e & -> & _ & _ & ->)]; cbn [SF2R]; split;
    try reflexivity; ring.
Qed.

Lemma hundred_normal : normal 46 (Prim2SF 100) 100%R.
Proof.
  exists 7036874417766400%positive, (-46). repeat split; try reflexivity;
    try lia.
  change (Zpos 7036874417766400) with (100 * 2 ^ 46).
  rewrite mult_IZR, pow2_IZR, Rmult_assoc by lia.
  rewrite <- pow2_add. change (46 + -46) with 0. rewrite pow2_0. ring.
Qed.

Lemma u_small : (0 < pow2 (-52) <= 1 / 1000)%R.
Proof.
  split; [apply pow2_pos|].
  assert (H : (pow2 (-52) * pow2 52 = 1)%R)
    by (rewrite <- pow2_add; reflexivity).
  pose proof (pow2_pos (-52)) as Hp.
  rewrite <- (pow2_IZR 52) in H by lia.
  assert (H52 : (1000 <= IZR (2 ^ 52))%R) by (apply IZR_le; lia).
  revert H H52 Hp. generalize (IZR (2 ^ 52)) (pow2 (-52)). intros X u H H52 Hp.
  assert (0 <= u * (X - 1000))%R by (apply Rmult_le_pos; lra).
  lra.
Qed.

(** One more rounding on top of an error of [k] units. *)
Lemma near_step (u k x y z : R) :
  (0 < u <= 1 / 1000 -> 0 <= k <= 100 -> 0 <= x ->
   (1 - k * u) * x <= y <= (1 + k * u) * x ->
   (1 - u) * y <= z <= (1 + u) * y ->
   (1 - (k + 3 / 2) * u) * x <= z <= (1 + (k + 3 / 2) * u) * x)%R.
Proof.
  intros Hu Hk Hx Hy Hz.
  assert (Hku : (0 <= k * u <= 1 / 2)%R) by nra.
  assert (Hy0 : (0 <= y)%R) by nra.
  split.
  - apply Rle_trans with ((1 - u) * ((1 - k * u) * x))%R; [|nra].
    assert (0 <= (k * u * u + u / 2) * x)%R by (apply Rmult_le_pos; nra).
    nra.
  - apply Rle_trans with ((1 + u) * ((1 + k * u) * x))%R; [nra|].
    assert (0 <= (u / 2 - k * u * u) * x)%R by (apply Rmult_le_pos; nra).
    nra.
Qed.

Lemma near_div (u c t wc wt : R) :
  (0 < u <= 1 / 1000 -> 0 <= c -> 0 < t ->
   (1 - u) * c <= wc <= (1 + u) * c ->
   (1 - u) * t <= wt <= (1 + u) * t ->
   (1 - 5 / 2 * u) * (c / t) <= wc / wt <= (1 + 5 / 2 * u) * (c / t))%R.
Proof.
  intros Hu Hc Ht Hwc Hwt.
  assert (Hwt0 : (0 < wt)%R) by nra.
  assert (Hrho : (0 <= c / t)%R)
    by (apply Rmult_le_pos; [assumption|left; now apply Rinv_0_lt_compat]).
  assert (Hc' : (c = c / t * t)%R) by (field; lra).
  set (rho := (c / t)%R) in *.
  apply div_bounds; [assumption| |].
  - apply Rle_trans with ((1 - 5 / 2 * u) * rho * ((1 + u) * t))%R.
    + apply Rmult_le_compat_l; [apply Rmult_le_pos; nra|lra].
    + apply Rle_trans with ((1 - u) * c)%R; [|lra].
      rewrite Hc' at 1.
      assert (0 <= (3 / 2 * u + 5 / 2 * u * u - u) * (rho * t))%R
        by (apply Rmult_le_pos; nra).
      nra.
  - apply Rle_trans with ((1 + 5 / 2 * u) * rho * ((1 - u) * t))%R.
    + apply Rle_trans with ((1 + u) * c)%R; [lra|].
      rewrite Hc' at 1.
      assert (0 <= (3 / 2 * u - 5 / 2 * u * u - u) * (rho * t))%R
        by (apply Rmult_le_pos; nra).
      nra.
    + apply Rmult_le_compat_l; [apply Rmult_le_pos; nra|lra].
Qed.

Lemma float_of_nat_repr (n : nat) :
  Z.of_nat n < 2 ^ 63 ->
  exists v, repr 63 (Prim2SF (float_of_nat n)) v
            /\ ((1 - pow2 (-52)) * IZR (Z.of_nat n) <= v
                <= (1 + pow2 (-52)) * IZR (Z.of_nat n))%R
            /\ (n <> 0%nat -> normal 63 (Prim2SF (float_of_nat n)) v).
Proof.
  intros Hn. unfold float_of_nat. destruct n as [|n].
  - exists 0%R. split; [left; split; reflexivity|]. split; [cbn; lra|].
    intros H. now contradiction H.
  - destruct (of_Z_normal (Z.of_nat (S n)) ltac:(lia)) as (v & Hv & Hb).
    exists v. split; [right; exact Hv|]. split; [exact Hb|]. intros _. exact Hv.
Qed.

(** The binary64 percentage of a tier against the exact one. *)
Lemma percentage_repr (c t : nat) :
  (0 < t)%nat -> (c <= t)%nat -> Z.of_nat t < 2 ^ 63 ->
  exists v, repr 300 (Prim2SF (percentage c t)) v
    /\ ((1 - 11 / 2 * pow2 (-52))
          * (100 * (IZR (Z.of_nat c) / IZR (Z.of_nat t))) <= v
        <= (1 + 11 / 2 * pow2 (-52))
             * (100 * (IZR (Z.of_nat c) / IZR (Z.of_nat t))))%R.
Proof.
  intros Ht Hc Hlt. pose proof u_small as Hu.
  unfold percentage. rewrite mul_spec, div_spec.
  destruct (float_of_nat_repr t Hlt) as (wt & _ & Hwt & Hnt).
  specialize (Hnt ltac:(lia)).
  assert (HtR : (0 < IZR (Z.of_nat t))%R) by (apply IZR_lt; lia).
  destruct c as [|c].
  - destruct Hnt as (mt & et & -> & _).
    change (Prim2SF (float_of_nat 0)) with (S754_zero false).
    destruct hundred_normal as (mh & eh & -> & _).
    cbn [SF64div SFdiv SF64mul SFmul xorb].
    exists 0%R. split; [left; split; reflexivity|].
    change (IZR (Z.of_nat 0)) with 0%R. unfold Rdiv. rewrite !Rmult_0_l, !Rmult_0_r.
    lra.
  - destruct (float_of_nat_repr (S c) ltac:(lia)) as (wc & _ & Hwc & Hnc).
    specialize (Hnc ltac:(lia)).
    assert (HcR : (0 < IZR (Z.of_nat (S c)))%R) by (apply IZR_lt; lia).
    destruct (SFdiv_normal 63 63 _ _ wc wt Hnc Hnt ltac:(lia))
      as (wq & Hnq & Hwq).
    destruct (SFmul_normal (63 + 63 + 53) 46 _ _ wq 100%R Hnq hundred_normal
                ltac:(lia)) as (wp & Hnp & Hwp).
    exists wp. split.
    + right. apply normal_weaken with (2 := Hnp). lia.
    + pose proof (near_div _ _ _ _ _ Hu (Rlt_le _ _ HcR) HtR Hwc Hwt) as Hr.
      set (rho := (IZR (Z.of_nat (S c)) / IZR (Z.of_nat t))%R) in *.
      assert (Hrho : (0 <= rho)%R)
        by (apply Rmult_le_pos; [lra|left; now apply Rinv_0_lt_compat]).
      pose proof (near_step _ (5 / 2) _ _ _ Hu ltac:(lra) Hrho Hr Hwq) as Hq.
      assert (Hq100 : ((1 - (5 / 2 + 3 / 2) * pow2 (-52)) * (100 * rho)
                       <= wq * 100
                       <= (1 + (5 / 2 + 3 / 2) * pow2 (-52)) * (100 * rho))%R)
        by lra.
      assert (Hrho100 : (0 <= 100 * rho)%R) by lra.
      pose proof (near_step _ (5 / 2 + 3 / 2) _ _ _ Hu ltac:(lra)
                    Hrho100 Hq100 Hwp) as Hp.
      lra.
Qed.

Lemma exact_percentage_real (c t : nat) :
  (0 < t)%nat ->
  Q2R (exact_percentage c t)
  = (100 * (IZR (Z.of_nat c) / IZR (Z.of_nat t)))%R.
Proof.
  intros Ht. unfold exact_percentage. rewrite Q2R_mult.
  unfold Q2R at 1 2. cbn [Qnum Qden].
  rewrite <- positive_nat_Z, Nat2Pos.id by lia.
  assert (0 < IZR (Z.of_nat t))%R by (apply IZR_lt; lia).
  field. lra.
Qed.

Lemma tolerance_42 : (1024 * pow2 (-52) = powerRZ 2 (-42))%R.
Proof.
  change 1024%R with (IZR (2 ^ 10)). rewrite pow2_IZR by lia.
  rewrite <- pow2_add. reflexivity.
Qed.

Lemma tolerance_49 : (8 * pow2 (-52) = powerRZ 2 (-49))%R.
Proof.
  change 8%R with (IZR (2 ^ 3)). rewrite pow2_IZR by lia.
  rewrite <- pow2_add. reflexivity.
Qed.

(** Every binary64 percentage is finite and within a relative error of
    2^-49 of the exact one. *)
Lemma percentage_close (c t : nat) :
  (0 < t)%nat -> (c <= t)%nat -> Z.of_nat t < 2 ^ 63 ->
  finite (percentage c t) = true
  /\ (Rabs (real_value (percentage c t) - Q2R (exact_percentage c t))
      <= powerRZ 2 (-49) * Q2R (exact_percentage c t))%R.
Proof.
  intros Ht Hc Hlt.
  destruct (percentage_repr c t Ht Hc Hlt) as (v & Hrepr & Hv).
  destruct (repr_value _ _ _ Hrepr) as [Hfin ->]. split; [exact Hfin|].
  rewrite exact_percentage_real by assumption.
  rewrite <- tolerance_49. pose proof u_small as Hu.
  assert (0 <= IZR (Z.of_nat c) / IZR (Z.of_nat t))%R.
  { apply Rmult_le_pos; [apply IZR_le; lia|].
    left. apply Rinv_0_lt_compat. apply IZR_lt. lia. }
  set (rho := (IZR (Z.of_nat c) / IZR (Z.of_nat t))%R) in *.
  assert (0 <= pow2 (-52) * (100 * rho))%R by (apply Rmult_le_pos; lra).
  apply Rabs_le. lra.
Qed.

(** The three binary64 percentages of a split of [t] events add up, in
    binary64, to a number within 2^-42 of 100. *)
Lemma percentages_sum_close (h m l : nat) :
  let t := (h + m + l)%nat in
  (0 < t)%nat -> Z.of_nat t < 2 ^ 63 ->
  finite (percentage h t + percentage m t + percentage l t) = true
  /\ (Rabs (real_value (percentage h t + percentage m t + percentage l t)
            - 100)
      <= powerRZ 2 (-42))%R.
Proof.
  intros t Ht Hlt. pose proof u_small as Hu.
  destruct (percentage_repr h t Ht ltac:(unfold t; lia) Hlt)
    as (vh & Hrh & Hvh).
  destruct (percentage_repr m t Ht ltac:(unfold t; lia) Hlt)
    as (vm & Hrm & Hvm).
  destruct (percentage_repr l t Ht ltac:(unfold t; lia) Hlt)
    as (vl & Hrl & Hvl).
  destruct (SFadd_repr 300 300 _ _ vh vm Hrh Hrm ltac:(lia) ltac:(lia))
    as (s1 & Hr1 & Hs1).
  destruct (SFadd_repr (Z.max 300 300 + 2) 300 _ _ s1 vl Hr1 Hrl
              ltac:(lia) ltac:(lia)) as (s & Hr & Hs).
  assert (Hsum : Prim2SF (percentage h t + percentage m t + percentage l t)
                 = SFadd prec emax
                     (SFadd prec emax (Prim2SF (percentage h t))
                        (Prim2SF (percentage m t)))
                     (Prim2SF (percentage l t)))
    by (rewrite !add_spec; reflexivity).
  rewrite <- Hsum in Hr.
  destruct (repr_value _ _ _ Hr) as [Hfin ->]. split; [exact Hfin|].
  assert (HtR : (0 < IZR (Z.of_nat t))%R) by (apply IZR_lt; lia).
  assert (Hnn : forall c : nat, (0 <= 100 * (IZR (Z.of_nat c) / IZR (Z.of_nat t)))%R).
  { intros c. apply Rmult_le_pos; [lra|]. apply Rmult_le_pos;
      [apply IZR_le; lia|left; now apply Rinv_0_lt_compat]. }
  pose proof (Hnn h) as Hh0. pose proof (Hnn m) as Hm0.
  pose proof (Hnn l) as Hl0.
  assert (Htotal : (100 * (IZR (Z.of_nat h) / IZR (Z.of_nat t))
                    + 100 * (IZR (Z.of_nat m) / IZR (Z.of_nat t))
                    + 100 * (IZR (Z.of_nat l) / IZR (Z.of_nat t)) = 100)%R).
  { assert (IZR (Z.of_nat t)
            = IZR (Z.of_nat h) + IZR (Z.of_nat m) + IZR (Z.of_nat l))%R
      as Ht3 by (unfold t; rewrite !Nat2Z.inj_add, !plus_IZR; reflexivity).
    rewrite Ht3 in HtR |- *. field. lra. }
  set (Ph := (100 * (IZR (Z.of_nat h) / IZR (Z.of_nat t)))%R) in *.
  set (Pm := (100 * (IZR (Z.of_nat m) / IZR (Z.of_nat t)))%R) in *.
  set (Pl := (100 * (IZR (Z.of_nat l) / IZR (Z.of_nat t)))%R) in *.
  set (u := pow2 (-52)) in *.
  assert (Huh : (0 <= u * Ph)%R) by (apply Rmult_le_pos; lra).
  assert (Hum : (0 <= u * Pm)%R) by (apply Rmult_le_pos; lra).
  assert (Hul : (0 <= u * Pl)%R) by (apply Rmult_le_pos; lra).
  assert (H12 : ((1 - 11 / 2 * u) * (Ph + Pm) <= vh + vm
                 <= (1 + 11 / 2 * u) * (Ph + Pm))%R) by lra.
  pose proof (near_step u (11 / 2) (Ph + Pm) (vh + vm) s1 Hu ltac:(lra)
                ltac:(lra) H12 Hs1) as H1.
  assert (H123 : ((1 - (11 / 2 + 3 / 2) * u) * (Ph + Pm + Pl) <= s1 + vl
                  <= (1 + (11 / 2 + 3 / 2) * u) * (Ph + Pm + Pl))%R) by lra.
  pose proof (near_step u (11 / 2 + 3 / 2) (Ph + Pm + Pl) (s1 + vl) s Hu
                ltac:(lra) ltac:(lra) H123 Hs) as H.
  rewrite Htotal in H. rewrite <- tolerance_42. fold u.
  apply Rabs_le. lra.
Qed.

(** C2.  On a non-empty event set (scores are numbers, as every score of
    the engine is), every event falls in exactly one of the tiers high
    (< 0.5), medium (0.5 <= score < 0.8) and low (>= 0.8), so the three
    counts add up to the number of events; the percentages count /
    total_events * 100 add up to 100 exactly as rational numbers.  As the
    binary64 numbers the code computes, for every set of fewer than 2^63
    events (the counts that convert to float), each percentage is finite
    and within a relative error of 2^-49 of the exact percentage of its
    tier, and the binary64 sum of the three is finite and within 2^-42 of
    100; for every set of up to 100 events the binary64 comparison itself
    finds the sum within 2^-45 of 100.0. *)
Theorem risk_tiers_partition (self : Engine) :
  events self <> [] ->
  Forall (fun e => is_number (compliance_score e)) (events self) ->
  (forall e, In e (events self) -> tiers_of e = 1%nat)
  /\ (List.length (high_risk_events self)
      + List.length (medium_risk_events self)
      + List.length (low_risk_events self)
      = List.length (events self))%nat
  /\ exact_percentage (List.length (high_risk_events self))
       (List.length (events self))
     + exact_percentage (List.length (medium_risk_events self))
         (List.length (events self))
     + exact_percentage (List.length (low_risk_events self))
         (List.length (events self))
     == 100
  /\ ((List.length (events self) <= 100)%nat ->
      (PrimFloat.abs
         (percentage (List.length (high_risk_events self))
            (List.length (events self))
          + percentage (List.length (medium_risk_events self))
              (List.length (events self))
          + percentage (List.length (low_risk_events self))
              (List.length (events self))
          - 100) <=? 0x1p-45)%float = true)
  /\ (Z.of_nat (List.length (events self)) < 2 ^ 63 ->
      (forall tier,
         In tier [high_risk_events self; medium_risk_events self;
                  low_risk_events self] ->
         finite (percentage (List.length tier) (List.length (events self)))
         = true
         /\ (Rabs
               (real_value
                  (percentage (List.length tier) (List.length (events self)))
                - Q2R (exact_percentage (List.length tier)
                         (List.length (events self))))
             <= powerRZ 2 (-49)
                * Q2R (exact_percentage (List.length tier)
                         (List.length (events self))))%R)
      /\ finite
           (percentage (List.length (high_risk_events self))
              (List.length (events self))
            + percentage (List.length (medium_risk_events self))
                (List.length (events self))
            + percentage (List.length (low_risk_events self))
                (List.length (events self)))
         = true
      /\ (Rabs
            (real_value
               (percentage (List.length (high_risk_events self))
                  (List.length (events self))
                + percentage (List.length (medium_risk_events self))
                    (List.length (events self))
                + percentage (List.length (low_risk_events self))
                    (List.length (events self)))
             - 100)
          <= powerRZ 2 (-42))%R).
Proof.
  intros Hne Hnum.
  assert (Hone : Forall (fun e => tiers_of e = 1%nat) (events self)).
  { eapply Forall_impl; [|exact Hnum]. intros e. apply one_tier. }
  pose proof (tier_lengths (events self) Hone) as Hlen.
  fold (high_risk_events self) (medium_risk_events self)
    (low_risk_events self) in Hlen.
  assert (Hpos : (0 < List.length (events self))%nat).
  { destruct (events self); [contradiction|cbn; lia]. }
  split; [|split; [exact Hlen|split; [|split]]].
  - intros e He. rewrite Forall_forall in Hone. auto.
  - rewrite <- Hlen. apply exact_percentages_sum. lia.
  - intros Hsmall. rewrite <- Hlen.
    apply (splits_close_sound 100 _ _ _ splits_close_100). lia.
  - intros Hsize. split; [|rewrite <- Hlen in Hsize |- *;
                           apply percentages_sum_close; [lia|exact Hsize]].
    intros tier Htier. apply percentage_close; [exact Hpos| |exact Hsize].
    cbn [In] in Htier. destruct Htier as [<-|[<-|[<-|[]]]]; lia.
Qed.

Lemma risk_tiers_partition_witness :
  (List.length (high_risk_events Example.scanned)
   + List.length (medium_risk_events Example.scanned)
   + List.length (low_risk_events Example.scanned)
   = List.length (events Example.scanned))%nat
  /\ (Rabs
        (real_value
           (percentage (List.length (high_risk_events Example.scanned))
              (List.length (events Example.scanned))
            + percentage (List.length (medium_risk_events Example.scanned))
                (List.length (events Example.scanned))
            + percentage (List.length (low_risk_events Example.scanned))
                (List.length (events Example.scanned)))
         - 100)
      <= powerRZ 2 (-42))%R.
Proof.
  assert (Hne : events Example.scanned <> [])
    by (vm_compute; discriminate).
  assert (Hnum : Forall (fun e => is_number (compliance_score e))
                   (events Example.scanned))
    by (vm_compute; repeat constructor).
  split.
  - exact (proj1 (proj2 (risk_tiers_partition Example.scanned Hne Hnum))).
  - refine (proj2 (proj2 (proj2 (proj2 (proj2 (proj2
      (risk_tiers_partition Example.scanned Hne Hnum)))) _))).
    vm_compute. reflexivity.
Defined.

(* ===================================================================== *)
(** ** Recommendations *)
(* ===================================================================== *)

Lemma filter_nil_existsb {A} (f : A -> bool) (l : list A) :
  existsb f l = match filter f l with [] => false | _ => true end.
Proof.
  induction l as [|x l IH]; [reflexivity|].
  cbn [existsb filter]. destruct (f x); [reflexivity|exact IH].
Qed.

Lemma recommendations_shape (high_risk : list ComplianceEvent) :
  _generate_recommendations high_risk =
    (if existsb is_commit high_risk then commit_recommendations else [])
    ++ (if existsb is_pull_request high_risk
        then pull_request_recommendations else [])
    ++ (if existsb is_commit high_risk || existsb is_pull_request high_risk
        then [] else [good_compliance_recommendation]).
Proof.
  unfold _generate_recommendations.
  rewrite (filter_nil_existsb is_commit), (filter_nil_existsb is_pull_request).
  fold is_commit is_pull_request.
  change (fun e : ComplianceEvent => String.eqb (event_type e) "commit")
    with is_commit.
  change (fun e : ComplianceEvent => String.eqb (event_type e) "pull_request")
    with is_pull_request.
  destruct (filter is_commit high_risk), (filter is_pull_request high_risk);
    reflexivity.
Qed.

(** C9.  Given the high-risk subset, the recommendation engine returns the
    two commit messages when a high-risk commit event exists, then the two
    pull-request messages when a high-risk pull_request event exists, and
    the single good-compliance message when there is no high-risk event of
    either kind. *)
Theorem recommendations_by_pattern (high_risk : list ComplianceEvent) :
  _generate_recommendations high_risk =
    (if existsb is_commit high_risk then commit_recommendations else [])
    ++ (if existsb is_pull_request high_risk
        then pull_request_recommendations else [])
    ++ (if existsb is_commit high_risk || existsb is_pull_request high_risk
        then [] else [good_compliance_recommendation])
  /\ List.length commit_recommendations = 2%nat
  /\ List.length pull_request_recommendations = 2%nat.
Proof.
  split; [apply recommendations_shape|split; reflexivity].
Qed.

(** C10.  After a scan, every event that is neither a commit nor a
    pull_request has a score of at least 0.7; so every high-risk event
    (score < 0.5) is a commit or a pull_request, and the recommendations
    hold the messages of the kind of each high-risk event. *)
Theorem high_risk_is_commit_or_pull_request
  (w : World) (L : Lib) (self : Engine) (days_back : Z) (tick : nat)
  (evs : list ComplianceEvent) (self' : Engine) :
  run_comprehensive_scan w L self days_back tick = Ok (evs, self') ->
  (forall e, In e (events self') ->
     event_type e <> "commit" -> event_type e <> "pull_request" ->
     (0.7 <=? compliance_score e)%float = true)
  /\ (forall e, In e (high_risk_events self') ->
        event_type e = "commit" \/ event_type e = "pull_request")
  /\ (forall e, In e (high_risk_events self') ->
        (event_type e = "commit"
         /\ incl commit_recommendations
              (_generate_recommendations (high_risk_events self')))
        \/ (event_type e = "pull_request"
            /\ incl pull_request_recommendations
                 (_generate_recommendations (high_risk_events self')))).
Proof.
  intros H. apply run_comprehensive_scan_produced in H as [Hev Hp].
  rewrite <- Hev in Hp. rewrite Forall_forall in Hp.
  assert (Hother : forall e, In e (events self') ->
            event_type e <> "commit" -> event_type e <> "pull_request" ->
            (0.7 <=? compliance_score e)%float = true).
  { intros e He Hc Hr.
    pose proof (produced_other_score e (Hp e He) Hc Hr) as Hs.
    cbn [In] in Hs.
    destruct Hs as [<-|[<-|[<-|[<-|[<-|[]]]]]]; reflexivity. }
  assert (Hkind : forall e, In e (high_risk_events self') ->
            event_type e = "commit" \/ event_type e = "pull_request").
  { intros e He. apply filter_In in He as [He Hhigh].
    destruct (String.eqb_spec (event_type e) "commit") as [|Hc]; [now left|].
    destruct (String.eqb_spec (event_type e) "pull_request") as [|Hr];
      [now right|].
    exfalso. pose proof (Hother e He Hc Hr) as Hle.
    unfold is_high_risk in Hhigh.
    pose proof (produced_number e (Hp e He)) as Hn.
    rewrite (ltb_negb_leb _ 0.5 Hn eq_refl) in Hhigh.
    assert (H5 : (0.5 <=? compliance_score e)%float = true).
    { pose proof (produced_other_score e (Hp e He) Hc Hr) as Hs.
      cbn [In] in Hs.
      destruct Hs as [<-|[<-|[<-|[<-|[<-|[]]]]]]; reflexivity. }
    rewrite H5 in Hhigh. discriminate. }
  split; [exact Hother|split; [exact Hkind|]].
  intros e He. rewrite recommendations_shape.
  destruct (Hkind e He) as [Hc|Hr]; [left|right]; (split; [assumption|]).
  - assert (Hex : existsb is_commit (high_risk_events self') = true).
    { apply existsb_exists. exists e. split; [exact He|].
      unfold is_commit. rewrite Hc. reflexivity. }
    rewrite Hex. apply incl_appl, incl_refl.
  - assert (Hex : existsb is_pull_request (high_risk_events self') = true).
    { apply existsb_exists. exists e. split; [exact He|].
      unfold is_pull_request. rewrite Hr. reflexivity. }
    rewrite Hex. apply incl_appr, incl_appl, incl_refl.
Qed.

Lemma high_risk_is_commit_or_pull_request_witness :
  run_comprehensive_scan Example.world Example.lib Example.engine 30 0
  = Ok (events Example.scanned, Example.scanned)
  /\ (forall e, In e (high_risk_events Example.scanned) ->
        event_type e = "commit" \/ event_type e = "pull_request").
Proof.
  refine (let H := _ in
          conj H (proj1 (proj2
            (high_risk_is_commit_or_pull_request Example.world Example.lib
               Example.engine 30 0 (events Example.scanned) Example.scanned
               H)))).
  vm_compute. reflexivity.
Defined.

(* ===================================================================== *)
(** ** The empty event set *)
(* ===================================================================== *)

(** C8.  On an empty event set, report generation raises nothing: the
    report is the empty dict and the disk is left as it was, the compliance
    metrics are the empty dict (no tier, percentage, trend or
    recommendation is computed), and the summary has empty tallies and the
    average 0. *)
Theorem empty_event_set_report (w : World) (L : Lib) (self : Engine)
  (output_file : string) (tick : nat) (files : disk) :
  events self = [] ->
  generate_progress_report w L self output_file tick files
  = Ok (VDict [], files)
  /\ _generate_compliance_metrics L self = VDict []
  /\ _generate_summary self
     = Ok (VDict [(JStr "events_by_type", VDict []);
                  (JStr "events_by_repository", VDict []);
                  (JStr "top_contributors", VDict []);
                  (JStr "average_compliance_score", VInt 0)]).
Proof.
  intros H.
  unfold generate_progress_report, _generate_compliance_metrics,
    _generate_summary.
  rewrite H. repeat split; reflexivity.
Qed.

Lemma empty_event_set_report_witness :
  events Example.engine = []
  /\ generate_progress_report Example.world Example.lib Example.engine
       "compliance_report.json" 0 []
     = Ok (VDict [], []).
Proof.
  refine (conj eq_refl (proj1
    (empty_event_set_report Example.world Example.lib Example.engine
       "compliance_report.json" 0 [] eq_refl))).
Defined.

(* ===================================================================== *)
(** ** Malformed records *)
(* ===================================================================== *)

Create HintDb python discriminated.

Lemma Ok_no_request {A} (a : A) : no_request_exception (Ok a).
Proof. discriminate. Qed.

Lemma bind_no_request {A B} (m : result A) (k : A -> result B) :
  no_request_exception m -> (forall a, no_request_exception (k a)) ->
  no_request_exception (bind m k).
Proof.
  destruct m as [a|e]; cbn [bind]; intros Hm Hk; [apply Hk|].
  intros H. apply Hm. injection H as ->. reflexivity.
Qed.

Lemma getitem_no_request x k : no_request_exception (getitem x k).
Proof.
  destruct x; cbn; try discriminate. destruct (assoc k fields); discriminate.
Qed.

Lemma get_no_request x k d : no_request_exception (get x k d).
Proof. destruct x; discriminate. Qed.

Lemma len_no_request x : no_request_exception (len x).
Proof. destruct x; discriminate. Qed.

Lemma lower_no_request x : no_request_exception (lower x).
Proof. destruct x; discriminate. Qed.

Lemma iter_no_request x : no_request_exception (iter x).
Proof. destruct x; discriminate. Qed.

Lemma add_gt_no_request a b n : no_request_exception (add_gt a b n).
Proof. unfold add_gt. destruct (as_int a), (as_int b); discriminate. Qed.

Lemma add_int_no_request a v : no_request_exception (add_int a v).
Proof. unfold add_int. destruct (as_int v); discriminate. Qed.

#[local] Hint Resolve Ok_no_request getitem_no_request get_no_request
  len_no_request lower_no_request iter_no_request add_gt_no_request
  add_int_no_request : python.

(** Walk down a chain of binds. *)
Ltac no_request :=
  auto with python;
  match goal with
  | |- no_request_exception (bind _ _) =>
      apply bind_no_request; [no_request|intro; no_request]
  | |- no_request_exception (if ?c then _ else _) => destruct c; no_request
  | _ => idtac
  end.

Lemma sum_field_no_request field files :
  no_request_exception (sum_field field files).
Proof.
  unfold sum_field. apply bind_no_request; [auto with python|]. intros fs.
  assert (H : forall acc, no_request_exception acc ->
            no_request_exception
              (fold_left
                 (fun acc f =>
                    a <- acc ;; v <- get f field (JInt 0) ;; add_int a v)
                 fs acc)).
  { induction fs as [|f fs IH]; intros acc Hacc; [exact Hacc|].
    cbn [fold_left]. apply IH. no_request. }
  apply H. auto with python.
Qed.

Lemma commit_score_no_request commit :
  no_request_exception (_calculate_commit_compliance_score commit).
Proof. unfold _calculate_commit_compliance_score. no_request. Qed.

Lemma pr_score_no_request pr :
  no_request_exception (_calculate_pr_compliance_score pr).
Proof. unfold _calculate_pr_compliance_score. no_request. Qed.

#[local] Hint Resolve sum_field_no_request commit_score_no_request
  pr_score_no_request : python.

Lemma commit_event_no_request repo commit :
  no_request_exception (commit_event repo commit).
Proof. unfold commit_event. no_request. Qed.

Lemma pr_event_no_request repo pr :
  no_request_exception (pr_event repo pr).
Proof. unfold pr_event. no_request. Qed.

Lemma mapM_no_request {A B} (f : A -> result B) (l : list A) :
  (forall x, no_request_exception (f x)) -> no_request_exception (mapM f l).
Proof.
  intros Hf. induction l as [|x xs IH]; cbn [mapM]; [discriminate|].
  apply bind_no_request; [apply Hf|]. intros y.
  apply bind_no_request; [exact IH|]. discriminate.
Qed.

Lemma except_request_transparent {A} (body : result (list A)) :
  no_request_exception body -> except_request body = body.
Proof.
  destruct body as [l|e]; [reflexivity|].
  destruct e; try reflexivity. intros H. now contradiction H.
Qed.

Lemma file_operation_score_no_request event :
  no_request_exception (_calculate_file_operation_compliance_score event).
Proof. unfold _calculate_file_operation_compliance_score. no_request. Qed.

#[local] Hint Resolve file_operation_score_no_request : python.

Lemma file_operation_event_no_request repo event :
  no_request_exception (file_operation_event repo event).
Proof. unfold file_operation_event. no_request. Qed.

Lemma branch_event_no_request w repo tick branch :
  no_request_exception (branch_event w repo tick branch).
Proof. unfold branch_event. no_request. Qed.

Lemma tag_event_no_request w repo tick tag :
  no_request_exception (tag_event w repo tick tag).
Proof. unfold tag_event. no_request. Qed.

Lemma mapM_from_no_request {A B} (f : nat -> A -> result B) (l : list A) :
  (forall i x, no_request_exception (f i x)) ->
  forall i, no_request_exception (mapM_from f i l).
Proof.
  intros Hf. induction l as [|x xs IH]; intros i; cbn [mapM_from];
    [discriminate|].
  apply bind_no_request; [apply Hf|]. intros y.
  apply bind_no_request; [apply IH|]. discriminate.
Qed.

Lemma except_request_no_request {A} (body : result (list A)) :
  no_request_exception (except_request body).
Proof. destruct body as [l|e]; [discriminate|destruct e; discriminate]. Qed.

#[local] Hint Resolve except_request_no_request : python.

(** A provider error is never fatal to a collector call. *)
Lemma collectors_catch_request_errors w L self repo days_back tick state :
  no_request_exception (monitor_commits w L self repo days_back tick)
  /\ no_request_exception (monitor_pull_requests w L self repo state)
  /\ no_request_exception (monitor_file_operations w L self repo)
  /\ no_request_exception (monitor_branches_and_tags w L self repo tick).
Proof.
  repeat split; try apply except_request_no_request.
  unfold monitor_branches_and_tags. no_request.
Qed.

(** Subscripting along a required path is part of building the event. *)
Lemma commit_event_missing repo commit path :
  In path commit_required_fields -> missing commit path ->
  is_ok (commit_event repo commit) = false.
Proof.
  intros Hin [k Hk]. unfold commit_event.
  cbn [In commit_required_fields] in Hin.
  destruct Hin as [<-|[<-|[<-|[<-|[]]]]]; cbn [lookup_path] in Hk;
    repeat match goal with
    | |- is_ok (bind ?m _) = false =>
        destruct m eqn:?; cbn [bind]; [|reflexivity]
    | H : bind ?m _ = Raise _ |- _ =>
        destruct m eqn:?; cbn [bind] in H; [|discriminate || congruence]
    | H1 : ?t = Ok _, H2 : ?t = Raise _ |- _ => congruence
    | H1 : ?t = Ok ?a, H2 : ?t = Ok ?b |- _ =>
        rewrite H1 in H2; injection H2 as <-
    end; try congruence; try discriminate.
Qed.

Lemma pr_event_missing repo pr path :
  In path pr_required_fields -> missing pr path ->
  is_ok (pr_event repo pr) = false.
Proof.
  intros Hin [k Hk]. unfold pr_event.
  cbn [In pr_required_fields] in Hin.
  destruct Hin as [<-|[<-|[<-|[<-|[<-|[]]]]]]; cbn [lookup_path] in Hk;
    repeat match goal with
    | |- is_ok (bind ?m _) = false =>
        destruct m eqn:?; cbn [bind]; [|reflexivity]
    | H : bind ?m _ = Raise _ |- _ =>
        destruct m eqn:?; cbn [bind] in H; [|discriminate || congruence]
    | H1 : ?t = Ok _, H2 : ?t = Raise _ |- _ => congruence
    | H1 : ?t = Ok ?a, H2 : ?t = Ok ?b |- _ =>
        rewrite H1 in H2; injection H2 as <-
    end; try congruence; try discriminate.
Qed.

Lemma mapM_length {A B} (f : A -> result B) (l : list A) (ys : list B) :
  mapM f l = Ok ys -> List.length ys = List.length l.
Proof.
  intros H. apply mapM_Forall2 in H.
  induction H; cbn; congruence.
Qed.

(** The loop of a collector over the records of a response: it raises as
    soon as a record does, and returns one event per record otherwise. *)
Lemma collector_loop_strict {B} (f : json -> result B) (records : list json) :
  (forall x, no_request_exception (f x)) ->
  (forall r, In r records -> is_ok (f r) = false ->
     exists e, except_request (rs <- iter (JList records) ;; mapM f rs)
               = Raise e)
  /\ (forall evs, except_request (rs <- iter (JList records) ;; mapM f rs)
                  = Ok evs ->
        List.length evs = List.length records).
Proof.
  intros Hf. cbn [iter bind].
  rewrite (except_request_transparent _ (mapM_no_request f records Hf)).
  split.
  - intros r Hin Hr. pose proof (mapM_raises f records r Hin Hr) as H.
    destruct (mapM f records) as [ys|e]; [discriminate|eauto].
  - intros evs H. eapply mapM_length; eassumption.
Qed.

Lemma mapM_first_failure {A B} (f : A -> result B) (pre post : list A)
  (r : A) (e : exn) :
  Forall (fun x => is_ok (f x) = true) pre -> f r = Raise e ->
  mapM f (pre ++ r :: post) = Raise e.
Proof.
  intros Hpre Hr. induction Hpre as [|x xs Hx _ IH]; cbn [app mapM].
  - rewrite Hr. reflexivity.
  - destruct (f x); [|discriminate]. cbn [bind]. rewrite IH. reflexivity.
Qed.

Ltac first_failure Hin Hk :=
  repeat match goal with
  | H : Forall _ (_ :: _) |- _ => inversion H; subst; clear H
  | H : Forall _ [] |- _ => clear H
  end;
  cbn [lookup_path] in *;
  repeat match goal with
  | H : is_ok (bind ?m _) = true |- _ =>
      destruct m eqn:?; cbn [bind] in H; [|discriminate H]
  | H : bind ?m _ = Raise _ |- _ =>
      destruct m eqn:?; cbn [bind] in H
  | H1 : ?t = Ok ?a, H2 : ?t = Ok ?b |- _ =>
      rewrite H1 in H2; injection H2 as <-
  | H1 : ?t = Ok _, H2 : ?t = Raise _ |- _ =>
      rewrite H1 in H2; discriminate H2
  | H : Ok _ = Ok _ |- _ => injection H as H; subst
  end;
  repeat (cbn [bind];
          try match goal with
              | H : ?t = _ |- context [bind ?t _] => rewrite H
              end);
  try congruence.

Lemma split_fields {A} (fields earlier later : list A) (x : A) :
  fields = earlier ++ x :: later ->
  match fields with
  | [] => False
  | y :: ys =>
      (earlier = [] /\ x = y /\ later = ys)
      \/ exists earlier', earlier = y :: earlier'
                          /\ ys = earlier' ++ x :: later
  end.
Proof.
  intros ->. destruct earlier as [|y earlier']; cbn; eauto.
Qed.

Ltac split_fields H :=
  repeat (apply split_fields in H;
          first [ contradiction H
                | destruct H as [(-> & -> & ->)|(? & -> & H)] ]).

Lemma commit_event_first_failing repo r path e :
  first_failing commit_required_fields r path e ->
  commit_event repo r = Raise e.
Proof.
  intros (earlier & later & Hsplit & Hearlier & Hpath).
  unfold commit_required_fields in Hsplit. unfold commit_event.
  split_fields Hsplit; first_failure Hearlier Hpath.
Qed.

Lemma pr_event_first_failing repo r path e :
  first_failing pr_required_fields r path e ->
  pr_event repo r = Raise e.
Proof.
  intros (earlier & later & Hsplit & Hearlier & Hpath).
  unfold pr_required_fields in Hsplit. unfold pr_event.
  split_fields Hsplit; first_failure Hearlier Hpath.
Qed.

Lemma raised_no_request {A} (m : result A) (e : exn) :
  no_request_exception m -> m = Raise e -> e <> RequestException.
Proof. intros Hm -> ->. now apply Hm. Qed.

(** The loop of a collector over the records of a response raises the
    exception of the first record that fails to build. *)
Lemma collector_loop_first_failure {B} (f : json -> result B)
  (pre post : list json) (r : json) (e : exn) :
  (forall x, no_request_exception (f x)) ->
  Forall (fun x => is_ok (f x) = true) pre -> f r = Raise e ->
  except_request (rs <- iter (JList (pre ++ r :: post)) ;; mapM f rs)
  = Raise e.
Proof.
  intros Hf Hpre Hr. cbn [iter bind].
  rewrite (except_request_transparent _ (mapM_no_request f _ Hf)).
  now apply mapM_first_failure.
Qed.

Lemma collector_loop_events {B} (f : json -> result B) (records : list json)
  (evs : list B) :
  (forall x, no_request_exception (f x)) ->
  except_request (rs <- iter (JList records) ;; mapM f rs) = Ok evs ->
  Forall2 (fun r ev => f r = Ok ev) records evs
  /\ List.length evs = List.length records.
Proof.
  intros Hf. cbn [iter bind].
  rewrite (except_request_transparent _ (mapM_no_request f records Hf)).
  intros H. split; [now apply mapM_Forall2|]. eapply mapM_length; eassumption.
Qed.

(** C7 (as the code has it).  The commit and pull-request collectors skip
    no record and handle no error of a single record.  When the provider
    answers the request of a collector with a list of records: a record
    missing a structurally required field makes the whole call raise, and
    not a provider request error; the call raises the exception of the
    first record that fails to build, which is the exception of the first
    required field, in the order the source reads them, that cannot be read
    from that record (the [KeyError] of the key when it is missing); and a
    call that returns has emitted exactly one event per record, in the order
    of the response. *)
Theorem malformed_record_aborts_collector
  (w : World) (L : Lib) (self : Engine) (repo : json) (days_back : Z)
  (tick : nat) (state : string) :
  (forall commits : list json,
     fetch w self (repo_url L repo "/commits")
       [("since", since_isoformat w tick days_back); ("per_page", "100")]
     = Ok (JList commits) ->
     (forall r path,
        In r commits -> In path commit_required_fields -> missing r path ->
        exists e, monitor_commits w L self repo days_back tick = Raise e
                  /\ e <> RequestException)
     /\ (forall pre r post e,
           commits = pre ++ r :: post ->
           Forall (fun x => is_ok (commit_event repo x) = true) pre ->
           commit_event repo r = Raise e ->
           monitor_commits w L self repo days_back tick = Raise e)
     /\ (forall pre r post path e,
           commits = pre ++ r :: post ->
           Forall (fun x => is_ok (commit_event repo x) = true) pre ->
           first_failing commit_required_fields r path e ->
           monitor_commits w L self repo days_back tick = Raise e)
     /\ (forall evs,
           monitor_commits w L self repo days_back tick = Ok evs ->
           Forall2 (fun r ev => commit_event repo r = Ok ev) commits evs
           /\ List.length evs = List.length commits))
  /\ (forall pulls : list json,
        fetch w self (repo_url L repo "/pulls")
          [("state", state); ("per_page", "100")]
        = Ok (JList pulls) ->
        (forall r path,
           In r pulls -> In path pr_required_fields -> missing r path ->
           exists e, monitor_pull_requests w L self repo state = Raise e
                     /\ e <> RequestException)
        /\ (forall pre r post e,
              pulls = pre ++ r :: post ->
              Forall (fun x => is_ok (pr_event repo x) = true) pre ->
              pr_event repo r = Raise e ->
              monitor_pull_requests w L self repo state = Raise e)
        /\ (forall pre r post path e,
              pulls = pre ++ r :: post ->
              Forall (fun x => is_ok (pr_event repo x) = true) pre ->
              first_failing pr_required_fields r path e ->
              monitor_pull_requests w L self repo state = Raise e)
        /\ (forall evs,
              monitor_pull_requests w L self repo state = Ok evs ->
              Forall2 (fun r ev => pr_event repo r = Ok ev) pulls evs
              /\ List.length evs = List.length pulls)).
Proof.
  split.
  - intros commits Hc. unfold monitor_commits. rewrite Hc. cbn [bind].
    pose proof (commit_event_no_request repo) as Hf.
    repeat split.
    + intros r path Hin Hpath Hmiss.
      destruct (collector_loop_strict (commit_event repo) commits Hf)
        as [Hraise _].
      destruct (Hraise r Hin) as [e He];
        [eapply commit_event_missing; eassumption|].
      exists e. split; [exact He|].
      eapply raised_no_request; [|exact He].
      apply except_request_no_request.
    + intros pre r post e -> Hpre Hr.
      now apply collector_loop_first_failure.
    + intros pre r post path e -> Hpre Hr.
      apply collector_loop_first_failure; [exact Hf|exact Hpre|].
      now apply commit_event_first_failing with (path := path).
    + now apply collector_loop_events.
    + eapply collector_loop_events; eassumption.
  - intros pulls Hp. unfold monitor_pull_requests. rewrite Hp. cbn [bind].
    pose proof (pr_event_no_request repo) as Hf.
    repeat split.
    + intros r path Hin Hpath Hmiss.
      destruct (collector_loop_strict (pr_event repo) pulls Hf)
        as [Hraise _].
      destruct (Hraise r Hin) as [e He];
        [eapply pr_event_missing; eassumption|].
      exists e. split; [exact He|].
      eapply raised_no_request; [|exact He].
      apply except_request_no_request.
    + intros pre r post e -> Hpre Hr.
      now apply collector_loop_first_failure.
    + intros pre r post path e -> Hpre Hr.
      apply collector_loop_first_failure; [exact Hf|exact Hpre|].
      now apply pr_event_first_failing with (path := path).
    + now apply collector_loop_events.
    + eapply collector_loop_events; eassumption.
Qed.

Lemma malformed_record_aborts_collector_witness :
  monitor_commits Example.world_malformed Example.lib Example.engine
    Example.repo 30 0 = Raise (KeyError "sha")
  /\ monitor_commits (Example.world_of [Example.commit_text_author])
       Example.lib Example.engine Example.repo 30 0 = Raise TypeError.
Proof.
  split.
  - refine (proj1 (proj2 (proj2
      (proj1
         (malformed_record_aborts_collector Example.world_malformed
            Example.lib Example.engine Example.repo 30 0 "all")
         [Example.commit_feat_3; Example.commit_without_sha;
          Example.commit_fix_25] eq_refl)))
      [Example.commit_feat_3] Example.commit_without_sha
      [Example.commit_fix_25] ["sha"] (KeyError "sha") eq_refl _ _).
    + constructor; [vm_compute; reflexivity|constructor].
    + exists [["commit"; "committer"; "date"]; ["commit"; "author"; "name"]],
        [["commit"; "message"]].
      split; [reflexivity|]. split; [|reflexivity].
      repeat constructor.
  - refine (proj1 (proj2 (proj2
      (proj1
         (malformed_record_aborts_collector
            (Example.world_of [Example.commit_text_author])
            Example.lib Example.engine Example.repo 30 0 "all")
         [Example.commit_text_author] eq_refl)))
      [] Example.commit_text_author [] ["commit"; "author"; "name"]
      TypeError eq_refl _ _).
    + constructor.
    + exists [["commit"; "committer"; "date"]],
        [["sha"]; ["commit"; "message"]].
      split; [reflexivity|]. split; [|reflexivity].
      repeat constructor.
Defined.

(** A commit record without [sha] between two complete records is not
    skipped: the collector raises [KeyError], returns no event at all, and
    the scan is aborted. *)
Lemma malformed_commit_is_not_skipped :
  monitor_commits Example.world_malformed Example.lib Example.engine
    Example.repo 30 0 = Raise (KeyError "sha")
  /\ (forall evs,
        monitor_commits Example.world_malformed Example.lib Example.engine
          Example.repo 30 0 <> Ok evs)
  /\ run_comprehensive_scan Example.world_malformed Example.lib
       Example.engine 30 0 = Raise (KeyError "sha").
Proof.
  assert (H : monitor_commits Example.world_malformed Example.lib
                Example.engine Example.repo 30 0 = Raise (KeyError "sha"))
    by (vm_compute; reflexivity).
  split; [exact H|]. split; [|vm_compute; reflexivity].
  intros evs. rewrite H. discriminate.
Qed.

(* ===================================================================== *)
(** ** Trend *)
(* ===================================================================== *)

Lemma code_trend_label_field (L : Lib) (self : Engine) :
  _analyze_compliance_trends L self =
    VDict [(JStr "daily_compliance_scores",
             VDict (map (fun kv => (JStr (fst kv), VFloat (snd kv)))
                      (daily_averages L self)));
           (JStr "trend", VStr (Trend.code_trend_label L self))].
Proof. reflexivity. Qed.

(** C6 (the code departs from it).  Two commits collected newest first, the
    later one (2 January, score 1.0) better than the earlier one (1 January,
    score 0.29999999999999993): the most recent day's average exceeds the
    earliest day's, yet the engine labels the trend "stable", because it
    compares the day met last with the day met first.  With the same two
    commits made in the other order the scores decline over time and the
    engine labels the trend "improving". *)
Theorem trend_compares_days_in_arrival_order :
  monitor_commits Example.world Example.lib Example.engine Example.repo 30 0
  = Ok (events Trend.improving_engine)
  /\ daily_averages Example.lib Trend.improving_engine
     = [("2024-01-02", 1%float); ("2024-01-01", 0.29999999999999993%float)]
  /\ Trend.code_trend_label Example.lib Trend.improving_engine = "stable"
  /\ Trend.spec_trend_label Example.lib Trend.improving_engine = "improving"
  /\ daily_averages Example.lib Trend.declining_engine
     = [("2024-01-02", 0.29999999999999993%float); ("2024-01-01", 1%float)]
  /\ Trend.code_trend_label Example.lib Trend.declining_engine = "improving"
  /\ Trend.spec_trend_label Example.lib Trend.declining_engine = "stable".
Proof. repeat split; vm_compute; reflexivity. Qed.

(** With no day or a single day the label is "stable". *)
Lemma trend_single_day (L : Lib) (self : Engine) :
  (List.length (daily_averages L self) <= 1)%nat ->
  Trend.code_trend_label L self = "stable".
Proof.
  intros H. unfold Trend.code_trend_label, trend_label.
  destruct (Nat.ltb_spec 1 (List.length (daily_averages L self)));
    [lia|reflexivity].
Qed.

(* ===================================================================== *)
(** ** Further properties: collectors *)
(* ===================================================================== *)

Lemma commit_event_repository repo commit e :
  commit_event repo commit = Ok e -> repository e = repo.
Proof.
  unfold commit_event. intros H. inv_binds H. injection H as <-. reflexivity.
Qed.

Lemma pr_event_repository repo pr e :
  pr_event repo pr = Ok e -> repository e = repo.
Proof.
  unfold pr_event. intros H. inv_binds H. injection H as <-. reflexivity.
Qed.

Lemma file_operation_event_repository repo event e :
  file_operation_event repo event = Ok (Some e) -> repository e = repo.
Proof.
  unfold file_operation_event. intros H. inv_bind H.
  destruct (existsb (eq_str a) file_operation_types); [|discriminate H].
  inv_binds H. injection H as <-. reflexivity.
Qed.

Lemma branch_event_repository w repo tick branch e :
  branch_event w repo tick branch = Ok e ->
  repository e = repo /\ user e = JStr "system"
  /\ timestamp e = JStr (now_isoformat w tick).
Proof.
  unfold branch_event. intros H. inv_binds H. injection H as <-.
  repeat split.
Qed.

Lemma tag_event_repository w repo tick tag e :
  tag_event w repo tick tag = Ok e ->
  repository e = repo /\ user e = JStr "system"
  /\ timestamp e = JStr (now_isoformat w tick).
Proof.
  unfold tag_event. intros H. inv_binds H. injection H as <-.
  repeat split.
Qed.

Lemma file_operation_event_kept repo record oe :
  file_operation_event repo record = Ok oe ->
  is_file_operation record = match oe with Some _ => true | None => false end.
Proof.
  unfold file_operation_event, is_file_operation. intros H.
  destruct (getitem record "type") as [ty|]; cbn [bind] in H;
    [|discriminate H].
  destruct (existsb (eq_str ty) file_operation_types).
  - inv_binds H. injection H as <-. reflexivity.
  - injection H as <-. reflexivity.
Qed.

Lemma somes_length_filter repo (records : list json)
  (evs : list (option ComplianceEvent)) :
  Forall2 (fun r oe => file_operation_event repo r = Ok oe) records evs ->
  List.length (somes evs) = List.length (filter is_file_operation records).
Proof.
  induction 1 as [|r oe rs oes Hr _ IH]; [reflexivity|].
  cbn [filter]. rewrite (file_operation_event_kept _ _ _ Hr).
  destruct oe; cbn [somes List.length]; congruence.
Qed.

(** X1.  Whatever the provider does, no collector lets a request error
    escape; a collector whose request fails returns no event, and in the
    branch-and-tag collector a failed branch request still leaves the tags
    collected, and the other way round. *)
Theorem provider_errors_stay_in_collectors
  (w : World) (L : Lib) (self : Engine) (repo : json) (days_back : Z)
  (tick : nat) (state : string) :
  (no_request_exception (monitor_commits w L self repo days_back tick)
   /\ no_request_exception (monitor_pull_requests w L self repo state)
   /\ no_request_exception (monitor_file_operations w L self repo)
   /\ no_request_exception (monitor_branches_and_tags w L self repo tick))
  /\ (fetch w self (repo_url L repo "/commits")
        [("since", since_isoformat w tick days_back); ("per_page", "100")]
      = Raise RequestException ->
      monitor_commits w L self repo days_back tick = Ok [])
  /\ (fetch w self (repo_url L repo "/pulls")
        [("state", state); ("per_page", "100")] = Raise RequestException ->
      monitor_pull_requests w L self repo state = Ok [])
  /\ (fetch w self (repo_url L repo "/events") [("per_page", "100")]
      = Raise RequestException ->
      monitor_file_operations w L self repo = Ok [])
  /\ (fetch w self (repo_url L repo "/branches") [("per_page", "100")]
      = Raise RequestException ->
      forall tags,
        fetch w self (repo_url L repo "/tags") [("per_page", "50")]
        = Ok (JList tags) ->
        monitor_branches_and_tags w L self repo tick
        = mapM_from (tag_event w repo) tick tags)
  /\ (fetch w self (repo_url L repo "/tags") [("per_page", "50")]
      = Raise RequestException ->
      forall branches,
        fetch w self (repo_url L repo "/branches") [("per_page", "100")]
        = Ok (JList branches) ->
        monitor_branches_and_tags w L self repo tick
        = mapM_from (branch_event w repo) tick branches).
Proof.
  split; [apply collectors_catch_request_errors|].
  unfold monitor_commits, monitor_pull_requests, monitor_file_operations,
    monitor_branches_and_tags.
  repeat split.
  - intros ->. reflexivity.
  - intros ->. reflexivity.
  - intros ->. reflexivity.
  - intros -> tags ->. cbn [bind except_request iter List.length].
    rewrite Nat.add_0_r.
    rewrite except_request_transparent
      by (apply mapM_from_no_request; intros; apply tag_event_no_request).
    destruct (mapM_from (tag_event w repo) tick tags); reflexivity.
  - intros -> branches ->. cbn [bind iter].
    rewrite except_request_transparent
      by (apply mapM_from_no_request; intros; apply branch_event_no_request).
    destruct (mapM_from (branch_event w repo) tick branches) as [evs|e];
      cbn [bind except_request]; [|reflexivity].
    rewrite app_nil_r. reflexivity.
Qed.

Lemma provider_errors_stay_in_collectors_witness :
  fetch Example.world Example.engine
    (repo_url Example.lib Example.repo "/tags") [("per_page", "50")]
  = Raise RequestException
  /\ monitor_branches_and_tags Example.world Example.lib Example.engine
       Example.repo 1
     = mapM_from (branch_event Example.world Example.repo) 1
         [Example.branch_main; Example.branch_dev].
Proof.
  refine (conj eq_refl
    (proj2 (proj2 (proj2 (proj2 (proj2
       (provider_errors_stay_in_collectors Example.world Example.lib
          Example.engine Example.repo 30 1 "all")))))
       eq_refl [Example.branch_main; Example.branch_dev] eq_refl)).
Defined.

Lemma monitor_file_operations_loop w L self repo records evs :
  fetch w self (repo_url L repo "/events") [("per_page", "100")]
  = Ok (JList records) ->
  monitor_file_operations w L self repo = Ok evs ->
  exists oes,
    Forall2 (fun r oe => file_operation_event repo r = Ok oe) records oes
    /\ evs = somes oes.
Proof.
  intros Hf H. unfold monitor_file_operations in H. rewrite Hf in H.
  cbn [bind iter] in H.
  rewrite except_request_transparent in H.
  - inv_bind H. injection H as <-. eexists. split; [|reflexivity].
    apply mapM_Forall2. assumption.
  - apply bind_no_request; [|intros; discriminate].
    apply mapM_no_request, file_operation_event_no_request.
Qed.

(** X2.  The file-operation collector keeps the records whose type is
    PushEvent, CreateEvent or DeleteEvent and drops the others without an
    error: a call that returns has one event per kept record, and the type
    of each event is file_pushevent, file_createevent or
    file_deleteevent. *)
Theorem file_operations_keep_three_types
  (w : World) (L : Lib) (self : Engine) (repo : json)
  (records : list json) (evs : list ComplianceEvent) :
  fetch w self (repo_url L repo "/events") [("per_page", "100")]
  = Ok (JList records) ->
  monitor_file_operations w L self repo = Ok evs ->
  List.length evs = List.length (filter is_file_operation records)
  /\ Forall (fun e => In (event_type e)
               ["file_pushevent"; "file_createevent"; "file_deleteevent"])
       evs.
Proof.
  intros Hf H.
  destruct (monitor_file_operations_loop _ _ _ _ _ _ Hf H) as (oes & F & ->).
  split; [eapply somes_length_filter; eassumption|].
  apply Forall_forall. intros e He. apply somes_In in He.
  clear - F He. induction F as [|r oe rs oes' Hr F IH]; [destruct He|].
  destruct He as [->|He]; [|auto].
  apply file_operation_event_fields in Hr as [Ht _]. exact Ht.
Qed.

Lemma file_operations_keep_three_types_witness :
  exists evs,
    monitor_file_operations Example.world Example.lib Example.engine
      Example.repo = Ok evs
    /\ List.length evs = 2%nat.
Proof.
  eexists. refine (let H := _ in conj H (proj1
    (file_operations_keep_three_types Example.world Example.lib
       Example.engine Example.repo
       [Example.push_event; Example.watch_event; Example.delete_event] _
       eq_refl H))).
  vm_compute. reflexivity.
Defined.

(* ===================================================================== *)
(** ** Further properties: events and scores *)
(* ===================================================================== *)

Lemma produced_event_type (e : ComplianceEvent) :
  produced e -> In (event_type e) event_types.
Proof.
  intros [r c e' H|r p e' H|r v e' H|w r t b e' H|w r t g e' H].
  - apply commit_event_fields in H as [-> _]. cbn. auto.
  - apply pr_event_fields in H as [-> _]. cbn. auto.
  - apply file_operation_event_fields in H as [H _]. cbn in H |- *.
    intuition.
  - apply branch_event_fields in H as [-> _]. cbn. auto 7.
  - apply tag_event_fields in H as [-> _]. cbn. auto 8.
Qed.

Lemma produced_score_table (e : ComplianceEvent) :
  produced e -> In (compliance_score e) score_table.
Proof.
  intros H.
  destruct (produced_score_cases e H)
    as [(b1 & b2 & b3 & ->)|[(b1 & b2 & b3 & ->)|Hs]].
  - destruct b1, b2, b3; vm_compute; auto 11.
  - destruct b1, b2, b3; vm_compute; auto 11.
  - cbn [In] in Hs.
    destruct Hs as [<-|[<-|[<-|[<-|[<-|[]]]]]]; vm_compute; auto 11.
Qed.

Ltac collected_by H lem :=
  apply except_request_ok in H as [H| ->]; [|constructor];
  inv_binds H; apply lem in H.

Lemma monitor_commits_repository w L self repo days tick evs :
  monitor_commits w L self repo days tick = Ok evs ->
  Forall (fun e => repository e = repo) evs.
Proof.
  unfold monitor_commits. intros H. collected_by H @mapM_Forall2.
  eapply Forall2_Forall_r; [exact H|].
  intros x y Hxy. exact (commit_event_repository _ _ _ Hxy).
Qed.

Lemma monitor_pull_requests_repository w L self repo state evs :
  monitor_pull_requests w L self repo state = Ok evs ->
  Forall (fun e => repository e = repo) evs.
Proof.
  unfold monitor_pull_requests. intros H. collected_by H @mapM_Forall2.
  eapply Forall2_Forall_r; [exact H|].
  intros x y Hxy. exact (pr_event_repository _ _ _ Hxy).
Qed.

Lemma monitor_file_operations_repository w L self repo evs :
  monitor_file_operations w L self repo = Ok evs ->
  Forall (fun e => repository e = repo) evs.
Proof.
  unfold monitor_file_operations. intros H.
  apply except_request_ok in H as [H| ->]; [|constructor].
  inv_binds H. injection H as <-.
  apply Forall_forall. intros e He. apply somes_In in He.
  match goal with
  | E : mapM _ _ = Ok _ |- _ => apply mapM_Forall2 in E; rename E into F
  end.
  clear - F He. induction F as [|x y l l' Hxy F IH]; [destruct He|].
  destruct He as [->|He]; [|auto].
  exact (file_operation_event_repository _ _ _ Hxy).
Qed.

Lemma monitor_branches_and_tags_repository w L self repo tick evs :
  monitor_branches_and_tags w L self repo tick = Ok evs ->
  Forall (fun e => repository e = repo /\ user e = JStr "system") evs.
Proof.
  unfold monitor_branches_and_tags. intros H. inv_binds H.
  injection H as <-. apply Forall_app. split.
  - match goal with
    | E : except_request _ = Ok ?l |- Forall _ ?l =>
        collected_by E @mapM_from_Forall2;
        eapply Forall2_Forall_r; [exact E|]
    end.
    intros x y [j Hj]. apply branch_event_repository in Hj. tauto.
  - match goal with
    | E : except_request _ = Ok ?l |- Forall _ ?l =>
        collected_by E @mapM_from_Forall2;
        eapply Forall2_Forall_r; [exact E|]
    end.
    intros x y [j Hj]. apply tag_event_repository in Hj. tauto.
Qed.

(** X3.  After a scan, the type of every event is one of commit,
    pull_request, file_pushevent, file_createevent, file_deleteevent,
    branch_status and tag_status, and the repository of every event is the
    full_name of one of the repositories the scan fetched. *)
Theorem scan_event_types_and_repositories
  (w : World) (L : Lib) (self : Engine) (days_back : Z) (tick : nat)
  (evs : list ComplianceEvent) (self' : Engine) :
  run_comprehensive_scan w L self days_back tick = Ok (evs, self') ->
  Forall (fun e => In (event_type e) event_types) evs
  /\ exists repos,
       get_repositories w L self None = Ok repos
       /\ Forall (fun e => exists r, In r repos
                    /\ getitem r "full_name" = Ok (repository e)) evs.
Proof.
  intros H. split.
  - apply run_comprehensive_scan_produced in H as [_ H].
    eapply Forall_impl; [|exact H]. apply produced_event_type.
  - unfold run_comprehensive_scan in H. inv_bind H. inv_bind H.
    injection H as <- _. exists a. split; [reflexivity|].
    clear E. revert tick a0 E0.
    induction a as [|repo rest IH]; intros tick all E;
      cbn [scan_repositories] in E.
    + injection E as <-. constructor.
    + inv_binds E. injection E as <-.
      assert (Hrepo : forall l, Forall (fun e => repository e = a) l ->
                Forall (fun e => exists r, In r (repo :: rest)
                   /\ getitem r "full_name" = Ok (repository e)) l).
      { intros l Hl. eapply Forall_impl; [|exact Hl].
        intros e ->. exists repo. split; [now left|assumption]. }
      repeat (apply Forall_app; split).
      * eapply Hrepo, monitor_commits_repository; eassumption.
      * eapply Hrepo, monitor_pull_requests_repository; eassumption.
      * eapply Hrepo, monitor_file_operations_repository; eassumption.
      * apply Hrepo. eapply Forall_impl;
          [|eapply monitor_branches_and_tags_repository; eassumption].
        cbn beta. tauto.
      * eapply Forall_impl; [|eapply IH; eassumption].
        intros e (r & Hr & He). exists r. split; [now right|assumption].
Qed.

Lemma scan_event_types_and_repositories_witness :
  run_comprehensive_scan Example.world Example.lib Example.engine 30 0
  = Ok (events Example.scanned, Example.scanned)
  /\ Forall (fun e => In (event_type e) event_types)
       (events Example.scanned).
Proof.
  refine (let H := _ in
          conj H (proj1
            (scan_event_types_and_repositories Example.world Example.lib
               Example.engine 30 0 (events Example.scanned) Example.scanned
               H))).
  vm_compute. reflexivity.
Defined.

(** X4.  Every score the engine produces is one of ten binary64 values,
    the smallest 0.29999999999999993; the floor [max(0.0, score)] of the
    commit and pull-request rules never changes a score. *)
Theorem scores_form_a_finite_table (e : ComplianceEvent) :
  produced e ->
  In (compliance_score e) score_table
  /\ (0.29999999999999993 <=? compliance_score e)%float = true
  /\ (forall short unconventional large : bool,
        Py.max 0 (penalize large 0.2
                    (penalize unconventional 0.2 (penalize short 0.3 1)))
        = penalize large 0.2
            (penalize unconventional 0.2 (penalize short 0.3 1)))
  /\ (forall short unreviewed large : bool,
        Py.max 0 (penalize large 0.1
                    (penalize unreviewed 0.2 (penalize short 0.3 1)))
        = penalize large 0.1
            (penalize unreviewed 0.2 (penalize short 0.3 1))).
Proof.
  intros H. pose proof (produced_score_table e H) as Ht.
  split; [exact Ht|]. split.
  - unfold score_table in Ht. cbn [In] in Ht.
    repeat (destruct Ht as [<-|Ht]; [reflexivity|]). destruct Ht.
  - split; intros b1 b2 b3; destruct b1, b2, b3; reflexivity.
Qed.

Lemma scores_form_a_finite_table_witness :
  produced Example.fix_event
  /\ In (compliance_score Example.fix_event) score_table.
Proof.
  refine (let H := produced_commit Example.repo Example.commit_fix_25
                     Example.fix_event eq_refl in
          conj H (proj1 (scores_form_a_finite_table _ H))).
Defined.

Lemma result_Ok_inj {A} (d : A) (x y : A) : Ok x = Ok y -> x = y.
Proof.
  intros H.
  exact (f_equal (fun r => match r with Ok v => v | Raise _ => d end) H).
Qed.

(** X5.  A commit event is high-risk exactly when its message is shorter
    than 10 characters and, besides, it has no conventional prefix or changes
    more than 20 files; it is low-risk exactly when its message is not short
    and at most one of the other two penalties applies. *)
Theorem commit_event_tier (repo commit c : json) (m : string)
  (fs : list json) (e : ComplianceEvent) :
  getitem commit "commit" = Ok c ->
  getitem c "message" = Ok (JStr m) ->
  get commit "files" (JList []) = Ok (JList fs) ->
  commit_event repo commit = Ok e ->
  is_high_risk e
  = (Z.of_nat (String.length m) <? 10)
    && (negb (has_conventional_prefix m)
        || (Z.of_nat (List.length fs) >? 20))
  /\ is_low_risk e
     = negb (Z.of_nat (String.length m) <? 10)
       && negb (negb (has_conventional_prefix m)
                && (Z.of_nat (List.length fs) >? 20)).
Proof.
  intros Hc Hm Hf He.
  apply commit_event_fields in He as [_ Hs].
  rewrite (commit_score_formula commit c m fs Hc Hm Hf) in Hs.
  apply (result_Ok_inj 0%float) in Hs.
  unfold is_high_risk, is_low_risk. rewrite <- Hs.
  destruct (Z.of_nat (String.length m) <? 10),
    (has_conventional_prefix m), (Z.of_nat (List.length fs) >? 20);
    split; reflexivity.
Qed.

Lemma commit_event_tier_witness :
  commit_event Example.repo Example.commit_fix_25 = Ok Example.fix_event
  /\ is_high_risk Example.fix_event = true.
Proof.
  refine (conj eq_refl (proj1
    (commit_event_tier Example.repo Example.commit_fix_25
       (JDict [("message", JStr "fix");
               ("committer", JDict [("date", JStr "2024-01-01T09:30:00Z")]);
               ("author", JDict [("name", JStr "ann")])])
       "fix" (repeat (JDict [("additions", JInt 2)]) 25) Example.fix_event
       eq_refl eq_refl eq_refl eq_refl))).
Defined.

(** X6.  A pull-request event is high-risk exactly when its description is
    absent or shorter than 20 characters and it has no review comment; the
    size of the change alone never makes it high-risk. *)
Theorem pr_event_tier (repo pr : json) (description : option string)
  (rc a d : Z) (e : ComplianceEvent) :
  get pr "body" JNull
  = Ok (match description with Some s => JStr s | None => JNull end) ->
  get pr "review_comments" (JInt 0) = Ok (JInt rc) ->
  get pr "additions" (JInt 0) = Ok (JInt a) ->
  get pr "deletions" (JInt 0) = Ok (JInt d) ->
  pr_event repo pr = Ok e ->
  is_high_risk e
  = match description with
    | Some s => Z.of_nat (String.length s) <? 20
    | None => true
    end && (rc =? 0).
Proof.
  intros Hb Hr Ha Hd He.
  apply pr_event_fields in He as [_ Hs].
  rewrite (pr_score_formula pr description rc a d Hb Hr Ha Hd) in Hs.
  apply (result_Ok_inj 0%float) in Hs.
  unfold is_high_risk. rewrite <- Hs.
  destruct (match description with
            | Some s => Z.of_nat (String.length s) <? 20
            | None => true
            end), (rc =? 0), (a + d >? 1000); reflexivity.
Qed.

Lemma pr_event_tier_witness :
  exists e,
    pr_event Example.repo Example.pr_no_body = Ok e
    /\ is_high_risk e = true.
Proof.
  eexists. refine (let H := _ in conj H
    (pr_event_tier Example.repo Example.pr_no_body None 0 1000 500 _
       eq_refl eq_refl eq_refl eq_refl H)).
  vm_compute. reflexivity.
Defined.

Lemma starts_with_app (p s : string) : starts_with p (p ++ s)%string = true.
Proof.
  induction p as [|c p IH]; [reflexivity|].
  cbn. rewrite Ascii.eqb_refl. exact IH.
Qed.

Lemma str_in_app (p a b : string) : str_in p (a ++ p ++ b)%string = true.
Proof.
  induction a as [|c a IH].
  - cbn [String.append]. destruct (p ++ b)%string eqn:E; cbn [str_in];
      rewrite <- E, starts_with_app; reflexivity.
  - cbn [String.append str_in]. rewrite IH. apply orb_true_r.
Qed.

Lemma lower_string_app (a b : string) :
  lower_string (a ++ b) = (lower_string a ++ lower_string b)%string.
Proof.
  induction a as [|c a IH]; [reflexivity|].
  cbn. rewrite IH. reflexivity.
Qed.

(** X7.  The conventional-commit test is a substring test without regard
    to letter case: a message that contains one of the seven prefixes
    anywhere, in any mix of capitals, is not charged the 0.2. *)
Theorem conventional_prefix_anywhere (commit c : json)
  (before word after prefix : string) (fs : list json) :
  In prefix conventional_prefixes ->
  lower_string word = prefix ->
  getitem commit "commit" = Ok c ->
  getitem c "message" = Ok (JStr (before ++ word ++ after)) ->
  get commit "files" (JList []) = Ok (JList fs) ->
  _calculate_commit_compliance_score commit =
    Ok (Py.max 0
          (penalize (Z.of_nat (List.length fs) >? 20) 0.2
             (penalize
                (Z.of_nat (String.length (before ++ word ++ after)) <? 10)
                0.3 1))).
Proof.
  intros Hp Hw Hc Hm Hf.
  rewrite (commit_score_formula commit c _ fs Hc Hm Hf).
  assert (H : has_conventional_prefix (before ++ word ++ after) = true).
  { unfold has_conventional_prefix. apply existsb_exists.
    exists prefix. split; [exact Hp|].
    rewrite !lower_string_app, Hw. apply str_in_app. }
  rewrite H. reflexivity.
Qed.

Lemma conventional_prefix_anywhere_witness :
  _calculate_commit_compliance_score
    (Example.commit_record "d4" "Revert FIX: typo in the parser"
       "2024-01-02T10:00:00Z" "bob" 1)
  = Ok 1%float.
Proof.
  refine (conventional_prefix_anywhere
    (Example.commit_record "d4" "Revert FIX: typo in the parser"
       "2024-01-02T10:00:00Z" "bob" 1)
    (JDict [("message", JStr "Revert FIX: typo in the parser");
            ("committer", JDict [("date", JStr "2024-01-02T10:00:00Z")]);
            ("author", JDict [("name", JStr "bob")])])
    "Revert " "FIX:" " typo in the parser" "fix:"
    [JDict [("additions", JInt 2)]] _ eq_refl eq_refl eq_refl eq_refl).
  cbn. auto.
Defined.

(* ===================================================================== *)
(** ** Further properties: repositories and the scan *)
(* ===================================================================== *)

Lemma fetch_raises_request w self url params e :
  fetch w self url params = Raise e -> e = RequestException.
Proof.
  unfold fetch, raise_for_status.
  destruct (requests_get w url (headers self) params) as [|st body].
  - intros H. apply (f_equal (fun r => match r with
                                        | Raise x => x
                                        | Ok _ => RequestException
                                        end)) in H.
    symmetry. exact H.
  - destruct ((400 <=? st) && (st <? 600)); [|discriminate].
    intros H. apply (f_equal (fun r => match r with
                                        | Raise x => x
                                        | Ok _ => RequestException
                                        end)) in H.
    symmetry. exact H.
Qed.

Lemma fetch_repository_organization w L self o name :
  organization_set self = Some o ->
  fetch_repository w L self name = Ok (fetched_repository w self o name).
Proof.
  intros Ho. unfold fetch_repository, resolve_full_name, fetched_repository.
  rewrite Ho. cbn [bind].
  destruct (fetch w self (base_url ++ "/repos/" ++ o ++ "/" ++ name) [])
    as [r|e] eqn:E; [reflexivity|].
  apply fetch_raises_request in E as ->. reflexivity.
Qed.

Lemma get_repositories_organization w L self o :
  organization_set self = Some o ->
  get_repositories w L self None
  = Ok (flat_map (fetched_repository w self o) (repositories self)).
Proof.
  intros Ho. unfold get_repositories.
  assert (H : mapM (fetch_repository w L self) (repositories self)
              = Ok (map (fetched_repository w self o) (repositories self))).
  { induction (repositories self) as [|name names IH]; [reflexivity|].
    cbn [mapM map]. rewrite (fetch_repository_organization _ _ _ _ _ Ho).
    cbn [bind]. rewrite IH. reflexivity. }
  rewrite H. cbn [bind]. rewrite flat_map_concat_map. reflexivity.
Qed.

Lemma flat_map_length_le {A B} (f : A -> list B) (l : list A) :
  (forall x, (List.length (f x) <= 1)%nat) ->
  (List.length (flat_map f l) <= List.length l)%nat.
Proof.
  intros Hf. induction l as [|x l IH]; [reflexivity|].
  cbn [flat_map]. rewrite length_app. specialize (Hf x). cbn. lia.
Qed.

(** X8.  With an organization configured, listing the repositories never
    raises: the result holds, in configuration order, the body of every
    repository whose request succeeded; a repository whose request fails is
    left out, so there are at most as many entries as configured names.
    Asking for one configured name gives that repository alone. *)
Theorem get_repositories_skips_failures
  (w : World) (L : Lib) (self : Engine) (o : string) :
  organization_set self = Some o ->
  get_repositories w L self None
  = Ok (flat_map (fetched_repository w self o) (repositories self))
  /\ (List.length (flat_map (fetched_repository w self o)
                    (repositories self))
      <= List.length (repositories self))%nat
  /\ (forall name,
        name <> "" -> In name (repositories self) ->
        get_repositories w L self (Some name)
        = Ok (fetched_repository w self o name)).
Proof.
  intros Ho. split; [exact (get_repositories_organization _ L _ _ Ho)|].
  split.
  - apply flat_map_length_le. intros name. unfold fetched_repository.
    destruct (fetch _ _ _ _); cbn; lia.
  - intros name Hne Hin. unfold get_repositories.
    assert (H1 : String.eqb name "" = false)
      by (apply String.eqb_neq; exact Hne).
    assert (H2 : existsb (String.eqb name) (repositories self) = true).
    { apply existsb_exists. exists name. split; [exact Hin|].
      apply String.eqb_refl. }
    rewrite H1, H2. cbn [negb andb].
    exact (fetch_repository_organization _ _ _ _ _ Ho).
Qed.

Lemma get_repositories_skips_failures_witness :
  organization_set Example.engine = Some "acme"
  /\ get_repositories Example.world Example.lib Example.engine None
     = Ok [JDict [("full_name", Example.repo)]].
Proof.
  refine (conj eq_refl (proj1
    (get_repositories_skips_failures Example.world Example.lib
       Example.engine "acme" eq_refl))).
Defined.

Lemma scan_repositories_no_request w L self days repos :
  forall tick,
    no_request_exception (scan_repositories w L self days repos tick).
Proof.
  induction repos as [|repo rest IH]; intros tick; cbn [scan_repositories];
    [discriminate|].
  pose proof collectors_catch_request_errors as Hc.
  apply bind_no_request; [auto with python|]. intros name.
  apply bind_no_request; [apply (Hc w L self name days tick "all")|].
  intros commits.
  apply bind_no_request; [apply (Hc w L self name days tick "all")|].
  intros pulls.
  apply bind_no_request; [apply (Hc w L self name days tick "all")|].
  intros files.
  apply bind_no_request; [apply (Hc w L self name days (S tick) "all")|].
  intros refs.
  apply bind_no_request; [apply IH|]. intros others. discriminate.
Qed.

(** X9.  With an organization configured a scan never fails on a provider
    error: it raises no [RequestException], whatever the provider answers.
    Without one, the request for the authenticated user is made outside any
    handler: when it fails to connect, the scan raises that error; when it
    answers another status than 200, the bare repository name is used. *)
Theorem scan_and_provider_errors
  (w : World) (L : Lib) (self : Engine) (days_back : Z) (tick : nat) :
  (forall o, organization_set self = Some o ->
     no_request_exception (run_comprehensive_scan w L self days_back tick))
  /\ (organization_set self = None -> repositories self <> [] ->
      requests_get w (base_url ++ "/user") (headers self) [] = ConnectionError ->
      run_comprehensive_scan w L self days_back tick = Raise RequestException)
  /\ (forall status body name,
        organization_set self = None ->
        requests_get w (base_url ++ "/user") (headers self) []
        = Response status body ->
        status <> 200 ->
        resolve_full_name w L self name = Ok name).
Proof.
  repeat split.
  - intros o Ho. unfold run_comprehensive_scan.
    rewrite (get_repositories_organization _ L _ _ Ho). cbn [bind].
    apply bind_no_request; [apply scan_repositories_no_request|].
    intros evs. discriminate.
  - intros Ho Hne Hu. unfold run_comprehensive_scan, get_repositories.
    destruct (repositories self) as [|name names]; [contradiction|].
    cbn [mapM]. unfold fetch_repository at 1, resolve_full_name.
    rewrite Ho, Hu. reflexivity.
  - intros status body name Ho Hu Hs. unfold resolve_full_name.
    rewrite Ho, Hu.
    destruct (Z.eqb_spec status 200); [contradiction|reflexivity].
Qed.

Lemma scan_and_provider_errors_witness :
  organization_set Outage.main_engine = None
  /\ run_comprehensive_scan Outage.offline Example.lib Outage.main_engine
       30 0 = Raise RequestException.
Proof.
  refine (conj eq_refl (proj1 (proj2
    (scan_and_provider_errors Outage.offline Example.lib Outage.main_engine
       30 0)) eq_refl _ eq_refl)).
  discriminate.
Defined.

Lemma flat_map_nil {A B} (f : A -> list B) (l : list A) :
  (forall x, In x l -> f x = []) -> flat_map f l = [].
Proof.
  induction l as [|x l IH]; intros H; [reflexivity|].
  cbn [flat_map]. rewrite (H x (or_introl eq_refl)).
  apply IH. intros y Hy. apply H. now right.
Qed.

(** X10.  When no configured repository can be fetched (an organization is
    set and every repository request fails), the scan returns normally with
    no event, and the report generated from it is the empty dict, with
    nothing written to disk. *)
Theorem unreachable_repositories_give_empty_report
  (w : World) (L : Lib) (self : Engine) (o : string) (days_back : Z)
  (tick tick' : nat) (output_file : string) (files : disk) :
  organization_set self = Some o ->
  (forall name, In name (repositories self) ->
     fetch w self (base_url ++ "/repos/" ++ o ++ "/" ++ name) []
     = Raise RequestException) ->
  run_comprehensive_scan w L self days_back tick
  = Ok ([], set_events self [])
  /\ generate_progress_report w L (set_events self []) output_file tick'
       files
     = Ok (VDict [], files).
Proof.
  intros Ho Hf. split; [|reflexivity].
  unfold run_comprehensive_scan.
  rewrite (get_repositories_organization _ L _ _ Ho).
  rewrite flat_map_nil; [reflexivity|].
  intros name Hin. unfold fetched_repository. rewrite (Hf name Hin).
  reflexivity.
Qed.

Lemma unreachable_repositories_give_empty_report_witness :
  run_comprehensive_scan Outage.not_found Example.lib Example.engine 30 0
  = Ok ([], set_events Example.engine []).
Proof.
  refine (proj1
    (unreachable_repositories_give_empty_report Outage.not_found Example.lib
       Example.engine "acme" 30 0 0 "compliance_report.json" []
       eq_refl _)).
  intros name Hin. reflexivity.
Defined.

(* ===================================================================== *)
(** ** Further properties: the summary *)
(* ===================================================================== *)

Lemma generate_summary_tallies (self : Engine) :
  _generate_summary self =
    (' (events_by_type, events_by_repo, events_by_user) <-
       summary_tallies self ;;
     Ok (VDict
           [(JStr "events_by_type", counts events_by_type);
            (JStr "events_by_repository", counts events_by_repo);
            (JStr "top_contributors",
              counts (top_contributors events_by_user));
            (JStr "average_compliance_score",
              match events self with
              | [] => VInt 0
              | _ => VFloat (sum_floats (map compliance_score (events self))
                             / float_of_nat (List.length (events self)))
              end)])).
Proof. reflexivity. Qed.

Lemma incr_total k d : total (incr k d) = total d + 1.
Proof.
  induction d as [|[k' n] d IH]; [reflexivity|].
  cbn [incr]. unfold total in *.
  destruct (key_eqb k k'); cbn [fold_right snd] in *; lia.
Qed.

Lemma incr_keys k d x :
  In x (incr k d) -> In (fst x) (map fst d) \/ x = (k, 1).
Proof.
  induction d as [|[k' n] d IH]; cbn [incr].
  - intros [<-|[]]. now right.
  - destruct (key_eqb k k'); cbn [In map fst].
    + intros [<-|H]; [left; now left|]. left. right. now apply in_map.
    + intros [<-|H]; [left; now left|].
      destruct (IH H) as [H'|H']; [left; now right|now right].
Qed.

Lemma incr_distinct k d : distinct_keys d -> distinct_keys (incr k d).
Proof.
  unfold distinct_keys.
  induction 1 as [|[k' n] d Hk Hd IH]; cbn [incr].
  - constructor; constructor.
  - destruct (key_eqb k k') eqn:E.
    + constructor; [|exact Hd]. exact Hk.
    + constructor; [|exact IH].
      apply Forall_forall. intros x Hx. cbn [fst].
      rewrite Forall_forall in Hk.
      destruct (incr_keys k d x Hx) as [H| ->].
      * apply in_map_iff in H as (y & Hy & Hin).
        specialize (Hk y Hin). cbn [fst] in Hk. rewrite <- Hy. exact Hk.
      * exact E.
Qed.

Lemma fold_count_event_raise evs e :
  fold_left count_event evs (Raise e) = Raise e.
Proof. induction evs as [|x evs IH]; [reflexivity|exact IH]. Qed.

Lemma count_event_ok t r u e :
  count_event (Ok (t, r, u)) e =
    if hashable_keys e
    then Ok (incr (JStr (event_type e)) t, incr (repository e) r,
             incr (user e) u)
    else Raise TypeError.
Proof.
  unfold count_event, hashable_keys, incr_key. cbn [bind hashable].
  destruct (hashable (repository e)); cbn [bind andb]; [|reflexivity].
  destruct (hashable (user e)); reflexivity.
Qed.

Lemma fold_count_event evs :
  forall t r u,
    fold_left count_event evs (Ok (t, r, u)) =
      if forallb hashable_keys evs
      then Ok (fold_left (fun d e => incr (JStr (event_type e)) d) evs t,
               fold_left (fun d e => incr (repository e) d) evs r,
               fold_left (fun d e => incr (user e) d) evs u)
      else Raise TypeError.
Proof.
  induction evs as [|e evs IH]; intros t r u; [reflexivity|].
  cbn [fold_left forallb]. rewrite count_event_ok.
  destruct (hashable_keys e); cbn [andb]; [apply IH|].
  apply fold_count_event_raise.
Qed.

Lemma fold_incr_total {A} (key : A -> json) (l : list A) :
  forall d,
    total (fold_left (fun d e => incr (key e) d) l d)
    = total d + Z.of_nat (List.length l).
Proof.
  induction l as [|x l IH]; intros d; cbn [fold_left List.length];
    [lia|].
  rewrite IH, incr_total. lia.
Qed.

Lemma fold_incr_distinct {A} (key : A -> json) (l : list A) :
  forall d, distinct_keys d ->
    distinct_keys (fold_left (fun d e => incr (key e) d) l d).
Proof.
  induction l as [|x l IH]; intros d Hd; [exact Hd|].
  cbn [fold_left]. apply IH, incr_distinct, Hd.
Qed.

(** X11.  The summary is computed exactly when the repository and the user
    of every event can be a dict key (neither is a JSON array or object);
    otherwise it raises TypeError.  When it is computed, each of the three
    tallies (by type, by repository, by user) has pairwise distinct keys and
    counts that add up to the number of events. *)
Theorem summary_tallies_add_up (self : Engine) :
  (is_ok (_generate_summary self) = forallb hashable_keys (events self))
  /\ (forallb hashable_keys (events self) = false ->
      _generate_summary self = Raise TypeError)
  /\ (forall by_type by_repo by_user,
        summary_tallies self = Ok (by_type, by_repo, by_user) ->
        total by_type = Z.of_nat (List.length (events self))
        /\ total by_repo = Z.of_nat (List.length (events self))
        /\ total by_user = Z.of_nat (List.length (events self))
        /\ distinct_keys by_type /\ distinct_keys by_repo
        /\ distinct_keys by_user).
Proof.
  rewrite generate_summary_tallies. unfold summary_tallies.
  rewrite fold_count_event.
  destruct (forallb hashable_keys (events self)).
  - split; [reflexivity|]. split; [discriminate|].
    intros t r u H.
    apply (f_equal (fun x => match x with
                             | Ok v => v
                             | Raise _ => ([], [], [])
                             end)) in H.
    injection H as <- <- <-.
    rewrite !fold_incr_total. cbn [total fold_right].
    repeat split; try lia; apply fold_incr_distinct; constructor.
  - split; [reflexivity|]. split; [reflexivity|]. discriminate.
Qed.

Lemma summary_tallies_add_up_witness :
  exists by_type by_repo by_user,
    summary_tallies Example.scanned = Ok (by_type, by_repo, by_user)
    /\ total by_user = 7.
Proof.
  do 3 eexists. refine (let H := _ in conj H
    (proj1 (proj2 (proj2 (proj2 (proj2
       (summary_tallies_add_up Example.scanned)) _ _ _ H))))).
  vm_compute. reflexivity.
Defined.

Lemma insert_desc_perm x l : Permutation (x :: l) (insert_desc x l).
Proof.
  induction l as [|y l IH]; cbn [insert_desc]; [reflexivity|].
  destruct (snd y >=? snd x); [|reflexivity].
  rewrite perm_swap. constructor. exact IH.
Qed.

Lemma sorted_by_count_desc_perm l : Permutation l (sorted_by_count_desc l).
Proof.
  unfold sorted_by_count_desc.
  assert (H : forall acc, Permutation (acc ++ l)
                (fold_left (fun acc x => insert_desc x acc) l acc)).
  { induction l as [|x l IH]; intros acc; cbn [fold_left].
    - rewrite app_nil_r. reflexivity.
    - rewrite <- IH. rewrite <- insert_desc_perm.
      symmetry. apply Permutation_middle. }
  exact (H []).
Qed.

Lemma insert_desc_sorted x l :
  StronglySorted (fun a b => snd b <= snd a) l ->
  StronglySorted (fun a b => snd b <= snd a) (insert_desc x l).
Proof.
  induction 1 as [|y l Hl IH Hy]; cbn [insert_desc].
  - constructor; constructor.
  - destruct (Z.geb_spec (snd y) (snd x)) as [Hge|Hlt].
    + constructor; [exact IH|].
      apply Forall_forall. intros z Hz.
      apply (Permutation_in _ (Permutation_sym (insert_desc_perm x l))) in Hz.
      destruct Hz as [<-|Hz]; [lia|].
      rewrite Forall_forall in Hy. auto.
    + constructor; [constructor; assumption|].
      constructor; [lia|].
      eapply Forall_impl; [|exact Hy]. cbn beta. intros z Hz. lia.
Qed.

Lemma sorted_by_count_desc_sorted l :
  StronglySorted (fun a b => snd b <= snd a) (sorted_by_count_desc l).
Proof.
  unfold sorted_by_count_desc.
  assert (H : forall acc,
            StronglySorted (fun a b => snd b <= snd a) acc ->
            StronglySorted (fun a b => snd b <= snd a)
              (fold_left (fun acc x => insert_desc x acc) l acc)).
  { induction l as [|x l IH]; intros acc Hacc; [exact Hacc|].
    cbn [fold_left]. apply IH, insert_desc_sorted, Hacc. }
  apply H. constructor.
Qed.

Lemma StronglySorted_split {A} (R : A -> A -> Prop) (n : nat) (l : list A) :
  StronglySorted R l ->
  StronglySorted R (firstn n l)
  /\ forall x y, In x (firstn n l) -> In y (skipn n l) -> R x y.
Proof.
  intros H. revert n. induction H as [|a l Hl IH Ha]; intros n.
  - rewrite firstn_nil, skipn_nil. split; [constructor|intros x y []].
  - destruct n as [|n]; cbn [firstn skipn].
    + split; [constructor|intros x y []].
    + destruct (IH n) as [IH1 IH2]. split.
      * constructor; [exact IH1|].
        apply Forall_forall. intros x Hx. rewrite Forall_forall in Ha.
        apply Ha. eapply (In_nth_error) in Hx. destruct Hx as [i Hi].
        eapply nth_error_In. 
        rewrite <- (firstn_skipn n l).
        rewrite nth_error_app1; [exact Hi|].
        apply nth_error_Some. congruence.
      * intros x y [<-|Hx] Hy; [|auto].
        rewrite Forall_forall in Ha. apply Ha.
        rewrite <- (firstn_skipn n l). apply in_or_app. now right.
Qed.

(** X12.  The top contributors are at most ten entries of the tally by
    user, listed by decreasing count: no entry that is left out has a
    larger count than an entry that is kept, and with ten users or fewer
    nobody is left out. *)
Theorem top_contributors_are_the_largest (events_by_user : list (json * Z)) :
  (List.length (top_contributors events_by_user) <= 10)%nat
  /\ StronglySorted (fun a b => snd b <= snd a)
       (top_contributors events_by_user)
  /\ (exists others,
        Permutation events_by_user
          (top_contributors events_by_user ++ others)
        /\ (forall kept left_out,
              In kept (top_contributors events_by_user) ->
              In left_out others -> snd left_out <= snd kept)
        /\ ((List.length events_by_user <= 10)%nat -> others = [])).
Proof.
  unfold top_contributors.
  pose proof (sorted_by_count_desc_perm events_by_user) as Hp.
  pose proof (sorted_by_count_desc_sorted events_by_user) as Hs.
  destruct (StronglySorted_split _ 10 _ Hs) as [H1 H2].
  split; [apply firstn_le_length|]. split; [exact H1|].
  exists (skipn 10 (sorted_by_count_desc events_by_user)).
  split; [rewrite firstn_skipn; exact Hp|]. split.
  - intros kept left_out Hk Hl. exact (H2 kept left_out Hk Hl).
  - intros Hlen. apply skipn_all2.
    rewrite <- (Permutation_length Hp). exact Hlen.
Qed.

Lemma fold_incr_key {A} (key : A -> json) (l : list A) :
  forallb (fun x => hashable (key x)) l = true ->
  forall d,
    fold_left (fun acc k => d <- acc ;; incr_key k d) (map key l) (Ok d)
    = Ok (fold_left (fun d e => incr (key e) d) l d).
Proof.
  induction l as [|x l IH]; intros H d; [reflexivity|].
  cbn [forallb] in H. apply andb_prop in H as [Hx Hl].
  cbn [map fold_left bind]. unfold incr_key at 2. rewrite Hx.
  apply IH, Hl.
Qed.

(** X13.  In a report, repositories_scanned is the number of keys of the
    summary's tally by repository: whenever the summary's tallies are
    computed, the count of distinct repositories is computed too and equals
    the number of entries of events_by_repository. *)
Theorem repositories_scanned_counts_tally_keys (self : Engine)
  (by_type by_repo by_user : list (json * Z)) :
  summary_tallies self = Ok (by_type, by_repo, by_user) ->
  count_distinct (map repository (events self))
  = Ok (Z.of_nat (List.length by_repo)).
Proof.
  unfold summary_tallies. rewrite fold_count_event.
  destruct (forallb hashable_keys (events self)) eqn:Hh; [|discriminate].
  intros H.
  apply (f_equal (fun x => match x with
                           | Ok v => v
                           | Raise _ => ([], [], [])
                           end)) in H.
  injection H as _ <- _.
  unfold count_distinct. rewrite fold_incr_key; [reflexivity|].
  rewrite forallb_forall in Hh |- *. intros e He.
  specialize (Hh e He). unfold hashable_keys in Hh.
  apply andb_prop in Hh. tauto.
Qed.

Lemma repositories_scanned_counts_tally_keys_witness :
  exists by_type by_repo by_user,
    summary_tallies Example.scanned = Ok (by_type, by_repo, by_user)
    /\ count_distinct (map repository (events Example.scanned))
       = Ok (Z.of_nat (List.length by_repo)).
Proof.
  do 3 eexists. refine (let H := _ in conj H
    (repositories_scanned_counts_tally_keys Example.scanned _ _ _ H)).
  vm_compute. reflexivity.
Defined.

(* ===================================================================== *)
(** ** Further properties: the trend *)
(* ===================================================================== *)

Lemma date_eqb_eq (a b : date) : date_eqb a b = true <-> a = b.
Proof.
  unfold date_eqb. destruct a as [y m d], b as [y' m' d']. cbn.
  rewrite !andb_true_iff, !Z.eqb_eq. split.
  - intros [[-> ->] ->]. reflexivity.
  - intros H. injection H as -> -> ->. auto.
Qed.

Lemma date_eqb_refl (a : date) : date_eqb a a = true.
Proof. now apply date_eqb_eq. Qed.

Lemma daily_scores_fold (L : Lib) (self : Engine) :
  daily_scores L self = fold_left (add_event L) (events self) [].
Proof. reflexivity. Qed.

Lemma fold_add_event_filter (L : Lib) (evs : list ComplianceEvent) :
  forall daily,
    fold_left (add_event L) (filter (parseable L) evs) daily
    = fold_left (add_event L) evs daily.
Proof.
  induction evs as [|e evs IH]; intros daily; [reflexivity|].
  cbn [filter fold_left]. unfold parseable at 1, add_event at 3.
  destruct (event_date L e) eqn:E; cbn [fold_left]; [|apply IH].
  rewrite IH. unfold add_event at 2. rewrite E. reflexivity.
Qed.

(** X14.  Events whose timestamp gives no day (it is no string, or does not
    parse) have no influence on the trend analysis: it is the analysis of
    the other events. *)
Theorem trend_ignores_unparseable_timestamps (L : Lib) (self : Engine) :
  daily_scores L self
  = daily_scores L (set_events self (filter (parseable L) (events self)))
  /\ _analyze_compliance_trends L self
     = _analyze_compliance_trends L
         (set_events self (filter (parseable L) (events self))).
Proof.
  assert (H : daily_scores L self
              = daily_scores L
                  (set_events self (filter (parseable L) (events self)))).
  { rewrite !daily_scores_fold. cbn [events set_events].
    symmetry. apply fold_add_event_filter. }
  split; [exact H|].
  unfold _analyze_compliance_trends, daily_averages. rewrite <- H.
  reflexivity.
Qed.

Lemma append_score_map d s (daily : list (date * list float)) :
  NoDup (map fst daily) ->
  append_score d s daily
  = map (fun b => if date_eqb d (fst b) then (fst b, snd b ++ [s]) else b)
      daily
    ++ (if existsb (fun b => date_eqb d (fst b)) daily
        then [] else [(d, [s])]).
Proof.
  induction daily as [|[d' l] daily IH]; intros Hnd; [reflexivity|].
  cbn [map fst] in Hnd. apply NoDup_cons_iff in Hnd as [Hd' Hnd].
  cbn [append_score map existsb fst snd].
  destruct (date_eqb d d') eqn:E; cbn [orb].
  - apply date_eqb_eq in E. subst d'. rewrite app_nil_r. f_equal.
    symmetry. rewrite <- (map_id daily) at 2. apply map_ext_in.
    intros b Hb. destruct (date_eqb d (fst b)) eqn:E'; [|reflexivity].
    apply date_eqb_eq in E'. exfalso. apply Hd'. rewrite E'.
    now apply in_map.
  - rewrite (IH Hnd). reflexivity.
Qed.

Lemma existsb_date_In d (daily : list (date * list float)) :
  existsb (fun b => date_eqb d (fst b)) daily = true <-> In d (map fst daily).
Proof.
  rewrite existsb_exists, in_map_iff. split.
  - intros (b & Hb & E). apply date_eqb_eq in E. eauto.
  - intros (b & E & Hb). exists b. split; [exact Hb|].
    apply date_eqb_eq. congruence.
Qed.

Lemma on_day_some L e d d' :
  event_date L e = Some d -> on_day L d' e = date_eqb d d'.
Proof. unfold on_day. intros ->. reflexivity. Qed.

Lemma on_day_none L e d' : event_date L e = None -> on_day L d' e = false.
Proof. unfold on_day. intros ->. reflexivity. Qed.

Lemma grouped_by_day_step L seen daily e :
  grouped_by_day L seen daily ->
  grouped_by_day L (seen ++ [e]) (add_event L daily e).
Proof.
  intros (Hnd & Hb & Hc). unfold add_event.
  destruct (event_date L e) as [d|] eqn:E.
  - rewrite (append_score_map d _ daily Hnd).
    assert (Hfst : map fst
              (map (fun b => if date_eqb d (fst b)
                             then (fst b, snd b ++ [compliance_score e])
                             else b) daily) = map fst daily).
    { rewrite map_map. apply map_ext. intros b.
      destruct (date_eqb d (fst b)); reflexivity. }
    assert (Hold : Forall
              (fun b => snd b = map compliance_score
                                  (filter (on_day L (fst b)) (seen ++ [e]))
                        /\ snd b <> [])
              (map (fun b => if date_eqb d (fst b)
                             then (fst b, snd b ++ [compliance_score e])
                             else b) daily)).
    { apply Forall_map. eapply Forall_impl; [|exact Hb].
      intros b [Hs Hne]. rewrite filter_app, map_app. cbn [filter].
      rewrite (on_day_some L e d _ E).
      destruct (date_eqb d (fst b)) eqn:Eb; cbn [fst snd map];
        rewrite ?(on_day_some L e d _ E), ?Eb; cbn [map].
      - split; [rewrite Hs; reflexivity|].
        intros H. apply app_eq_nil in H as [_ H]. discriminate.
      - rewrite app_nil_r. split; assumption. }
    destruct (existsb (fun b => date_eqb d (fst b)) daily) eqn:Ex.
    + rewrite app_nil_r. split; [rewrite Hfst; exact Hnd|].
      split; [exact Hold|].
      intros e' d' Hin He'. rewrite Hfst.
      apply in_app_or in Hin as [Hin|[<-|[]]]; [eauto|].
      rewrite E in He'. injection He' as <-.
      now apply existsb_date_In.
    + assert (Hnot : ~ In d (map fst daily)).
      { intros H. apply existsb_date_In in H. congruence. }
      split; [|split].
      * rewrite map_app, Hfst. cbn [map fst].
        apply NoDup_app; [exact Hnd|constructor; [intros []|constructor]|].
        intros x Hx [<-|[]]. contradiction.
      * apply Forall_app. split; [exact Hold|].
        constructor; [|constructor]. cbn [fst snd].
        split; [|discriminate].
        rewrite filter_app, map_app. cbn [filter].
        rewrite (on_day_some L e d _ E), date_eqb_refl. cbn [map].
        assert (Hnil : filter (on_day L d) seen = []).
        { destruct (filter (on_day L d) seen) as [|e0 l] eqn:F;
            [reflexivity|].
          exfalso. assert (H0 : In e0 (filter (on_day L d) seen))
            by (rewrite F; now left).
          apply filter_In in H0 as [H0 H1]. unfold on_day in H1.
          destruct (event_date L e0) as [d0|] eqn:E0; [|discriminate].
          apply date_eqb_eq in H1. subst d0. apply Hnot. eauto. }
        rewrite Hnil. reflexivity.
      * intros e' d' Hin He'. rewrite map_app, Hfst. apply in_or_app.
        apply in_app_or in Hin as [Hin|[<-|[]]]; [left; eauto|].
        right. rewrite E in He'. injection He' as <-. now left.
  - split; [exact Hnd|]. split.
    + eapply Forall_impl; [|exact Hb]. intros b [Hs Hne].
      rewrite filter_app. cbn [filter]. rewrite (on_day_none L e _ E).
      rewrite app_nil_r. split; assumption.
    + intros e' d' Hin He'.
      apply in_app_or in Hin as [Hin|[<-|[]]]; [eauto|congruence].
Qed.

Lemma grouped_by_day_fold L (evs : list ComplianceEvent) :
  forall seen daily,
    grouped_by_day L seen daily ->
    grouped_by_day L (seen ++ evs) (fold_left (add_event L) evs daily).
Proof.
  induction evs as [|e evs IH]; intros seen daily H.
  - rewrite app_nil_r. exact H.
  - cbn [fold_left].
    replace (seen ++ e :: evs) with ((seen ++ [e]) ++ evs)
      by (rewrite <- app_assoc; reflexivity).
    apply IH, grouped_by_day_step, H.
Qed.

(** X15.  The trend analysis groups the scores by day without loss: the
    daily buckets have pairwise distinct days, every event whose timestamp
    gives a day has a bucket, and each bucket holds exactly the scores of
    the events of its day, in their order; so no bucket is empty and no
    daily average divides by zero. *)
Theorem daily_scores_group_by_day (L : Lib) (self : Engine) :
  NoDup (map fst (daily_scores L self))
  /\ Forall (fun b => snd b = map compliance_score
                               (filter (on_day L (fst b)) (events self))
                      /\ snd b <> [])
       (daily_scores L self)
  /\ (forall e d, In e (events self) -> event_date L e = Some d ->
        In d (map fst (daily_scores L self))).
Proof.
  rewrite daily_scores_fold.
  apply (grouped_by_day_fold L (events self) [] []).
  split; [constructor|]. split; [constructor|]. intros e d [].
Qed.

Lemma digit_inj (a b : Z) :
  0 <= a < 10 -> 0 <= b < 10 -> digit a = digit b -> a = b.
Proof.
  intros Ha Hb H. unfold digit in H.
  apply (f_equal N_of_ascii) in H.
  rewrite !N_ascii_embedding in H by (rewrite !Z.mod_small by lia; lia).
  rewrite !Z.mod_small in H by lia. lia.
Qed.

Lemma digits_4_inj (y y' : Z) :
  0 <= y < 10000 -> 0 <= y' < 10000 ->
  (y / 1000) mod 10 = (y' / 1000) mod 10 ->
  (y / 100) mod 10 = (y' / 100) mod 10 ->
  (y / 10) mod 10 = (y' / 10) mod 10 ->
  y mod 10 = y' mod 10 -> y = y'.
Proof. intros. Z.div_mod_to_equations. lia. Qed.

Lemma digit_mod (n : Z) : digit n = digit (n mod 10).
Proof. unfold digit. rewrite Z.mod_mod by lia. reflexivity. Qed.

Lemma digit_eq_mod (a b : Z) : digit a = digit b -> a mod 10 = b mod 10.
Proof.
  intros H. rewrite (digit_mod a), (digit_mod b) in H.
  apply digit_inj in H; [exact H| |]; apply Z.mod_pos_bound; lia.
Qed.

Lemma date_isoformat_inj (a b : date) :
  valid_date a = true -> valid_date b = true ->
  date_isoformat a = date_isoformat b -> a = b.
Proof.
  unfold valid_date. rewrite !andb_true_iff, !Z.leb_le.
  destruct a as [y m d], b as [y' m' d']. cbn [year month day].
  intros Ha Hb H. unfold date_isoformat in H. cbn [year month day] in H.
  injection H as H1 H2 H3 H4 H5 H6 H7 H8.
  repeat match goal with
  | H : ascii_of_N _ = ascii_of_N _ |- _ =>
      change (digit ?x = digit ?y) in H
  end.
  apply digit_eq_mod in H1, H2, H3, H4, H5, H6, H7, H8.
  assert (y = y') by (apply digits_4_inj; lia || assumption).
  assert (m = m') by (clear - Ha Hb H5 H6; Z.div_mod_to_equations; lia).
  assert (d = d') by (clear - Ha Hb H7 H8; Z.div_mod_to_equations; lia).
  congruence.
Qed.

Lemma dict_set_fresh k v (d : list (string * float)) :
  ~ In k (map fst d) -> dict_set k v d = d ++ [(k, v)].
Proof.
  induction d as [|[k' v'] d IH]; intros H; [reflexivity|].
  cbn [dict_set]. destruct (String.eqb_spec k k') as [->|Hne].
  - exfalso. apply H. now left.
  - rewrite IH; [reflexivity|]. intros Hin. apply H. now right.
Qed.

Lemma daily_averages_fold_fresh (days : list (date * list float)) :
  forall acc,
    NoDup (map fst acc ++ map (fun ds => date_isoformat (fst ds)) days) ->
    fold_left
      (fun d ds =>
         dict_set (date_isoformat (fst ds))
           (sum_floats (snd ds) / float_of_nat (List.length (snd ds)))%float
           d)
      days acc
    = acc ++ map (fun ds => (date_isoformat (fst ds),
                             Trend.average (snd ds))) days.
Proof.
  induction days as [|ds days IH]; intros acc Hnd; cbn [fold_left map].
  - rewrite app_nil_r. reflexivity.
  - cbn [map] in Hnd. rewrite dict_set_fresh.
    + rewrite IH.
      * rewrite <- app_assoc. reflexivity.
      * rewrite map_app. cbn [map fst]. rewrite <- app_assoc. exact Hnd.
    + apply NoDup_remove_2 in Hnd. intros Hin. apply Hnd.
      apply in_or_app. now left.
Qed.

Lemma date_ltb_lt (a b : date) :
  Trend.date_ltb a b = true <->
  year a < year b
  \/ (year a = year b
      /\ (month a < month b \/ (month a = month b /\ day a < day b))).
Proof.
  unfold Trend.date_ltb.
  rewrite !orb_true_iff, !andb_true_iff, !orb_true_iff, !andb_true_iff,
    !Z.ltb_lt, !Z.eqb_eq. tauto.
Qed.

Lemma date_ltb_trans (a b c : date) :
  Trend.date_ltb a b = true -> Trend.date_ltb b c = true ->
  Trend.date_ltb a c = true.
Proof. rewrite !date_ltb_lt. lia. Qed.

Lemma date_ltb_asym (a b : date) :
  Trend.date_ltb a b = true -> Trend.date_ltb b a = false.
Proof.
  intros H. destruct (Trend.date_ltb b a) eqn:E; [|reflexivity].
  rewrite date_ltb_lt in H, E. lia.
Qed.

Lemma date_ltb_neq (a b : date) : Trend.date_ltb a b = true -> a <> b.
Proof. intros H ->. rewrite date_ltb_lt in H. lia. Qed.

Lemma increasing_sorted (days : list date) :
  increasing days = true ->
  StronglySorted (fun a b => Trend.date_ltb a b = true) days.
Proof.
  induction days as [|a days IH]; intros H; [constructor|].
  destruct days as [|b days]; [constructor; constructor|].
  cbn [increasing] in H. apply andb_prop in H as [Hab H].
  specialize (IH H). constructor; [exact IH|].
  constructor; [exact Hab|].
  apply StronglySorted_inv in IH as [_ Hb].
  eapply Forall_impl; [|exact Hb]. cbn beta. intros c Hc.
  eapply date_ltb_trans; eassumption.
Qed.

Lemma earliest_first first others :
  Forall (fun d => Trend.date_ltb (fst first) (fst d) = true) others ->
  Trend.earliest first others = first.
Proof.
  unfold Trend.earliest. induction 1 as [|d others Hd _ IH]; [reflexivity|].
  cbn [fold_left]. rewrite (date_ltb_asym _ _ Hd). exact IH.
Qed.

Lemma last_default {A} (l : list A) (x a b : A) :
  last (x :: l) a = last (x :: l) b.
Proof.
  revert x. induction l as [|y l IH]; intros x; [reflexivity|].
  change (last (x :: y :: l) a) with (last (y :: l) a).
  change (last (x :: y :: l) b) with (last (y :: l) b). apply IH.
Qed.

Lemma most_recent_last first others :
  StronglySorted (fun a b => Trend.date_ltb a b = true)
    (map fst (first :: others)) ->
  Trend.most_recent first others = last others first.
Proof.
  unfold Trend.most_recent. revert first.
  induction others as [|d others IH]; intros first H; [reflexivity|].
  cbn [map] in H. apply StronglySorted_inv in H as [Hs Hf].
  apply Forall_inv in Hf. cbn [fold_left]. rewrite Hf.
  rewrite (IH d Hs). destruct others as [|p others]; [reflexivity|].
  change (last (d :: p :: others) first) with (last (p :: others) first).
  apply last_default.
Qed.

Lemma rev_head_last {A} (x : A) (l : list A) :
  exists t, rev (x :: l) = last l x :: t.
Proof.
  revert x. induction l as [|y l IH]; intros x; [exists []; reflexivity|].
  destruct (IH y) as [t Ht]. exists (t ++ [x]).
  change (rev (x :: y :: l)) with (rev (y :: l) ++ [x]). rewrite Ht.
  cbn [app]. f_equal. destruct l as [|z l]; [reflexivity|].
  change (last (y :: z :: l) x) with (last (z :: l) x).
  apply last_default.
Qed.

Lemma last_map {A B} (f : A -> B) (l : list A) (x : A) :
  last (map f l) (f x) = f (last l x).
Proof.
  revert x. induction l as [|y l IH]; intros x; [reflexivity|].
  cbn [map]. destruct l as [|z l]; [reflexivity|].
  change (last (f y :: map f (z :: l)) (f x)) with (last (map f (z :: l)) (f x)).
  change (last (y :: z :: l) x) with (last (z :: l) x).
  apply IH.
Qed.

Lemma NoDup_map_injective {A B} (f : A -> B) (l : list A) :
  (forall a b, In a l -> In b l -> f a = f b -> a = b) ->
  NoDup l -> NoDup (map f l).
Proof.
  intros Hf Hnd. induction Hnd as [|x l Hx Hnd IH]; [constructor|].
  cbn [map]. constructor.
  - intros Hin. apply in_map_iff in Hin as (y & Hy & Hin).
    apply Hx. rewrite (Hf x y); [exact Hin|now left|now right|congruence].
  - apply IH. intros a b Ha Hb. apply Hf; now right.
Qed.

(** X16.  When the days of the events are first met in chronological order
    (each new day later than every day met before), the label the engine
    reports is the one the comparison of the most recent day with the
    earliest day gives. *)
Theorem trend_label_when_days_arrive_in_order (L : Lib) (self : Engine) :
  forallb valid_date (map fst (daily_scores L self)) = true ->
  increasing (map fst (daily_scores L self)) = true ->
  Trend.code_trend_label L self = Trend.spec_trend_label L self.
Proof.
  intros Hv Hi. apply increasing_sorted in Hi.
  unfold Trend.code_trend_label, Trend.spec_trend_label, daily_averages.
  rewrite (daily_averages_fold_fresh (daily_scores L self) []).
  - cbn [app]. destruct (daily_scores L self) as [|first others];
      [reflexivity|].
    unfold trend_label. rewrite length_map.
    destruct (1 <? List.length (first :: others))%nat; [|reflexivity].
    cbn [andb]. unfold last_exceeds_first. cbn [map].
    destruct (rev_head_last
                (date_isoformat (fst first), Trend.average (snd first))
                (map (fun ds => (date_isoformat (fst ds),
                                 Trend.average (snd ds))) others))
      as [t Ht].
    rewrite Ht.
    rewrite (last_map (fun ds => (date_isoformat (fst ds),
                                  Trend.average (snd ds)))).
    rewrite (most_recent_last first others Hi).
    rewrite earliest_first; [reflexivity|].
    cbn [map] in Hi. apply StronglySorted_inv in Hi as [_ Hf].
    rewrite Forall_map in Hf. exact Hf.
  - cbn [map app]. rewrite <- map_map.
    apply NoDup_map_injective.
    + intros a b Ha Hb. rewrite forallb_forall in Hv.
      apply date_isoformat_inj; auto.
    + clear Hv. induction Hi as [|a l Hl IH Ha]; constructor; [|exact IH].
      intros Hin. rewrite Forall_forall in Ha.
      exact (date_ltb_neq _ _ (Ha a Hin) eq_refl).
Qed.

Lemma trend_label_when_days_arrive_in_order_witness :
  Trend.code_trend_label Example.lib
    (set_events Example.engine [Example.fix_event; Trend.feat_event])
  = "improving".
Proof.
  refine (eq_trans
    (trend_label_when_days_arrive_in_order Example.lib
       (set_events Example.engine [Example.fix_event; Trend.feat_event])
       eq_refl eq_refl) _).
  vm_compute. reflexivity.
Defined.

(* ===================================================================== *)
(** ** Further properties: the entry point *)
(* ===================================================================== *)

(** X17.  When the scan finds no event, [main] does not complete: the
    report is the empty dict and reading its total raises
    KeyError('total_events'). *)
Theorem main_fails_without_events (w : World) (L : Lib)
  (tick report_tick : nat) (files : disk) (self' : Engine) :
  run_comprehensive_scan w L Outage.main_engine 30 tick = Ok ([], self') ->
  main w L tick report_tick files = Fails (KeyError "total_events").
Proof.
  intros H. unfold main. fold Outage.main_engine. rewrite H.
  apply run_comprehensive_scan_produced in H as [He _].
  cbn [and_then]. unfold generate_progress_report. rewrite He.
  reflexivity.
Qed.

Lemma main_fails_without_events_witness :
  main Outage.not_found Example.lib 0 1 [] = Fails (KeyError "total_events").
Proof.
  refine (main_fails_without_events Outage.not_found Example.lib 0 1 []
            (set_events Outage.main_engine []) _).
  vm_compute. reflexivity.
Defined.

(** X18.  When the scan finds at least one event and the report is
    generated, [main] completes: the report holds every key [main] reads,
    the average and the percentages are numbers, and the file written by
    the report is left on disk. *)
Theorem main_completes_with_events (w : World) (L : Lib)
  (tick report_tick : nat) (files files' : disk)
  (evs : list ComplianceEvent) (self' : Engine) (report : value) :
  run_comprehensive_scan w L Outage.main_engine 30 tick = Ok (evs, self') ->
  evs <> [] ->
  generate_progress_report w L self' "compliance_report.json" report_tick
    files = Ok (report, files') ->
  main w L tick report_tick files = Completes files'.
Proof.
  intros H Hne Hr. unfold main. fold Outage.main_engine. rewrite H.
  apply run_comprehensive_scan_produced in H as [He _].
  cbn [and_then]. rewrite Hr. cbn [and_then].
  unfold generate_progress_report in Hr. rewrite He in Hr.
  destruct evs as [|e evs]; [contradiction|].
  inv_bind Hr. inv_bind Hr. inv_bind Hr.
  destruct (writable w "compliance_report.json"); [|discriminate Hr].
  match goal with
  | E : _generate_summary self' = Ok _ |- _ =>
      rewrite generate_summary_tallies in E; inv_bind E;
      rewrite He in E
  end.
  repeat match goal with
  | E : (let '(_, _) := ?p in _) = Ok _ |- _ => destruct p
  end.
  match goal with
  | E : Ok _ = Ok ?s |- _ =>
      apply (f_equal (fun r => match r with
                               | Ok v => v
                               | Raise _ => VDict []
                               end)) in E; subst s
  end.
  apply (f_equal (fun r => match r with
                           | Ok v => fst v
                           | Raise _ => VDict []
                           end)) in Hr.
  cbn [fst] in Hr. subst report.
  unfold _generate_compliance_metrics. rewrite He.
  reflexivity.
Qed.

Lemma main_completes_with_events_witness :
  exists files, main main_world Example.lib 0 3 [] = Completes files.
Proof.
  eexists.
  refine (main_completes_with_events main_world Example.lib 0 3 [] _
            _ _ _ _ _ _).
  - vm_compute. reflexivity.
  - discriminate.
  - vm_compute. reflexivity.
Defined.

(* ===================================================================== *)
(** ** Further properties: the details of a commit *)
(* ===================================================================== *)

Lemma sum_field_fold field (fs : list json) :
  forallb (countable field) fs = true ->
  forall acc,
    fold_left
      (fun acc f => a <- acc ;; v <- get f field (JInt 0) ;; add_int a v)
      fs (Ok acc)
    = Ok (acc + fold_right Z.add 0 (map (field_or_zero field) fs)).
Proof.
  induction fs as [|f fs IH]; intros H acc; cbn [fold_left map fold_right].
  - f_equal. lia.
  - cbn [forallb] in H. apply andb_prop in H as [Hf H].
    unfold countable in Hf. unfold field_or_zero at 1.
    destruct (get f field (JInt 0)) as [v|] eqn:E; [|discriminate Hf].
    cbn [bind]. unfold add_int.
    destruct (as_int v) as [n|]; [|discriminate Hf].
    rewrite (IH H). f_equal. lia.
Qed.

(** X19.  The additions and deletions a commit event reports are totals
    over the files of the commit, a file without the field counting for 0:
    for a commit whose files are records with integer counts, the event
    holds the number of files and the two sums. *)
Theorem commit_details_are_totals (repo commit : json) (fs : list json)
  (e : ComplianceEvent) :
  get commit "files" (JList []) = Ok (JList fs) ->
  forallb (countable "additions") fs = true ->
  forallb (countable "deletions") fs = true ->
  commit_event repo commit = Ok e ->
  assoc "files_changed" (details e) = Some (JInt (Z.of_nat (List.length fs)))
  /\ assoc "additions" (details e)
     = Some (JInt (fold_right Z.add 0
                     (map (field_or_zero "additions") fs)))
  /\ assoc "deletions" (details e)
     = Some (JInt (fold_right Z.add 0
                     (map (field_or_zero "deletions") fs))).
Proof.
  intros Hf Ha Hd He. unfold commit_event in He. rewrite Hf in He.
  unfold sum_field in He. inv_binds He.
  repeat match goal with
  | E : context [iter (JList fs)] |- _ => cbn [iter bind] in E
  | E : len (JList fs) = Ok _ |- _ =>
      cbn [len] in E; apply (result_Ok_inj 0) in E; subst
  | E : fold_left _ fs (Ok 0) = Ok _ |- _ =>
      first [rewrite (sum_field_fold "additions" fs Ha 0) in E
            |rewrite (sum_field_fold "deletions" fs Hd 0) in E];
      apply (result_Ok_inj 0) in E; cbn [Z.add] in E; subst
  end.
  apply (result_Ok_inj Example.fix_event) in He. subst e.
  repeat split.
Qed.

Lemma commit_details_are_totals_witness :
  assoc "additions" (details Example.fix_event) = Some (JInt 50).
Proof.
  refine (proj1 (proj2
    (commit_details_are_totals Example.repo Example.commit_fix_25
       (repeat (JDict [("additions", JInt 2)]) 25) Example.fix_event
       eq_refl eq_refl eq_refl eq_refl))).
Defined.
